(** * ParallelPlagiarismChecker: the comparison pipeline in Rocq

    Shallow embedding of [src/utils/comparison.py] (with the parts of
    Python's [difflib.SequenceMatcher] it delegates to),
    [src/utils/preprocessing.py] and the driver [src/main.py]. *)

From Stdlib Require Import Ascii String.
From Stdlib Require Import List Arith Lia Bool.
From Stdlib Require Import Sorting.Sorted Sorting.Permutation.
From Stdlib Require Import NArith ZArith.
Import ListNotations.
Open Scope nat_scope.

(* ===================================================================== *)
(** ** CPython floats: binary64 with round-to-nearest-even *)
(* ===================================================================== *)

Module Float64.
Local Open Scope Z_scope.

(** Python's [round] on the non-negative rational [n / d] ([d > 0]): the
    nearest integer, ties to even. *)
Definition rne (n d : Z) : Z :=
  let q := n / d in
  let r := n mod d in
  if d <? 2 * r then q + 1
  else if 2 * r <? d then q
  else if Z.even q then q else q + 1.

(** [n / (d * 2^e)], as a numerator and a denominator. *)
Definition scaled (n d e : Z) : Z * Z :=
  if 0 <=? e then (n, d * 2 ^ e) else (n * 2 ^ (- e), d).

(** For [n, d > 0], the exponent [e] with [2^52 <= n / (d * 2^e) < 2^53]:
    [log2 n - log2 d - 52] is that exponent or one more. *)
Definition fl_exp (n d : Z) : Z :=
  let e := Z.log2 n - Z.log2 d - 52 in
  let '(p, q) := scaled n d e in
  if p <? 2 ^ 52 * q then e - 1 else e.

(** The binary64 number nearest to [n / d >= 0], ties to even, as the
    pair [(m, e)] of the value [m * 2^e]: the result of a correctly rounded
    IEEE 754 operation whose exact result is [n / d]. The exponent range is
    unbounded: the values of this program (ratios of text lengths) are far
    from overflow and from the subnormals. *)
Definition fl (n d : Z) : Z * Z :=
  if n <=? 0 then (0, 0) else
  let e := fl_exp n d in
  let '(p, q) := scaled n d e in
  (rne p q, e).

(** The value [m * 2^e] as a fraction. *)
Definition frac (m e : Z) : Z * Z :=
  if 0 <=? e then (m * 2 ^ e, 1) else (m, 2 ^ (- e)).
End Float64.

(* ===================================================================== *)
(** ** difflib.SequenceMatcher(None, a, b), as called by [compare_pair] *)
(* ===================================================================== *)

Module Difflib.
Import Float64.

(** A match (i, j, size) and a search region (alo, ahi, blo, bhi). *)
Definition triple := (nat * nat * nat)%type.
Definition region := (nat * nat * nat * nat)%type.

Definition t_a (t : triple) : nat := let '(i, _, _) := t in i.
Definition t_b (t : triple) : nat := let '(_, j, _) := t in j.
Definition t_size (t : triple) : nat := let '(_, _, k) := t in k.

Section Matcher.
Context {E : Type}.
Variable E_dec : forall x y : E, {x = y} + {x <> y}.
(** [autojunk] is the keyword argument of [SequenceMatcher]; it defaults to
    [True], which is what [compare_pair] uses. *)
Variable autojunk : bool.
Variables a b : list E.

Definition elt_eqb (x y : E) : bool := if E_dec x y then true else false.

(** [a[i] == b[j]]; the callers only use in-range indices. *)
Definition at_eqb (i j : nat) : bool :=
  match nth_error a i, nth_error b j with
  | Some x, Some y => elt_eqb x y
  | _, _ => false
  end.

(** The indices of [c] in [s], ascending, offset by [n]. *)
Fixpoint indices_from (c : E) (s : list E) (n : nat) : list nat :=
  match s with
  | [] => []
  | x :: r => if elt_eqb x c then n :: indices_from c r (S n)
              else indices_from c r (S n)
  end.

(** [__chain_b]: with [isjunk=None] the junk set [bjunk] is empty; when
    [autojunk] and [len(b) >= 200], an element occurring more than
    [len(b) // 100 + 1] times is "popular" and deleted from [b2j]. *)
Definition popular (c : E) : bool :=
  autojunk && (200 <=? length b)
  && (length b / 100 + 1 <? length (indices_from c b 0)).

(** [b2j.get(c, [])]. *)
Definition b2j_get (c : E) : list nat :=
  if popular c then [] else indices_from c b 0.

(** The dictionaries [j2len]/[newj2len] as association lists;
    [j2len.get(j, 0)]. *)
Fixpoint j2len_get (l : list (nat * nat)) (j : nat) : nat :=
  match l with
  | [] => 0
  | (j', k) :: r => if j' =? j then k else j2len_get r j
  end.

(** [j2lenget(j-1, 0)]: key [-1] is never present. *)
Definition prev_len (l : list (nat * nat)) (j : nat) : nat :=
  match j with 0 => 0 | S j' => j2len_get l j' end.

(** The inner loop [for j in b2j.get(a[i], nothing)] of
    [find_longest_match], with its [continue] and [break]. *)
Fixpoint scan_row (i : nat) (js : list nat) (blo bhi : nat)
    (j2len newj2len : list (nat * nat)) (best : triple)
    : list (nat * nat) * triple :=
  match js with
  | [] => (newj2len, best)
  | j :: js' =>
      if j <? blo then scan_row i js' blo bhi j2len newj2len best
      else if bhi <=? j then (newj2len, best)
      else
        let k := S (prev_len j2len j) in
        let best' := if t_size best <? k then (S i - k, S j - k, k) else best in
        scan_row i js' blo bhi j2len ((j, k) :: newj2len) best'
  end.

(** The outer loop [for i in range(alo, ahi)]. *)
Fixpoint scan_rows (rows : list nat) (blo bhi : nat)
    (j2len : list (nat * nat)) (best : triple) : triple :=
  match rows with
  | [] => best
  | i :: rows' =>
      let js := match nth_error a i with Some c => b2j_get c | None => [] end in
      let '(newj2len, best') := scan_row i js blo bhi j2len [] best in
      scan_rows rows' blo bhi newj2len best'
  end.

(** [while besti > alo and bestj > blo and not isbjunk(b[bestj-1]) and
    a[besti-1] == b[bestj-1]]; [isbjunk] is always false here. The fuel
    [besti] bounds the iterations (each one decrements [besti]). *)
Fixpoint ext_left (fuel alo blo bi bj bs : nat) : triple :=
  match fuel with
  | 0 => (bi, bj, bs)
  | S f =>
      if (alo <? bi) && (blo <? bj) && at_eqb (bi - 1) (bj - 1)
      then ext_left f alo blo (bi - 1) (bj - 1) (S bs)
      else (bi, bj, bs)
  end.

(** [while besti+bestsize < ahi and bestj+bestsize < bhi and ...]; the
    fuel [ahi - (besti+bestsize)] bounds the iterations. *)
Fixpoint ext_right (fuel ahi bhi bi bj bs : nat) : triple :=
  match fuel with
  | 0 => (bi, bj, bs)
  | S f =>
      if (bi + bs <? ahi) && (bj + bs <? bhi) && at_eqb (bi + bs) (bj + bs)
      then ext_right f ahi bhi bi bj (S bs)
      else (bi, bj, bs)
  end.

(** [find_longest_match(alo, ahi, blo, bhi)]. The two loops that absorb
    junk elements are no-ops because [bjunk] is empty. *)
Definition find_longest_match (alo ahi blo bhi : nat) : triple :=
  let '(bi, bj, bs) := scan_rows (seq alo (ahi - alo)) blo bhi [] (alo, blo, 0) in
  let '(bi, bj, bs) := ext_left bi alo blo bi bj bs in
  ext_right (ahi - (bi + bs)) ahi bhi bi bj bs.

(** The [while queue] loop of [get_matching_blocks]. The Python list
    [queue] is held reversed: [append] is a cons, [pop()] takes the head.
    The fuel bounds the iterations: each one lowers the sum over the queue
    of [2 * (ahi - alo) + 1]. *)
Fixpoint gmb_loop (fuel : nat) (queue : list region) (acc : list triple)
    : option (list triple) :=
  match queue with
  | [] => Some acc
  | (alo, ahi, blo, bhi) :: queue' =>
      match fuel with
      | 0 => None
      | S f =>
          let '(i, j, k) := find_longest_match alo ahi blo bhi in
          if k =? 0 then gmb_loop f queue' acc
          else
            let q1 := if (alo <? i) && (blo <? j)
                      then (alo, i, blo, j) :: queue' else queue' in
            let q2 := if (i + k <? ahi) && (j + k <? bhi)
                      then (i + k, ahi, j + k, bhi) :: q1 else q1 in
            gmb_loop f q2 (acc ++ [(i, j, k)])
      end
  end.

End Matcher.

(** [matching_blocks.sort()]: tuples compare lexicographically. *)
Definition triple_leb (x y : triple) : bool :=
  let '(i1, j1, k1) := x in
  let '(i2, j2, k2) := y in
  (i1 <? i2) || ((i1 =? i2) && ((j1 <? j2) || ((j1 =? j2) && (k1 <=? k2)))).

Fixpoint insert_triple (x : triple) (l : list triple) : list triple :=
  match l with
  | [] => [x]
  | y :: r => if triple_leb x y then x :: l else y :: insert_triple x r
  end.

Fixpoint sort_triples (l : list triple) : list triple :=
  match l with
  | [] => []
  | x :: r => insert_triple x (sort_triples r)
  end.

(** The loop that collapses adjacent blocks, from the accumulator
    [(i1, j1, k1)] (initially [(0, 0, 0)]). *)
Fixpoint collapse (cur : triple) (l : list triple) : list triple :=
  match l with
  | [] => if t_size cur =? 0 then [] else [cur]
  | (i2, j2, k2) :: r =>
      let '(i1, j1, k1) := cur in
      if (i1 + k1 =? i2) && (j1 + k1 =? j2) then collapse (i1, j1, k1 + k2) r
      else (if k1 =? 0 then [] else [cur]) ++ collapse (i2, j2, k2) r
  end.

Section Blocks.
Context {E : Type}.
Variable E_dec : forall x y : E, {x = y} + {x <> y}.
Variable autojunk : bool.
Variables a b : list E.

(** [get_matching_blocks()]. *)
Definition get_matching_blocks : option (list triple) :=
  let la := length a in
  let lb := length b in
  match gmb_loop E_dec autojunk a b (2 * la + 1) [(0, la, 0, lb)] [] with
  | Some mb => Some (collapse (0, 0, 0) (sort_triples mb) ++ [(la, lb, 0)])
  | None => None
  end.

End Blocks.

(** [sum(triple[-1] for triple in self.get_matching_blocks())]. *)
Definition sum_sizes (mb : list triple) : nat :=
  fold_right (fun t s => t_size t + s) 0 mb.

(** [round(_calculate_ratio(matches, length) * 100, 2)] in hundredths,
    in CPython's float arithmetic: [2.0 * matches / length] is the float
    nearest to [2 * matches / length] (both integers convert exactly), the
    product by [100] is rounded again, and [round(x, 2)] is the decimal
    with two places nearest to the exact binary value [x], ties to even;
    the ratio is [1.0] when [length] is 0. *)
Definition score_hundredths (matches length : nat) : nat :=
  if length =? 0 then 10000 else
  let '(m1, e1) := fl (2 * Z.of_nat matches)%Z (Z.of_nat length) in
  let '(n1, d1) := frac (100 * m1)%Z e1 in
  let '(m2, e2) := fl n1 d1 in
  let '(n2, d2) := frac (100 * m2)%Z e2 in
  Z.to_nat (rne n2 d2).

(** Lines 13-16 of [compare_pair]: the score and the matching blocks of
    [SequenceMatcher(None, code1, code2)] (default [autojunk=True]). *)
Definition match_texts {E : Type} (E_dec : forall x y : E, {x = y} + {x <> y})
    (autojunk : bool) (code1 code2 : list E) : option (nat * list triple) :=
  match get_matching_blocks E_dec autojunk code1 code2 with
  | Some mb => Some (score_hundredths (sum_sizes mb) (length code1 + length code2), mb)
  | None => None
  end.

End Difflib.

(* ===================================================================== *)
(** ** Python string and path helpers (text as [list ascii]) *)
(* ===================================================================== *)

Module Py.
Local Open Scope string_scope.
Local Open Scope list_scope.
Local Open Scope nat_scope.

Definition chars (s : string) : list ascii := list_ascii_of_string s.

Definition ascii_eqb (c d : ascii) : bool := if ascii_dec c d then true else false.

Fixpoint starts_with (p s : list ascii) : bool :=
  match p, s with
  | [], _ => true
  | c :: p', d :: s' => ascii_eqb c d && starts_with p' s'
  | _ :: _, [] => false
  end.

Definition ends_with (suf s : list ascii) : bool :=
  starts_with (rev suf) (rev s).

Fixpoint contains (p s : list ascii) : bool :=
  match s with
  | [] => starts_with p []
  | _ :: s' => starts_with p s || contains p s'
  end.

(** [s.rfind(c)], [None] for -1. *)
Fixpoint rfind_from (c : ascii) (s : list ascii) (n : nat) : option nat :=
  match s with
  | [] => None
  | d :: r =>
      match rfind_from c r (S n) with
      | Some k => Some k
      | None => if ascii_eqb c d then Some n else None
      end
  end.
Definition rfind (c : ascii) (s : list ascii) : option nat := rfind_from c s 0.

(** [os.path.basename] (posixpath): the part after the last ['/']. *)
Definition basename (p : list ascii) : list ascii :=
  match rfind "/"%char p with Some i => skipn (S i) p | None => p end.

(** [os.path.splitext(p)[1]] (posixpath): from the last dot of the last
    component, unless that component holds only dots before it. *)
Definition splitext_ext (p : list ascii) : list ascii :=
  let n := basename p in
  match rfind "."%char n with
  | Some d =>
      if existsb (fun c => negb (ascii_eqb c "."%char)) (firstn d n)
      then skipn d n else []
  | None => []
  end.

(** [pathlib.PurePath(name).suffix]. *)
Definition path_suffix (name : list ascii) : list ascii :=
  match rfind "."%char name with
  | Some i => if (0 <? i) && (S i <? length name) then skipn i name else []
  | None => []
  end.

(** [str.lower()] on ASCII letters. *)
Definition lower_char (c : ascii) : ascii :=
  let n := nat_of_ascii c in
  if (65 <=? n) && (n <=? 90) then ascii_of_nat (n + 32) else c.

(** [str.isspace()] / the regex class [\s] on ASCII: tab, LF, VT, FF,
    CR, the separators 0x1c-0x1f and space. *)
Definition is_space (c : ascii) : bool :=
  let n := nat_of_ascii c in
  ((9 <=? n) && (n <=? 13)) || ((28 <=? n) && (n <=? 32)).

Definition nl : ascii := ascii_of_nat 10.

End Py.

(* ===================================================================== *)
(** ** Streamlit's [@st.cache_data] *)
(* ===================================================================== *)

Module StCache.

(** [@st.cache_data]: a table, kept for the life of the server process,
    from the hashed arguments of a call to the value it returned. The
    first call with a key runs the body and stores its value; every later
    call with that key returns the stored value (a copy) without running
    the body. The decorators of this program set neither [ttl] nor
    [max_entries], so no entry is dropped. *)
Section Cache.
Context {K V : Type}.
Variable K_dec : forall x y : K, {x = y} + {x <> y}.

Fixpoint cache_lookup (c : list (K * V)) (k : K) : option V :=
  match c with
  | [] => None
  | (k', v) :: r => if K_dec k k' then Some v else cache_lookup r k
  end.

(** A call with key [k] whose body would return [v]. *)
Definition cached (c : list (K * V)) (k : K) (v : V) : list (K * V) * V :=
  match cache_lookup c k with
  | Some v' => (c, v')
  | None => ((k, v) :: c, v)
  end.

End Cache.

End StCache.

(* ===================================================================== *)
(** ** src/utils/preprocessing.py *)
(* ===================================================================== *)

Module Preprocessing.
Import Py.
Local Open Scope string_scope.
Local Open Scope list_scope.
Local Open Scope nat_scope.

(** The [.*] of a pattern: everything up to the next newline. *)
Fixpoint drop_line (s : list ascii) : list ascii :=
  match s with
  | [] => []
  | c :: r => if ascii_eqb c nl then s else drop_line r
  end.

Fixpoint take_line (s : list ascii) : list ascii :=
  match s with
  | [] => []
  | c :: r => if ascii_eqb c nl then [] else c :: take_line r
  end.

Fixpoint span_spaces (s : list ascii) : list ascii :=
  match s with
  | [] => []
  | c :: r => if is_space c then span_spaces r else s
  end.

(** [re.sub(prefix + '.*', '', code)]: from each occurrence of the
    (non-empty) [prefix] to the end of its line. The fuel [length s]
    bounds the steps, each of which consumes a character. *)
Fixpoint sub_to_eol (prefix : list ascii) (fuel : nat) (s : list ascii) : list ascii :=
  match fuel with
  | 0 => s
  | S f =>
      match s with
      | [] => []
      | c :: r =>
          if starts_with prefix s
          then sub_to_eol prefix f (drop_line (skipn (length prefix) s))
          else c :: sub_to_eol prefix f r
      end
  end.

(** The text after the first [*/] of [s]. *)
Fixpoint after_close (s : list ascii) : option (list ascii) :=
  match s with
  | [] => None
  | _ :: r => if starts_with (chars "*/") s then Some (skipn 2 s) else after_close r
  end.

(** [re.sub(r'/\*.*?\*/', '', code, flags=re.DOTALL)]. *)
Fixpoint sub_block_comments (fuel : nat) (s : list ascii) : list ascii :=
  match fuel with
  | 0 => s
  | S f =>
      match s with
      | [] => []
      | c :: r =>
          match (if starts_with (chars "/*") s then after_close (skipn 2 s) else None) with
          | Some rest => sub_block_comments f rest
          | None => c :: sub_block_comments f r
          end
      end
  end.

(** [re.sub('^' + pat, '', code, flags=re.MULTILINE)]: [m] tries [pat] at
    a position and returns the text after the match; [^] holds at the
    start and after each newline of the original text. *)
Fixpoint sub_line_start (m : list ascii -> option (list ascii)) (fuel : nat)
    (bol : bool) (s : list ascii) : list ascii :=
  match fuel with
  | 0 => s
  | S f =>
      match s with
      | [] => []
      | c :: r =>
          match (if bol then m s else None) with
          | Some rest => sub_line_start m f false rest
          | None => c :: sub_line_start m f (ascii_eqb c nl) r
          end
      end
  end.

Definition sub_ml (m : list ascii -> option (list ascii)) (s : list ascii) : list ascii :=
  sub_line_start m (length s) true s.

(** [\s*] then the keyword [kw], then [.*]: to the end of the line.
    [\s*] is greedy and the keyword starts with a non-space, so the
    whitespace run is taken whole. *)
Definition m_kw_line (kw : string) (s : list ascii) : option (list ascii) :=
  let rest := span_spaces s in
  if starts_with (chars kw) rest then Some (drop_line rest) else None.

(** [\s*] then [kw], then [.*;]: up to the last [;] of the line. *)
Definition m_kw_semicolon (kw : string) (s : list ascii) : option (list ascii) :=
  let rest := span_spaces s in
  if starts_with (chars kw) rest then
    let after := skipn (String.length kw) rest in
    match rfind ";"%char (take_line after) with
    | Some i => Some (skipn (S i) after)
    | None => None
    end
  else None.

(** [\s*from .* import .*]: [from ], then a line that contains
    [ import ]; the match runs to the end of the line. *)
Definition m_from_import (s : list ascii) : option (list ascii) :=
  let rest := span_spaces s in
  if starts_with (chars "from ") rest
     && contains (chars " import ") (take_line (skipn 5 rest))
  then Some (drop_line rest) else None.

(** [normalize_code]: [lower()], [re.sub(r'\s+', ' ', code)], [strip()]. *)
Fixpoint collapse_spaces (in_ws : bool) (s : list ascii) : list ascii :=
  match s with
  | [] => []
  | c :: r =>
      if is_space c then
        if in_ws then collapse_spaces true r else " "%char :: collapse_spaces true r
      else c :: collapse_spaces false r
  end.

Definition strip (s : list ascii) : list ascii :=
  rev (span_spaces (rev (span_spaces s))).

Definition normalize_code (code : list ascii) : list ascii :=
  strip (collapse_spaces false (map lower_char code)).

Definition remove_python_boilerplate (code : list ascii) : list ascii :=
  let code := sub_to_eol (chars "#") (length code) code in
  let code := sub_ml (m_kw_line "import ") code in
  let code := sub_ml m_from_import code in
  normalize_code code.

Definition remove_cpp_boilerplate (code : list ascii) : list ascii :=
  let code := sub_to_eol (chars "//") (length code) code in
  let code := sub_block_comments (length code) code in
  let code := sub_ml (m_kw_line "#include") code in
  let code := sub_ml (m_kw_semicolon "using namespace") code in
  normalize_code code.

Definition remove_java_boilerplate (code : list ascii) : list ascii :=
  let code := sub_to_eol (chars "//") (length code) code in
  let code := sub_block_comments (length code) code in
  let code := sub_ml (m_kw_semicolon "import ") code in
  let code := sub_ml (m_kw_semicolon "package ") code in
  normalize_code code.

(** The file system: decoded contents by path. *)
Definition fs := list (list ascii * list ascii).

Fixpoint fs_read (m : fs) (p : list ascii) : option (list ascii) :=
  match m with
  | [] => None
  | (q, c) :: r => if list_eq_dec ascii_dec p q then Some c else fs_read r p
  end.

Definition fs_write (m : fs) (p c : list ascii) : fs := (p, c) :: m.

Definition in_list (x : list ascii) (l : list string) : bool :=
  existsb (fun y => if list_eq_dec ascii_dec x (chars y) then true else false) l.

(** [preprocess_file(file_path)]: a failing read is caught and gives
    [(file_path, None)]. *)
Definition preprocess_file (m : fs) (file_path : list ascii)
    : fs * (list ascii * option (list ascii)) :=
  match fs_read m file_path with
  | None => (m, (file_path, None))
  | Some code =>
      let ext := splitext_ext file_path in
      let cleaned :=
        if in_list ext [".py"] then remove_python_boilerplate code
        else if in_list ext [".cpp"; ".h"; ".cc"; ".cxx"] then remove_cpp_boilerplate code
        else if in_list ext [".java"] then remove_java_boilerplate code
        else normalize_code code in
      let out_path := chars "data/preprocessed/" ++ basename file_path in
      (fs_write m out_path cleaned, (file_path, Some out_path))
  end.

(** [preprocess_file(file_path)] with the outcome of the write made
    explicit: [open(out_path, 'w')] raises (a missing or read-only
    [data/preprocessed], say) exactly when [write_ok out_path] is false;
    the [except] clause catches it, nothing is written and the result is
    [(file_path, None)]. [preprocess_file] is the run where every write
    succeeds. *)
Definition preprocess_file_io (write_ok : list ascii -> bool) (m : fs) (file_path : list ascii)
    : fs * (list ascii * option (list ascii)) :=
  match fs_read m file_path with
  | None => (m, (file_path, None))
  | Some code =>
      let ext := splitext_ext file_path in
      let cleaned :=
        if in_list ext [".py"] then remove_python_boilerplate code
        else if in_list ext [".cpp"; ".h"; ".cc"; ".cxx"] then remove_cpp_boilerplate code
        else if in_list ext [".java"] then remove_java_boilerplate code
        else normalize_code code in
      let out_path := chars "data/preprocessed/" ++ basename file_path in
      if write_ok out_path then (fs_write m out_path cleaned, (file_path, Some out_path))
      else (m, (file_path, None))
  end.

(** The file list of [run_parallel_preprocessing]:
    [f.endswith(('.py', '.cpp', '.java', '.h'))] over the listing. *)
Definition driver_selects (f : list ascii) : bool :=
  existsb (fun e => ends_with (chars e) f) [".py"; ".cpp"; ".java"; ".h"].

Definition run_parallel_preprocessing_files (listing : list (list ascii)) : list (list ascii) :=
  map (fun f => chars "data/uploads/" ++ f) (filter driver_selects listing).

(** [run_parallel_preprocessing()]: [pool.map(preprocess_file, files)];
    the workers write disjoint artifacts, so running them in list order
    gives the same file system. *)
Fixpoint preprocess_all (m : fs) (files : list (list ascii))
    : fs * list (list ascii * option (list ascii)) :=
  match files with
  | [] => (m, [])
  | f :: r =>
      let '(m1, res) := preprocess_file m f in
      let '(m2, ress) := preprocess_all m1 r in
      (m2, res :: ress)
  end.

Definition run_parallel_preprocessing (m : fs) (listing : list (list ascii))
    : fs * list (list ascii * option (list ascii)) :=
  preprocess_all m (run_parallel_preprocessing_files listing).

(** [VALID_EXTENSIONS] of [app/helper.py] and the set of [main.py]. *)
Definition VALID_EXTENSIONS : list string := [".py"; ".cpp"; ".h"; ".cc"; ".cxx"; ".java"].

(** [Path(f).suffix.lower() in {...}] of [main.py]. *)
Definition main_selects (f : list ascii) : bool :=
  in_list (map lower_char (path_suffix f)) VALID_EXTENSIONS.

End Preprocessing.

(* ===================================================================== *)
(** ** src/utils/comparison.py *)
(* ===================================================================== *)

Module Comparison.
Import Py Difflib Preprocessing.

(** The tuple returned by [compare_pair]. *)
Record result := mk_result {
  r_file1 : list ascii;
  r_file2 : list ascii;
  r_score : nat;  (** hundredths of a percent *)
  r_code1 : list ascii;
  r_code2 : list ascii;
  r_blocks : list triple
}.

(** [compare_pair(file1_path, file2_path)]; a failing read raises
    ([None]). *)
Definition compare_pair (m : fs) (file1_path file2_path : list ascii) : option result :=
  match fs_read m file1_path, fs_read m file2_path with
  | Some code1, Some code2 =>
      match match_texts ascii_dec true code1 code2 with
      | Some (score, mb) =>
          Some (mk_result (basename file1_path) (basename file2_path) score code1 code2 mb)
      | None => None
      end
  | _, _ => None
  end.

(** [list(itertools.combinations(file_paths, 2))]. *)
Fixpoint generate_file_pairs {A : Type} (l : list A) : list (A * A) :=
  match l with
  | [] => []
  | x :: r => map (fun y => (x, y)) r ++ generate_file_pairs r
  end.

(** [pool.starmap(f, pairs)]: results in the order of [pairs]; an exception
    in any task propagates. *)
Fixpoint starmap {A B : Type} (f : A -> A -> option B) (pairs : list (A * A))
    : option (list B) :=
  match pairs with
  | [] => Some []
  | (x, y) :: r =>
      match f x y, starmap f r with
      | Some v, Some vs => Some (v :: vs)
      | _, _ => None
      end
  end.

Definition run_parallel_comparison (m : fs) (file_paths : list (list ascii))
    : option (list result) :=
  starmap (compare_pair m) (generate_file_pairs file_paths).

End Comparison.

(* ===================================================================== *)
(** ** The results table: [save_results_to_csv] and [pd.read_csv] *)
(* ===================================================================== *)

Module Csv.
Import Py Preprocessing Comparison.
Local Open Scope string_scope.
Local Open Scope list_scope.
Local Open Scope nat_scope.

Definition dq : ascii := ascii_of_nat 34.
Definition comma : ascii := ",".
Definition cr : ascii := ascii_of_nat 13.

(** Decimal digits of a natural number. *)
Fixpoint digits_fuel (fuel n : nat) : list ascii :=
  match fuel with
  | 0 => []
  | S f =>
      (if n <? 10 then [] else digits_fuel f (n / 10))
      ++ [ascii_of_nat (48 + n mod 10)]
  end.
Definition digits (n : nat) : list ascii := digits_fuel (S n) n.

(** [repr] of the float [round(x, 2)] held as [h] hundredths: the
    shortest decimal, with at least one fractional digit. *)
Definition float_repr (h : nat) : list ascii :=
  let frac := h mod 100 in
  digits (h / 100) ++ ["."%char] ++
  (if frac =? 0 then ["0"%char]
   else if frac mod 10 =? 0 then [ascii_of_nat (48 + frac / 10)]
   else [ascii_of_nat (48 + frac / 10); ascii_of_nat (48 + frac mod 10)]).

(** [csv.writer] with [QUOTE_MINIMAL] and the pandas default
    [lineterminator=os.linesep] (["\n"] on POSIX): a field is quoted when
    it contains the delimiter, the quote character or a character of the
    line terminator; quotes inside are doubled. *)
Definition needs_quotes (f : list ascii) : bool :=
  existsb (fun c => ascii_eqb c comma || ascii_eqb c dq || ascii_eqb c nl) f.

Fixpoint double_quotes (f : list ascii) : list ascii :=
  match f with
  | [] => []
  | c :: r => if ascii_eqb c dq then dq :: dq :: double_quotes r else c :: double_quotes r
  end.

Definition csv_field (f : list ascii) : list ascii :=
  if needs_quotes f then dq :: double_quotes f ++ [dq] else f.

Definition csv_line (fields : list (list ascii)) : list ascii :=
  match fields with
  | [] => [nl]
  | f :: r => csv_field f ++ concat (map (fun g => comma :: csv_field g) r) ++ [nl]
  end.

Definition header : list (list ascii) := [chars "File 1"; chars "File 2"; chars "Similarity %"].

(** [save_results_to_csv(results, output_path)]: the DataFrame of the six
    tuple fields, of which the columns [File 1, File 2, Similarity %] are
    written with [index=False]; the text written. *)
Definition save_results_to_csv (results : list result) : list ascii :=
  csv_line header
  ++ concat (map (fun r => csv_line [r_file1 r; r_file2 r; float_repr (r_score r)]) results).

(** The tokenizer of [pd.read_csv] (C engine, defaults: delimiter [,],
    double-quote character, doubled quotes inside quoted fields, any of ["\n"], ["\r"], ["\r\n"] ends a
    record outside quotes, blank lines skipped). *)
Inductive rstate := StartRecord | StartField | InField | InQuoted | QuoteInQuoted | EatCRNL.

(** Field being read (reversed), fields of the record (reversed), records
    read (reversed). *)
Abbreviation racc := (list ascii * list (list ascii) * list (list (list ascii)))%type.

Definition end_field (acc : racc) : racc :=
  let '(fld, rcd, rcds) := acc in ([], rev fld :: rcd, rcds).
Definition end_record (acc : racc) : racc :=
  let '(fld, rcd, rcds) := end_field acc in ([], [], rev rcd :: rcds).
Definition add_char (c : ascii) (acc : racc) : racc :=
  let '(fld, rcd, rcds) := acc in (c :: fld, rcd, rcds).

Definition step_field (c : ascii) (acc : racc) : rstate * racc :=
  if ascii_eqb c dq then (InQuoted, acc)
  else if ascii_eqb c comma then (StartField, end_field acc)
  else if ascii_eqb c nl then (StartRecord, end_record acc)
  else if ascii_eqb c cr then (EatCRNL, end_record acc)
  else (InField, add_char c acc).

Definition step_start_record (c : ascii) (acc : racc) : rstate * racc :=
  if ascii_eqb c nl then (StartRecord, acc)
  else if ascii_eqb c cr then (EatCRNL, acc)
  else step_field c acc.

Definition step (st : rstate * racc) (c : ascii) : rstate * racc :=
  let '(s, acc) := st in
  match s with
  | StartRecord => step_start_record c acc
  | StartField => step_field c acc
  | InField =>
      if ascii_eqb c comma then (StartField, end_field acc)
      else if ascii_eqb c nl then (StartRecord, end_record acc)
      else if ascii_eqb c cr then (EatCRNL, end_record acc)
      else (InField, add_char c acc)
  | InQuoted =>
      if ascii_eqb c dq then (QuoteInQuoted, acc) else (InQuoted, add_char c acc)
  | QuoteInQuoted =>
      if ascii_eqb c dq then (InQuoted, add_char c acc)
      else if ascii_eqb c comma then (StartField, end_field acc)
      else if ascii_eqb c nl then (StartRecord, end_record acc)
      else if ascii_eqb c cr then (EatCRNL, end_record acc)
      else (InField, add_char c acc)
  | EatCRNL => if ascii_eqb c nl then (StartRecord, acc) else step_start_record c acc
  end.

Definition tokenize (s : list ascii) : list (list (list ascii)) :=
  let '(st, acc) := fold_left step s (StartRecord, ([], [], [])) in
  let '(_, _, rcds) :=
    match st with
    | StartRecord | EatCRNL => acc
    | _ => end_record acc
    end in
  rev rcds.

(** The default [na_values] of [pd.read_csv]. *)
Definition na_values : list string :=
  [""; "#N/A"; "#N/A N/A"; "#NA"; "-1.#IND"; "-1.#QNAN"; "-NaN"; "-nan";
   "1.#IND"; "1.#QNAN"; "<NA>"; "N/A"; "NA"; "NULL"; "NaN"; "None";
   "n/a"; "nan"; "null"].

Definition digit_val (c : ascii) : option nat :=
  let n := nat_of_ascii c in
  if (48 <=? n) && (n <=? 57) then Some (n - 48) else None.

Fixpoint parse_digits (acc : nat) (s : list ascii) : option nat :=
  match s with
  | [] => Some acc
  | c :: r => match digit_val c with Some d => parse_digits (10 * acc + d) r | None => None end
  end.

(** A [Similarity %] cell read as a float, in hundredths (at most two
    fractional digits occur in the table). *)
Definition parse_score (s : list ascii) : option nat :=
  match rfind "."%char s with
  | Some i =>
      let ip := firstn i s in
      let fr := skipn (S i) s in
      match ip, parse_digits 0 ip, fr, parse_digits 0 fr with
      | _ :: _, Some n, [_], Some d => Some (100 * n + 10 * d)
      | _ :: _, Some n, [_; _], Some d => Some (100 * n + d)
      | _, _, _, _ => None
      end
  | None => match s, parse_digits 0 s with _ :: _, Some n => Some (100 * n) | _, _ => None end
  end.

(** A file-name cell: [NaN] ([None]) for an NA token, a string otherwise
    (the column keeps the [object] dtype since no name is numeric). *)
Definition name_cell (s : list ascii) : option (list ascii) :=
  if in_list s na_values then None else Some s.

(** One data row of the DataFrame read back, as a triple; [None] when
    the row does not hold a name, a name and a score. *)
Definition row_of (fields : list (list ascii)) : option (list ascii * list ascii * nat) :=
  match fields with
  | [f1; f2; f3] =>
      match name_cell f1, name_cell f2, parse_score f3 with
      | Some n1, Some n2, Some sc => Some (n1, n2, sc)
      | _, _, _ => None
      end
  | _ => None
  end.

(** [pd.read_csv(RESULTS_CSV)]: the header and the rows. *)
Definition read_csv (s : list ascii)
    : list (list ascii) * list (option (list ascii * list ascii * nat)) :=
  match tokenize s with
  | [] => ([], [])
  | h :: rows => (h, map row_of rows)
  end.

End Csv.

(* ===================================================================== *)
(** ** src/main.py: [main()] *)
(* ===================================================================== *)

Module Main.
Import Py Preprocessing.
Local Open Scope string_scope.
Local Open Scope list_scope.
Local Open Scope nat_scope.

(** What the run meets outside the code: the outcome of each system call
    and library call that [main] makes. *)
Record env := mk_env {
  makedirs_ok : bool;                        (** the two [os.makedirs] calls *)
  uploads : option (list (list ascii));      (** [os.listdir(UPLOAD_DIR)]; [None]: absent *)
  is_file : list ascii -> bool;              (** [os.path.isfile] *)
  preprocessing_raises : bool;               (** [run_parallel_preprocessing()] raises *)
  preprocess_ok : list ascii -> bool;        (** [preprocess_file] returns an output path *)
  comparison_raises : bool;                  (** [run_parallel_comparison] raises *)
  save_raises : bool                         (** [save_results_to_csv] raises *)
}.

(** How the process ends: [main()] returns, with the results table written
    or not and the last progress stage, or an exception escapes it. *)
Inductive outcome :=
  | Returned (table_written : bool) (last_stage : string)
  | Raised.

(** [python main.py]: 0 when [main()] returns, 1 on an uncaught exception. *)
Definition exit_status (o : outcome) : nat :=
  match o with Returned _ _ => 0 | Raised => 1 end.

Definition main (e : env) : outcome :=
  if negb (makedirs_ok e) then Returned false "error" else
  match uploads e with
  | None => Raised
  | Some listing =>
      let uploaded_files := filter (fun f => is_file e f && main_selects f) listing in
      match uploaded_files with
      | [] => Returned false "error"
      | _ :: _ =>
          if preprocessing_raises e then Returned false "error" else
          let preprocessed_files :=
            filter (preprocess_ok e) (run_parallel_preprocessing_files listing) in
          match preprocessed_files with
          | [] => Returned false "error"
          | _ :: _ =>
              if comparison_raises e then Returned false "error"
              else if save_raises e then Returned false "error"
              else Returned true "completed"
          end
      end
  end.

End Main.

(* ===================================================================== *)
(** ** [highlight_matching_text] of [app/helper.py] *)
(* ===================================================================== *)

Module Highlight.
Import Py StCache Difflib Preprocessing Comparison Csv.
Local Open Scope string_scope.
Local Open Scope list_scope.
Local Open Scope nat_scope.

(** [s[i:j]] for non-negative [i] and [j]. *)
Definition slice (s : list ascii) (i j : nat) : list ascii := firstn (j - i) (skipn i s).

Definition span_open : list ascii :=
  chars "<span style=" ++ [dq] ++ chars "background-color: #FFFF99;" ++ [dq] ++ chars ">".
Definition span_close : list ascii := chars "</span>".

(** [Path(PREPROCESSED_DIR) / name] for a plain file name (non-empty,
    without ['/'], neither [.] nor [..]), which is what the results
    table holds. *)
Definition preprocessed_path (name : list ascii) : list ascii :=
  chars "data/preprocessed/" ++ name.

(** The [for match in matching_blocks] loop of [highlight_matching_text]:
    the lists [highlighted1], [highlighted2] and the positions [pos1],
    [pos2]. *)
Fixpoint highlight_loop (content1 content2 : list ascii) (blocks : list triple)
    (pos1 pos2 : nat) (highlighted1 highlighted2 : list (list ascii))
    : list (list ascii) * list (list ascii) * nat * nat :=
  match blocks with
  | [] => (highlighted1, highlighted2, pos1, pos2)
  | (a, b, size) :: rest =>
      let highlighted1 :=
        if pos1 <? a then highlighted1 ++ [slice content1 pos1 a] else highlighted1 in
      let highlighted2 :=
        if pos2 <? b then highlighted2 ++ [slice content2 pos2 b] else highlighted2 in
      let '(highlighted1, highlighted2) :=
        if 0 <? size then
          (highlighted1 ++ [span_open ++ slice content1 a (a + size) ++ span_close],
           highlighted2 ++ [span_open ++ slice content2 b (b + size) ++ span_close])
        else (highlighted1, highlighted2) in
      highlight_loop content1 content2 rest (a + size) (b + size) highlighted1 highlighted2
  end.

(** [highlight_matching_text(file1_name, file2_name)]; [err] is the text
    of the exception [compare_pair] raises when a read fails. *)
Definition highlight_matching_text (m : fs) (file1_name file2_name err : list ascii)
    : list ascii * list ascii :=
  match compare_pair m (preprocessed_path file1_name) (preprocessed_path file2_name) with
  | None =>
      (chars "Error comparing files: " ++ err, chars "Error comparing files: " ++ err)
  | Some r =>
      let content1 := r_code1 r in
      let content2 := r_code2 r in
      let '(highlighted1, highlighted2, pos1, pos2) :=
        highlight_loop content1 content2 (r_blocks r) 0 0 [] [] in
      let highlighted1 :=
        if pos1 <? length content1 then highlighted1 ++ [skipn pos1 content1] else highlighted1 in
      let highlighted2 :=
        if pos2 <? length content2 then highlighted2 ++ [skipn pos2 content2] else highlighted2 in
      (concat highlighted1, concat highlighted2)
  end.

Definition names_dec (x y : list ascii * list ascii) : {x = y} + {x <> y}.
Proof. decide equality; apply list_eq_dec, ascii_dec. Defined.

(** [highlight_matching_text] as decorated with [@st.cache_data]: the key
    is [(file1_name, file2_name)], so a later call with the same names
    returns the first call's value, whatever the files hold by then. *)
Definition highlight_matching_text_cached
    (c : list ((list ascii * list ascii) * (list ascii * list ascii)))
    (m : fs) (file1_name file2_name err : list ascii)
    : list ((list ascii * list ascii) * (list ascii * list ascii)) * (list ascii * list ascii) :=
  cached names_dec c (file1_name, file2_name) (highlight_matching_text m file1_name file2_name err).

End Highlight.

(* ===================================================================== *)
(** ** The report views of [app/helper.py] and [app/app.py] *)
(* ===================================================================== *)

Module Report.
Import Py StCache Preprocessing Comparison Csv.
Local Open Scope string_scope.
Local Open Scope list_scope.
Local Open Scope nat_scope.

(** A row of the DataFrame read from the results table: [File 1],
    [File 2] and [Similarity %] (in hundredths), as [row_of] gives it. *)
Definition row := (list ascii * list ascii * nat)%type.

Definition row_file1 (r : row) : list ascii := let '(f, _, _) := r in f.
Definition row_file2 (r : row) : list ascii := let '(_, f, _) := r in f.
Definition row_score (r : row) : nat := let '(_, _, s) := r in s.

Definition str_eqb (s t : list ascii) : bool := if list_eq_dec ascii_dec s t then true else false.

(** [set(df["File 1"]).union(df["File 2"])]. *)
Definition file_set (df : list row) : list (list ascii) :=
  nodup (list_eq_dec ascii_dec) (map row_file1 df ++ map row_file2 df).

(** [Series.max()]: [None] (NaN) on an empty column. *)
Definition series_max (l : list nat) : option nat :=
  match l with
  | [] => None
  | x :: r => Some (fold_left Nat.max r x)
  end.

Record summary := mk_summary {
  total_files : nat;
  total_pairs : nat;
  max_similarity : option nat;
  high_similarity_pairs : nat
}.

(** The four metrics of [display_summary(df)]. *)
Definition display_summary (df : list row) : summary :=
  mk_summary
    (length (file_set df))
    (length df)
    (series_max (map row_score df))
    (length (filter (fun r => 8000 <=? row_score r) df)).

(** Python's [<] on strings: code points, lexicographically. *)
Fixpoint str_ltb (s t : list ascii) : bool :=
  match s, t with
  | _, [] => false
  | [], _ :: _ => true
  | c :: s', d :: t' =>
      (nat_of_ascii c <? nat_of_ascii d)
      || ((nat_of_ascii c =? nat_of_ascii d) && str_ltb s' t')
  end.

Fixpoint insert_str (x : list ascii) (l : list (list ascii)) : list (list ascii) :=
  match l with
  | [] => [x]
  | y :: r => if str_ltb y x then y :: insert_str x r else x :: l
  end.

(** [sorted(...)] (stable). *)
Definition sorted_strs (l : list (list ascii)) : list (list ascii) :=
  fold_right insert_str [] l.

(** [file_list] of [display_file_similarities]. *)
Definition file_list (df : list row) : list (list ascii) := sorted_strs (file_set df).

(** [df[(df["File 1"] == selected_file) | (df["File 2"] == selected_file)]]. *)
Definition file_subset (df : list row) (selected_file : list ascii) : list row :=
  filter (fun r => str_eqb (row_file1 r) selected_file || str_eqb (row_file2 r) selected_file) df.

(** [pd.cut(x, bins, include_lowest=True)] (right-closed intervals) on
    one value: the interval index, or [None] (NaN) outside the bins. *)
Definition cut_index (bins : list nat) (x : nat) : option nat :=
  let ids := length (filter (fun e => e <? x) bins) in
  let ids := if x =? hd 0 bins then 1 else ids in
  if (ids =? 0) || (ids =? length bins) then None else Some (ids - 1).

(** [range_categories.value_counts().sort_index()]: the count of every
    category, in the order of the labels. *)
Definition range_counts (bins : list nat) (labels : list (list ascii)) (df : list row) : list nat :=
  let cats := map (fun r => cut_index bins (row_score r)) df in
  map (fun i => length (filter (fun c => match c with Some j => j =? i | None => false end) cats))
      (seq 0 (length labels)).

(** [prepare_pie_chart_data(_df, bins, labels)]. *)
Definition prepare_pie_chart_data (df : list row) (bins : list nat) (labels : list (list ascii))
    : list nat * list (list ascii) :=
  let counts := range_counts bins labels df in
  (counts, map (fun '(label, count) => label ++ chars " (" ++ digits count ++ chars ")")
                (combine labels counts)).

Definition pie_key_dec (x y : list nat * list (list ascii)) : {x = y} + {x <> y}.
Proof.
  decide equality; first [apply (list_eq_dec Nat.eq_dec) | apply (list_eq_dec (list_eq_dec ascii_dec))].
Defined.

(** [prepare_pie_chart_data] as decorated with [@st.cache_data]: Streamlit
    does not hash an argument whose name starts with an underscore, so the
    key is [(bins, labels)] and [_df] is left out of it. *)
Definition prepare_pie_chart_data_cached
    (c : list ((list nat * list (list ascii)) * (list nat * list (list ascii))))
    (df : list row) (bins : list nat) (labels : list (list ascii))
    : list ((list nat * list (list ascii)) * (list nat * list (list ascii))) * (list nat * list (list ascii)) :=
  cached pie_key_dec c (bins, labels) (prepare_pie_chart_data df bins labels).

(** [bins = [0, 20, 40, 60, 80, 100]] in hundredths, and the labels. *)
Definition pie_bins : list nat := [0; 2000; 4000; 6000; 8000; 10000].
Definition pie_labels : list (list ascii) :=
  map chars ["0-20%"; "21-40%"; "41-60%"; "61-80%"; "81-100%"].

End Report.

(* ===================================================================== *)
(** ** [process_uploaded_files] of [app/helper.py] *)
(* ===================================================================== *)

Module Upload.
Import Py Preprocessing Comparison Csv.
Local Open Scope string_scope.
Local Open Scope list_scope.
Local Open Scope nat_scope.

(** [s.split(sep)]. *)
Fixpoint split_on (sep : ascii) (s : list ascii) : list (list ascii) :=
  match s with
  | [] => [[]]
  | c :: r =>
      if ascii_eqb c sep then [] :: split_on sep r
      else match split_on sep r with
           | [] => [[c]]
           | w :: ws => (c :: w) :: ws
           end
  end.

(** [PurePosixPath(s).name]: the last of the parts, which are the
    ['/']-separated pieces other than [''] and ['.']. *)
Definition path_name (s : list ascii) : list ascii :=
  last (filter (fun p => negb (if list_eq_dec ascii_dec p [] then true else false)
                         && negb (if list_eq_dec ascii_dec p ["."%char] then true else false))
               (split_on "/"%char s)) [].

(** [s.replace("..", "")]: occurrences taken from the left, without
    overlap. *)
Fixpoint remove_dotdot (s : list ascii) : list ascii :=
  match s with
  | c :: ((d :: r) as t) =>
      if ascii_eqb c "."%char && ascii_eqb d "."%char then remove_dotdot r
      else c :: remove_dotdot t
  | _ => s
  end.

Definition backslash : ascii := ascii_of_nat 92.

(** [s.replace(ch, "")] for a one-character [ch]. *)
Definition remove_char (ch : ascii) (s : list ascii) : list ascii :=
  filter (fun c => negb (ascii_eqb c ch)) s.

(** [safe_name] of [process_uploaded_files]:
    [Path(file.name).name.replace("..", "").replace("/", "").replace("\\", "")]. *)
Definition safe_name (name : list ascii) : list ascii :=
  remove_char backslash (remove_char "/"%char (remove_dotdot (path_name name))).

(** An uploaded file: [file.name], [file.size] and [file.read()]. *)
Record upload := mk_upload { up_name : list ascii; up_size : N; up_data : list ascii }.

Definition MAX_FILE_SIZE_MB : N := 10.

(** The validation loop: [Path(file.name).suffix.lower() not in
    VALID_EXTENSIONS] or [file.size > MAX_FILE_SIZE_MB * 1024 * 1024]
    returns [False]. *)
Fixpoint validate (files : list upload) : bool :=
  match files with
  | [] => true
  | file :: rest =>
      if negb (in_list (map lower_char (path_suffix (path_name (up_name file)))) VALID_EXTENSIONS)
      then false
      else if (MAX_FILE_SIZE_MB * 1024 * 1024 <? up_size file)%N then false
      else validate rest
  end.

(** [update_progress(completed, total, stage)]: the JSON text written to
    [PROGRESS_FILE] ([json.dump] with its default separators). *)
Definition progress_json (completed total : nat) (stage : string) : list ascii :=
  chars "{" ++ [dq] ++ chars "stage" ++ [dq] ++ chars ": " ++ [dq] ++ chars stage ++ [dq]
  ++ chars ", " ++ [dq] ++ chars "completed_pairs" ++ [dq] ++ chars ": " ++ digits completed
  ++ chars ", " ++ [dq] ++ chars "total_pairs" ++ [dq] ++ chars ": " ++ digits total
  ++ chars "}".

Definition PROGRESS_FILE : list ascii := chars "data/progress.json".
Definition RESULTS_CSV : list ascii := chars "data/results/similarity_results.csv".

Definition update_progress (m : fs) (completed total : nat) (stage : string) : fs :=
  fs_write m PROGRESS_FILE (progress_json completed total stage).

(** What the code does not decide: the listing [os.listdir(UPLOAD_DIR)]
    of a state, and whether writing the results table succeeds. *)
Record upload_env := mk_upload_env {
  e_listdir : fs -> list (list ascii);
  e_save_ok : bool
}.

Definition write_uploads (m : fs) (files : list upload) : fs :=
  fold_left (fun m file =>
               fs_write m (chars "data/uploads/" ++ safe_name (up_name file)) (up_data file))
            files m.

(** [preprocessed_files = [out_path for _, out_path in ... if out_path]]. *)
Definition out_paths (res : list (list ascii * option (list ascii))) : list (list ascii) :=
  flat_map (fun '(_, o) => match o with Some p => [p] | None => [] end) res.

(** [process_uploaded_files(uploaded_files)]: the file system after the
    call and the value returned. *)
Definition process_uploaded_files (e : upload_env) (m : fs) (uploaded_files : list upload) : fs * bool :=
  match uploaded_files with
  | [] => (m, false)
  | _ =>
      if negb (validate uploaded_files) then (m, false) else
      let total_files := length uploaded_files in
      let m := write_uploads m uploaded_files in
      let m := update_progress m 0 total_files "preprocessing" in
      let '(m, res) := run_parallel_preprocessing m (e_listdir e m) in
      let preprocessed_files := out_paths res in
      let m := if length preprocessed_files <? length uploaded_files
               then update_progress m (length preprocessed_files) (length uploaded_files) "preprocessing"
               else m in
      match preprocessed_files with
      | [] => (update_progress m 0 0 "error", false)
      | _ =>
          let n := length preprocessed_files in
          let total_pairs := (n * (n - 1)) / 2 in
          let m := update_progress m 0 total_pairs "comparison" in
          match run_parallel_comparison m preprocessed_files with
          | None => (update_progress m 0 0 "error", false)
          | Some results =>
              let m := if length results <? total_pairs
                       then update_progress m (length results) total_pairs "comparison" else m in
              let m := update_progress m 0 1 "saving_csv" in
              if e_save_ok e then
                let m := fs_write m RESULTS_CSV (save_results_to_csv results) in
                (update_progress m 1 1 "saving_csv", true)
              else (update_progress m 0 0 "error", false)
          end
      end
  end.

End Upload.

(* ===================================================================== *)
(** ** Predicates used by the statements *)
(* ===================================================================== *)

Module Props.
Import Difflib.

Section Over.
Context {E : Type}.
Variables a b : list E.

(** [a[i:i+k] == b[j:j+k]], both slices in range. *)
Definition matches (i j k : nat) : Prop :=
  forall t, t < k -> exists c, nth_error a (i + t) = Some c /\ nth_error b (j + t) = Some c.

Definition block_ok (t : triple) : Prop := matches (t_a t) (t_b t) (t_size t).

End Over.

(** [x] ends, in both texts, before [y] starts. *)
Definition before (x y : triple) : Prop :=
  t_a x + t_size x <= t_a y /\ t_b x + t_size x <= t_b y.

Definition reg_of (t : triple) : region := (t_a t, t_a t + t_size t, t_b t, t_b t + t_size t).

Definition r_alo (r : region) : nat := let '(x, _, _, _) := r in x.
Definition r_ahi (r : region) : nat := let '(_, x, _, _) := r in x.
Definition r_blo (r : region) : nat := let '(_, _, x, _) := r in x.
Definition r_bhi (r : region) : nat := let '(_, _, _, x) := r in x.

Definition rbefore (x y : region) : Prop := r_ahi x <= r_alo y /\ r_bhi x <= r_blo y.
Definition comparable (x y : region) : Prop := rbefore x y \/ rbefore y x.
Definition subregion (s r : region) : Prop :=
  r_alo r <= r_alo s /\ r_ahi s <= r_ahi r /\ r_blo r <= r_blo s /\ r_bhi s <= r_bhi r.

(** The measure that bounds the iterations of the queue loop. *)
Definition measure (q : list region) : nat :=
  fold_right (fun r s => 2 * (r_ahi r - r_alo r) + 1 + s) 0 q.

End Props.

(* ===================================================================== *)
(** ** Soundness of [find_longest_match] *)
(* ===================================================================== *)

Module FlmFacts.
Import Difflib Props.

Section Sound.
Context {E : Type}.
Variable E_dec : forall x y : E, {x = y} + {x <> y}.
Variable autojunk : bool.
Variables a b : list E.

Lemma elt_eqb_true x y : elt_eqb E_dec x y = true -> x = y.
Proof. unfold elt_eqb. destruct (E_dec x y); congruence. Qed.

Lemma elt_eqb_refl x : elt_eqb E_dec x x = true.
Proof. unfold elt_eqb. destruct (E_dec x x); congruence. Qed.

Lemma at_eqb_spec i j :
  at_eqb E_dec a b i j = true ->
  exists c, nth_error a i = Some c /\ nth_error b j = Some c.
Proof.
  unfold at_eqb. destruct (nth_error a i) eqn:Ha, (nth_error b j) eqn:Hb; try discriminate.
  intros H. apply elt_eqb_true in H. subst. eauto.
Qed.

Lemma indices_from_spec c s n j :
  In j (indices_from E_dec c s n) -> n <= j /\ nth_error s (j - n) = Some c.
Proof.
  revert n. induction s as [|x r IH]; simpl; intros n H; [contradiction|].
  destruct (elt_eqb E_dec x c) eqn:Hx.
  - destruct H as [<-|H].
    + apply elt_eqb_true in Hx. subst. rewrite Nat.sub_diag. auto.
    + destruct (IH _ H) as [H1 H2]. split; [lia|].
      replace (j - n) with (S (j - S n)) by lia. exact H2.
  - destruct (IH _ H) as [H1 H2]. split; [lia|].
    replace (j - n) with (S (j - S n)) by lia. exact H2.
Qed.

Lemma b2j_get_spec c j :
  In j (b2j_get E_dec autojunk b c) -> nth_error b j = Some c.
Proof.
  unfold b2j_get. destruct (popular E_dec autojunk b c); [contradiction|].
  intros H. destruct (indices_from_spec _ _ _ _ H) as [_ H2].
  rewrite Nat.sub_0_r in H2. exact H2.
Qed.

Lemma j2len_get_cases l j : j2len_get l j = 0 \/ In (j, j2len_get l j) l.
Proof.
  induction l as [|[j' k] r IH]; simpl; [auto|].
  destruct (Nat.eqb_spec j' j); subst; auto.
  destruct IH as [H|H]; [left|right; right]; auto.
Qed.

(** An entry [(j, k)] of [j2len] when row [i] starts: a match of length
    [k] ending at [a[i-1]], [b[j]]. *)
Definition entry_ok (alo blo bhi i : nat) (e : nat * nat) : Prop :=
  let '(j, k) := e in
  1 <= k /\ alo + k <= i /\ blo + k <= S j /\ j < bhi /\ matches a b (i - k) (S j - k) k.

Definition best_ok (alo ahi blo bhi : nat) (t : triple) : Prop :=
  alo <= t_a t /\ blo <= t_b t /\ t_a t + t_size t <= ahi /\ t_b t + t_size t <= bhi
  /\ matches a b (t_a t) (t_b t) (t_size t).

Lemma matches_extend_right i j k c :
  matches a b i j k -> nth_error a (i + k) = Some c -> nth_error b (j + k) = Some c ->
  matches a b i j (S k).
Proof.
  intros H Ha Hb t Ht. destruct (Nat.eq_dec t k) as [->|Hne]; [eauto|].
  apply H. lia.
Qed.

Lemma matches_extend_left i j k c :
  matches a b (S i) (S j) k -> nth_error a i = Some c -> nth_error b j = Some c ->
  matches a b i j (S k).
Proof.
  intros H Ha Hb t Ht. destruct t as [|t].
  - rewrite !Nat.add_0_r. eauto.
  - replace (i + S t) with (S i + t) by lia. replace (j + S t) with (S j + t) by lia.
    apply H. lia.
Qed.

Lemma scan_row_ok alo ahi blo bhi i c js j2len newj2len best :
  alo <= i -> i < ahi -> nth_error a i = Some c ->
  (forall j, In j js -> nth_error b j = Some c) ->
  Forall (entry_ok alo blo bhi i) j2len ->
  Forall (entry_ok alo blo bhi (S i)) newj2len ->
  best_ok alo ahi blo bhi best ->
  Forall (entry_ok alo blo bhi (S i)) (fst (scan_row i js blo bhi j2len newj2len best))
  /\ best_ok alo ahi blo bhi (snd (scan_row i js blo bhi j2len newj2len best)).
Proof.
  intros Hlo Hhi Hai. revert newj2len best.
  induction js as [|j js IH]; intros newj2len best Hjs Hold Hnew Hbest; simpl; [auto|].
  assert (Hbj : nth_error b j = Some c) by (apply Hjs; left; auto).
  assert (Hjs' : forall j', In j' js -> nth_error b j' = Some c) by (intros; apply Hjs; right; auto).
  destruct (Nat.ltb_spec j blo); [apply IH; auto|].
  destruct (Nat.leb_spec bhi j); [auto|].
  (* the new entry *)
  assert (Hent : entry_ok alo blo bhi (S i) (j, S (prev_len j2len j))).
  { unfold prev_len. destruct j as [|j'].
    - simpl. repeat split; try lia.
      replace (i - 0) with i by lia. intros t Ht. assert (t = 0) by lia. subst.
      rewrite !Nat.add_0_r. eauto.
    - destruct (j2len_get_cases j2len j') as [Hz|Hin].
      + rewrite Hz. repeat split; try lia.
        replace (S i - 1) with i by lia. replace (S (S j') - 1) with (S j') by lia.
        intros t Ht. assert (t = 0) by lia. subst. rewrite !Nat.add_0_r. eauto.
      + rewrite Forall_forall in Hold. specialize (Hold _ Hin). unfold entry_ok in Hold.
        destruct Hold as (H1 & H2 & H3 & H4 & H5).
        set (k' := j2len_get j2len j') in *.
        repeat split; try lia.
        replace (S i - S k') with (i - k') by lia.
        replace (S (S j') - S k') with (S j' - k') by lia.
        apply (matches_extend_right _ _ _ c H5).
        * replace (i - k' + k') with i by lia. exact Hai.
        * replace (S j' - k' + k') with (S j') by lia. exact Hbj. }
  apply IH; auto.
  destruct best as [[bi bj] bs]. simpl.
  destruct (Nat.ltb_spec bs (S (prev_len j2len j))); auto.
  unfold entry_ok in Hent. destruct Hent as (E1 & E2 & E3 & E4 & E5).
  unfold best_ok; simpl. repeat split; try lia. exact E5.
Qed.

Lemma scan_rows_ok alo ahi blo bhi n i j2len best :
  alo <= i -> i + n <= ahi ->
  Forall (entry_ok alo blo bhi i) j2len ->
  best_ok alo ahi blo bhi best ->
  best_ok alo ahi blo bhi (scan_rows E_dec autojunk a b (seq i n) blo bhi j2len best).
Proof.
  revert i j2len best. induction n as [|n IH]; intros i j2len best Hlo Hhi Hj Hb; simpl; auto.
  destruct (nth_error a i) as [c|] eqn:Hai.
  - pose proof (scan_row_ok alo ahi blo bhi i c (b2j_get E_dec autojunk b c) j2len [] best
                  Hlo ltac:(lia) Hai (b2j_get_spec c) Hj (Forall_nil _) Hb) as [H1 H2].
    destruct (scan_row i (b2j_get E_dec autojunk b c) blo bhi j2len [] best) as [nj bt].
    apply IH; auto; lia.
  - simpl. apply IH; auto; lia.
Qed.

Lemma ext_left_ok alo ahi blo bhi fuel bi bj bs :
  best_ok alo ahi blo bhi (bi, bj, bs) ->
  best_ok alo ahi blo bhi (ext_left E_dec a b fuel alo blo bi bj bs).
Proof.
  revert bi bj bs. induction fuel as [|f IH]; intros bi bj bs H; simpl; auto.
  destruct (Nat.ltb_spec alo bi); simpl; auto.
  destruct (Nat.ltb_spec blo bj); simpl; auto.
  destruct (at_eqb E_dec a b (bi - 1) (bj - 1)) eqn:He; auto.
  apply IH. destruct (at_eqb_spec _ _ He) as (c & Ha & Hb).
  destruct H as (B1 & B2 & B3 & B4 & B5). simpl in *.
  unfold best_ok; cbn [t_a t_b t_size]. repeat split; try lia.
  apply (matches_extend_left _ _ _ c); auto.
  replace (S (bi - 1)) with bi by lia. replace (S (bj - 1)) with bj by lia. exact B5.
Qed.

Lemma ext_right_ok alo ahi blo bhi fuel bi bj bs :
  best_ok alo ahi blo bhi (bi, bj, bs) ->
  best_ok alo ahi blo bhi (ext_right E_dec a b fuel ahi bhi bi bj bs).
Proof.
  revert bs. induction fuel as [|f IH]; intros bs H; simpl; auto.
  destruct (Nat.ltb_spec (bi + bs) ahi); simpl; auto.
  destruct (Nat.ltb_spec (bj + bs) bhi); simpl; auto.
  destruct (at_eqb E_dec a b (bi + bs) (bj + bs)) eqn:He; auto.
  apply IH. destruct (at_eqb_spec _ _ He) as (c & Ha & Hb).
  destruct H as (B1 & B2 & B3 & B4 & B5). simpl in *.
  unfold best_ok; cbn [t_a t_b t_size]. repeat split; try lia.
  apply (matches_extend_right _ _ _ c); auto.
Qed.

Lemma find_longest_match_ok alo ahi blo bhi :
  alo <= ahi -> blo <= bhi ->
  best_ok alo ahi blo bhi (find_longest_match E_dec autojunk a b alo ahi blo bhi).
Proof.
  intros H1 H2. unfold find_longest_match.
  pose proof (scan_rows_ok alo ahi blo bhi (ahi - alo) alo [] (alo, blo, 0)
                (le_n _) ltac:(lia) (Forall_nil _)) as Hs.
  destruct (scan_rows E_dec autojunk a b (seq alo (ahi - alo)) blo bhi [] (alo, blo, 0))
    as [[bi bj] bs].
  assert (Hb : best_ok alo ahi blo bhi (bi, bj, bs)).
  { apply Hs. unfold best_ok; simpl. repeat split; try lia. intros t Ht; lia. }
  pose proof (ext_left_ok alo ahi blo bhi bi bi bj bs Hb) as Hl.
  destruct (ext_left E_dec a b bi alo blo bi bj bs) as [[bi' bj'] bs'].
  apply ext_right_ok. exact Hl.
Qed.

End Sound.
End FlmFacts.

(* ===================================================================== *)
(** ** [get_matching_blocks]: termination and the shape of its result *)
(* ===================================================================== *)

Module BlockFacts.
Import Difflib Props FlmFacts.

Section Pairs.
Context {A : Type}.
Variable R : A -> A -> Prop.

Lemma FOP_app (l1 l2 : list A) :
  ForallOrdPairs R l1 -> ForallOrdPairs R l2 ->
  (forall x y, In x l1 -> In y l2 -> R x y) -> ForallOrdPairs R (l1 ++ l2).
Proof.
  induction l1 as [|x r IH]; simpl; intros H1 H2 H3; auto.
  inversion H1; subst. constructor.
  - apply Forall_app. split; auto. apply Forall_forall. intros y Hy. apply H3; auto.
  - apply IH; auto.
Qed.

Lemma FOP_app_inv (l1 l2 : list A) :
  ForallOrdPairs R (l1 ++ l2) ->
  ForallOrdPairs R l1 /\ ForallOrdPairs R l2 /\ (forall x y, In x l1 -> In y l2 -> R x y).
Proof.
  induction l1 as [|x r IH]; simpl; intros H.
  - repeat split; auto. constructor. intros x y [].
  - inversion H; subst. apply Forall_app in H2 as [Ha Hb].
    destruct (IH H3) as (I1 & I2 & I3). repeat split; auto.
    + constructor; auto.
    + intros x' y [<-|Hx] Hy; auto. rewrite Forall_forall in Hb. auto.
Qed.

Lemma SS_app (l1 l2 : list A) :
  StronglySorted R l1 -> StronglySorted R l2 ->
  (forall x y, In x l1 -> In y l2 -> R x y) -> StronglySorted R (l1 ++ l2).
Proof.
  induction l1 as [|x r IH]; simpl; intros H1 H2 H3; auto.
  inversion H1; subst. constructor.
  - apply IH; auto.
  - apply Forall_app. split; auto. apply Forall_forall. intros y Hy. apply H3; auto.
Qed.

End Pairs.

Lemma comparable_sub x r s : comparable x r -> subregion s r -> comparable x s.
Proof.
  unfold comparable, rbefore, subregion. intros [[H1 H2]|[H1 H2]] (S1 & S2 & S3 & S4); lia.
Qed.

Lemma FOP_replace (X Y S : list region) (R0 : region) :
  ForallOrdPairs comparable (X ++ R0 :: Y) -> ForallOrdPairs comparable S ->
  (forall s, In s S -> subregion s R0) ->
  ForallOrdPairs comparable (X ++ S ++ Y).
Proof.
  intros H HS Hsub.
  destruct (FOP_app_inv _ _ _ H) as (HX & HRY & HXRY).
  inversion HRY; subst.
  apply FOP_app; auto.
  - apply FOP_app; auto.
    intros s y Hs Hy. rewrite Forall_forall in H2.
    assert (comparable y s) by (apply (comparable_sub y R0); [|auto];
      destruct (H2 y Hy); [right|left]; auto).
    destruct H0; [right|left]; auto.
  - intros x y Hx Hy. apply in_app_or in Hy as [Hy|Hy].
    + apply (comparable_sub x R0); auto. apply HXRY; [auto|left; auto].
    + apply HXRY; [auto|right; auto].
Qed.

Lemma FOP_drop (X Y : list region) (R0 : region) :
  ForallOrdPairs comparable (X ++ R0 :: Y) -> ForallOrdPairs comparable (X ++ Y).
Proof.
  intros H. pose proof (FOP_replace X Y [] R0 H (FOP_nil _)) as H'.
  apply H'. intros s [].
Qed.

Section Loop.
Context {E : Type}.
Variable E_dec : forall x y : E, {x = y} + {x <> y}.
Variable autojunk : bool.
Variables a b : list E.

Definition region_ok (r : region) : Prop := r_alo r <= r_ahi r /\ r_blo r <= r_bhi r.
Definition found_ok (t : triple) : Prop := 1 <= t_size t /\ block_ok a b t.

Lemma gmb_loop_ok fuel q acc :
  measure q <= fuel ->
  Forall region_ok q -> Forall found_ok acc ->
  ForallOrdPairs comparable (map reg_of acc ++ q) ->
  exists mb, gmb_loop E_dec autojunk a b fuel q acc = Some mb
    /\ Forall found_ok mb /\ ForallOrdPairs comparable (map reg_of mb).
Proof.
  revert q acc. induction fuel as [|f IH]; intros q acc Hm Hq Hacc Hp.
  - destruct q as [|r q]; simpl in *; [|lia].
    exists acc. rewrite app_nil_r in Hp. auto.
  - destruct q as [|[[[alo ahi] blo] bhi] q].
    + exists acc. rewrite app_nil_r in Hp. simpl. auto.
    + inversion Hq as [|? ? Hr Hq']; subst. destruct Hr as [Hr1 Hr2]. simpl in Hr1, Hr2.
      simpl in Hm.
      pose proof (find_longest_match_ok E_dec autojunk a b alo ahi blo bhi Hr1 Hr2) as Hb.
      simpl.
      destruct (find_longest_match E_dec autojunk a b alo ahi blo bhi) as [[i j] k].
      destruct Hb as (B1 & B2 & B3 & B4 & B5). simpl in B1, B2, B3, B4, B5.
      destruct (Nat.eqb_spec k 0) as [Hk|Hk].
      * apply IH; auto; [lia|]. eapply FOP_drop. exact Hp.
      * set (Rl := (alo, i, blo, j)). set (Rr := (i + k, ahi, j + k, bhi)).
        set (ql := if (alo <? i) && (blo <? j) then [Rl] else []).
        set (qr := if (i + k <? ahi) && (j + k <? bhi) then [Rr] else []).
        assert (Hq2 : (if (i + k <? ahi) && (j + k <? bhi) then Rr :: (if (alo <? i) && (blo <? j) then Rl :: q else q)
                       else (if (alo <? i) && (blo <? j) then Rl :: q else q)) = qr ++ ql ++ q).
        { unfold qr, ql. destruct ((alo <? i) && (blo <? j)), ((i + k <? ahi) && (j + k <? bhi)); reflexivity. }
        rewrite Hq2.
        apply IH.
        -- unfold qr, ql. destruct ((alo <? i) && (blo <? j)), ((i + k <? ahi) && (j + k <? bhi));
           simpl; unfold Rl, Rr, r_ahi, r_alo; lia.
        -- apply Forall_app. split; [|apply Forall_app; split; auto];
           [unfold qr; destruct ((i + k <? ahi) && (j + k <? bhi))
           |unfold ql; destruct ((alo <? i) && (blo <? j))]; repeat constructor; simpl; lia.
        -- apply Forall_app. split; auto. repeat constructor; simpl; [lia|exact B5].
        -- rewrite map_app. rewrite <- app_assoc.
           replace (map reg_of [(i, j, k)] ++ qr ++ ql ++ q) with ((reg_of (i, j, k) :: qr ++ ql) ++ q)
             by (simpl; rewrite <- app_assoc; reflexivity).
           apply (FOP_replace _ _ _ (alo, ahi, blo, bhi)); [exact Hp| |].
           ++ unfold qr, ql.
              destruct ((alo <? i) && (blo <? j)), ((i + k <? ahi) && (j + k <? bhi));
              simpl; repeat constructor; unfold comparable, rbefore, Rl, Rr; simpl; lia.
           ++ intros s Hs. unfold qr, ql in Hs.
              destruct ((alo <? i) && (blo <? j)), ((i + k <? ahi) && (j + k <? bhi));
              simpl in Hs; repeat destruct Hs as [<-|Hs]; try contradiction;
              unfold subregion, Rl, Rr; simpl; lia.
Qed.

End Loop.

(** [matching_blocks.sort()] *)
Lemma insert_perm x l : Permutation (insert_triple x l) (x :: l).
Proof.
  induction l as [|y r IH]; simpl; auto.
  destruct (triple_leb x y); auto.
  eapply perm_trans; [apply perm_skip, IH|]. apply perm_swap.
Qed.

Lemma sort_perm l : Permutation (sort_triples l) l.
Proof.
  induction l as [|x r IH]; simpl; auto.
  eapply perm_trans; [apply insert_perm|]. auto.
Qed.

Lemma triple_leb_a x y : triple_leb x y = true -> t_a x <= t_a y.
Proof.
  destruct x as [[i1 j1] k1], y as [[i2 j2] k2]. simpl.
  destruct (Nat.ltb_spec i1 i2); simpl; [lia|].
  destruct (Nat.eqb_spec i1 i2); simpl; [lia|discriminate].
Qed.

Lemma triple_leb_total x y : triple_leb x y = false -> triple_leb y x = true.
Proof.
  destruct x as [[i1 j1] k1], y as [[i2 j2] k2]. simpl.
  destruct (Nat.ltb_spec i1 i2); simpl; [discriminate|].
  destruct (Nat.ltb_spec i2 i1); simpl; [reflexivity|].
  assert (i1 = i2) by lia. subst. rewrite Nat.eqb_refl. simpl.
  destruct (Nat.ltb_spec j1 j2); simpl; [discriminate|].
  destruct (Nat.ltb_spec j2 j1); simpl; [reflexivity|].
  assert (j1 = j2) by lia. subst. rewrite Nat.eqb_refl. simpl.
  intros Hle. apply Nat.leb_gt in Hle. apply Nat.leb_le. lia.
Qed.

Definition a_le (x y : triple) : Prop := t_a x <= t_a y.

Lemma insert_sorted x l : StronglySorted a_le l -> StronglySorted a_le (insert_triple x l).
Proof.
  induction l as [|y r IH]; simpl; intros H.
  - repeat constructor.
  - inversion H; subst. destruct (triple_leb x y) eqn:Hxy.
    + apply triple_leb_a in Hxy. constructor; auto. constructor; [exact Hxy|].
      rewrite Forall_forall in *. intros z Hz. specialize (H3 z Hz). unfold a_le in *. lia.
    + apply triple_leb_total, triple_leb_a in Hxy. constructor; auto.
      eapply Permutation_Forall; [symmetry; apply insert_perm|]. constructor; auto.
Qed.

Lemma sort_sorted l : StronglySorted a_le (sort_triples l).
Proof. induction l; simpl; [constructor|apply insert_sorted; auto]. Qed.

Lemma FOP_perm {A : Type} (R : A -> A -> Prop) l l' :
  (forall x y, R x y -> R y x) -> Permutation l l' ->
  ForallOrdPairs R l -> ForallOrdPairs R l'.
Proof.
  intros Hs HP. induction HP; intros H; auto.
  - inversion H; subst. constructor; auto.
    eapply Permutation_Forall; eauto.
  - inversion H; subst. inversion H3; subst. inversion H2; subst.
    constructor; [constructor; auto|constructor; auto].
Qed.

Lemma sorted_before l :
  StronglySorted a_le l -> ForallOrdPairs comparable (map reg_of l) ->
  Forall (fun t => 1 <= t_size t) l -> StronglySorted before l.
Proof.
  induction l as [|x r IH]; simpl; intros H1 H2 H3; [constructor|].
  inversion H1 as [|? ? S1 S2]; subst. inversion H2 as [|? ? P1 P2]; subst.
  inversion H3 as [|? ? K1 K2]; subst.
  constructor; auto. rewrite Forall_forall in *. intros y Hy.
  specialize (S2 y Hy). specialize (P1 (reg_of y) (in_map _ _ _ Hy)). specialize (K2 y Hy).
  unfold a_le, comparable, rbefore, before, reg_of in *. simpl in *. lia.
Qed.

Lemma sum_sizes_app l1 l2 : sum_sizes (l1 ++ l2) = sum_sizes l1 + sum_sizes l2.
Proof. induction l1 as [|x r IH]; simpl; [reflexivity|rewrite IH; lia]. Qed.

Section Collapse.
Context {E : Type}.
Variables a b : list E.

Lemma matches_join i j k1 k2 :
  matches a b i j k1 -> matches a b (i + k1) (j + k1) k2 -> matches a b i j (k1 + k2).
Proof.
  intros H1 H2 t Ht. destruct (Nat.lt_ge_cases t k1) as [Hl|Hl]; [auto|].
  destruct (H2 (t - k1)) as (c & C1 & C2); [lia|].
  exists c. replace (i + t) with (i + k1 + (t - k1)) by lia.
  replace (j + t) with (j + k1 + (t - k1)) by lia. auto.
Qed.

Lemma matches_bound i j k :
  matches a b i j k -> 1 <= k -> i + k <= length a /\ j + k <= length b.
Proof.
  intros H Hk. destruct (H (k - 1)) as (c & C1 & C2); [lia|].
  assert (N1 : nth_error a (i + (k - 1)) <> None) by congruence.
  assert (N2 : nth_error b (j + (k - 1)) <> None) by congruence.
  apply nth_error_Some in N1, N2. lia.
Qed.

Lemma collapse_ok l cur :
  block_ok a b cur -> Forall (before cur) l -> StronglySorted before l ->
  Forall (found_ok a b) l ->
  StronglySorted before (collapse cur l) /\ Forall (found_ok a b) (collapse cur l)
  /\ (forall z, In z (collapse cur l) -> t_a cur <= t_a z /\ t_b cur <= t_b z)
  /\ sum_sizes (collapse cur l) = t_size cur + sum_sizes l.
Proof.
  revert cur. induction l as [|[[i2 j2] k2] r IH]; intros [[i1 j1] k1] Hc Hb Hs Hf.
  - simpl. destruct (Nat.eqb_spec k1 0) as [Hk|Hk].
    + subst. simpl. split; [constructor|split; [constructor|split; [intros z []|reflexivity]]].
    + split; [repeat constructor|].
      split; [constructor; [split; [simpl; lia|exact Hc]|constructor]|].
      split; [intros z [<-|[]]; simpl; lia|simpl; lia].
  - inversion Hb as [|? ? Hb1 Hb2]; subst. inversion Hs as [|? ? Hs1 Hs2]; subst.
    inversion Hf as [|? ? Hf1 Hf2]; subst. destruct Hf1 as [Hk2 Hok2].
    unfold before in Hb1; simpl in Hb1.
    simpl collapse.
    destruct ((i1 + k1 =? i2) && (j1 + k1 =? j2)) eqn:Hm.
    + apply andb_true_iff in Hm as [Hm1 Hm2].
      apply Nat.eqb_eq in Hm1, Hm2. subst. destruct (IH (i1, j1, k1 + k2)) as (R1 & R2 & R3 & R4).
      * unfold block_ok; simpl. apply matches_join; [exact Hc|exact Hok2].
      * rewrite Forall_forall in *. intros y Hy. specialize (Hs2 y Hy).
        unfold before in *; simpl in *; lia.
      * exact Hs1.
      * exact Hf2.
      * split; [exact R1|split; [exact R2|split]].
        -- intros z Hz. apply R3 in Hz. simpl in Hz. simpl. lia.
        -- rewrite R4. simpl. lia.
    + destruct (IH (i2, j2, k2)) as (R1 & R2 & R3 & R4); auto.
      assert (Hcur : forall z, In z (if k1 =? 0 then [] else [(i1, j1, k1)]) -> z = (i1, j1, k1) /\ 1 <= k1).
      { destruct (Nat.eqb_spec k1 0); simpl; intros z Hz; [contradiction|].
        destruct Hz as [<-|[]]; split; auto; lia. }
      split; [|split; [|split]].
      * apply SS_app; auto.
        -- destruct (k1 =? 0); repeat constructor.
        -- intros x y Hx Hy. apply Hcur in Hx as [-> _]. apply R3 in Hy. simpl in Hy.
           unfold before; simpl; lia.
      * apply Forall_app. split; auto. apply Forall_forall. intros x Hx.
        apply Hcur in Hx as [-> Hk]. split; [simpl; lia|exact Hc].
      * intros z Hz. apply in_app_or in Hz as [Hz|Hz].
        -- apply Hcur in Hz as [-> _]. simpl; lia.
        -- apply R3 in Hz. simpl in *. lia.
      * rewrite sum_sizes_app. rewrite R4. simpl.
        destruct (Nat.eqb_spec k1 0); simpl; lia.
Qed.

End Collapse.

Section Shape.
Context {E : Type}.
Variable E_dec : forall x y : E, {x = y} + {x <> y}.
Variable autojunk : bool.
Variables a b : list E.

Lemma sum_sizes_le l lo :
  StronglySorted before l -> Forall (found_ok a b) l ->
  Forall (fun z => lo <= t_a z) l -> lo <= length a ->
  sum_sizes l + lo <= length a.
Proof.
  revert lo. induction l as [|x r IH]; intros lo Hs Hf Hlo Hla; simpl; [lia|].
  inversion Hs as [|? ? Hs1 Hs2]; subst. inversion Hf as [|? ? [Hk Hok] Hf2]; subst.
  inversion Hlo; subst.
  destruct (matches_bound a b _ _ _ Hok Hk) as [Ba Bb].
  specialize (IH (t_a x + t_size x) Hs1 Hf2).
  assert (Forall (fun z => t_a x + t_size x <= t_a z) r).
  { rewrite Forall_forall in *. intros z Hz. destruct (Hs2 z Hz). lia. }
  specialize (IH H Ba). lia.
Qed.

Lemma sum_sizes_le_b l lo :
  StronglySorted before l -> Forall (found_ok a b) l ->
  Forall (fun z => lo <= t_b z) l -> lo <= length b ->
  sum_sizes l + lo <= length b.
Proof.
  revert lo. induction l as [|x r IH]; intros lo Hs Hf Hlo Hla; simpl; [lia|].
  inversion Hs as [|? ? Hs1 Hs2]; subst. inversion Hf as [|? ? [Hk Hok] Hf2]; subst.
  inversion Hlo; subst.
  destruct (matches_bound a b _ _ _ Hok Hk) as [Ba Bb].
  specialize (IH (t_b x + t_size x) Hs1 Hf2).
  assert (Forall (fun z => t_b x + t_size x <= t_b z) r).
  { rewrite Forall_forall in *. intros z Hz. destruct (Hs2 z Hz). lia. }
  specialize (IH H Bb). lia.
Qed.

(** What [get_matching_blocks] returns: a list ending in the sentinel
    [(len a, len b, 0)], every earlier entry a real non-empty match,
    entries strictly increasing and non-overlapping in both texts. *)
Lemma get_matching_blocks_shape :
  exists body, get_matching_blocks E_dec autojunk a b = Some (body ++ [(length a, length b, 0)])
    /\ StronglySorted before (body ++ [(length a, length b, 0)])
    /\ Forall (found_ok a b) body
    /\ sum_sizes body <= length a /\ sum_sizes body <= length b.
Proof.
  destruct (gmb_loop_ok E_dec autojunk a b (2 * length a + 1) [(0, length a, 0, length b)] [])
    as (mb & Hmb & Hf & Hp).
  - simpl. lia.
  - repeat constructor; simpl; lia.
  - constructor.
  - simpl. repeat constructor.
  - unfold get_matching_blocks. rewrite Hmb.
    assert (HsS : StronglySorted before (sort_triples mb)).
    { apply sorted_before.
      - apply sort_sorted.
      - apply (FOP_perm comparable (map reg_of mb)).
        + intros x y [H|H]; [right|left]; exact H.
        + apply Permutation_map. symmetry. apply sort_perm.
        + exact Hp.
      - eapply Permutation_Forall; [symmetry; apply sort_perm|].
        eapply Forall_impl; [|exact Hf]. intros t [H _]. exact H. }
    assert (HfS : Forall (found_ok a b) (sort_triples mb)).
    { eapply Permutation_Forall; [symmetry; apply sort_perm|exact Hf]. }
    destruct (collapse_ok a b (sort_triples mb) (0, 0, 0)) as (C1 & C2 & C3 & C4).
    + intros t Ht. simpl in Ht. lia.
    + apply Forall_forall. intros y _. unfold before. simpl. lia.
    + exact HsS.
    + exact HfS.
    + set (body := collapse (0, 0, 0) (sort_triples mb)) in *.
      exists body. split; [reflexivity|].
      split; [|split; [exact C2|split]].
      * apply SS_app; [exact C1|repeat constructor|].
        intros x y Hx [<-|[]]. rewrite Forall_forall in C2.
        destruct (C2 x Hx) as [Hk Hok].
        destruct (matches_bound a b _ _ _ Hok Hk). unfold before. simpl. lia.
      * pose proof (sum_sizes_le body 0 C1 C2) as H.
        rewrite <- plus_n_O in H. apply H; [apply Forall_forall; intros; lia|lia].
      * pose proof (sum_sizes_le_b body 0 C1 C2) as H.
        rewrite <- plus_n_O in H. apply H; [apply Forall_forall; intros; lia|lia].
Qed.

End Shape.

End BlockFacts.

(* ===================================================================== *)
(** ** The score: three roundings, each to a nearest value *)
(* ===================================================================== *)

Module FloatFacts.
Import Float64 Difflib.
Local Open Scope Z_scope.

(** [rne n d] is a nearest integer to [n / d]. *)
Lemma rne_near n d :
  0 < d -> 2 * (rne n d * d) <= 2 * n + d /\ 2 * n <= 2 * (rne n d * d) + d.
Proof.
  intros Hd. unfold rne.
  pose proof (Z.div_mod n d ltac:(lia)) as Hn. pose proof (Z.mod_pos_bound n d Hd) as Hr.
  set (q := n / d) in *. set (r := n mod d) in *.
  destruct (Z.ltb_spec d (2 * r)); [|destruct (Z.ltb_spec (2 * r) d); [|destruct (Z.even q)]];
  nia.
Qed.

Lemma rne_le n d c : 0 < d -> n <= c * d -> rne n d <= c.
Proof.
  intros Hd Hn. destruct (rne_near n d Hd) as [H1 H2].
  assert (H : 2 * (rne n d * d) < 2 * (c * d) + 2 * d) by lia.
  assert (rne n d < c + 1) by nia. lia.
Qed.

Lemma rne_ge n d c : 0 < d -> c * d <= n -> c <= rne n d.
Proof.
  intros Hd Hn. destruct (rne_near n d Hd) as [H1 H2].
  assert (H : 2 * (c * d) < 2 * (rne n d * d) + 2 * d) by lia.
  assert (c < rne n d + 1) by nia. lia.
Qed.

Lemma scaled_nonpos n d e : e <= 0 -> scaled n d e = (n * 2 ^ (- e), d).
Proof.
  intros He. unfold scaled. destruct (Z.leb_spec 0 e).
  - assert (e = 0) as -> by lia. simpl. f_equal; lia.
  - reflexivity.
Qed.

Lemma frac_nonpos m e : e <= 0 -> frac m e = (m, 2 ^ (- e)).
Proof.
  intros He. unfold frac. destruct (Z.leb_spec 0 e).
  - assert (e = 0) as -> by lia. simpl. f_equal; lia.
  - reflexivity.
Qed.

(** Below [2^52], the value nearest to [n / d] is [m * 2^-k] with
    [2^52 <= n * 2^k / d] and [m] the nearest integer to [n * 2^k / d]. *)
Lemma fl_small n d :
  0 < n -> 0 < d -> n < 2 ^ 52 * d ->
  exists k, 0 <= k /\ fl n d = (rne (n * 2 ^ k) d, - k) /\ 2 ^ 52 * d <= n * 2 ^ k.
Proof.
  intros Hn Hd Hs. unfold fl. destruct (Z.leb_spec n 0); [lia|].
  destruct (Z.log2_spec n Hn) as [Na Nb]. destruct (Z.log2_spec d Hd) as [Da Db].
  set (a := Z.log2 n) in *. set (b := Z.log2 d) in *.
  assert (Ha : 0 <= a) by apply Z.log2_nonneg. assert (Hb : 0 <= b) by apply Z.log2_nonneg.
  assert (Hab : a <= b + 52).
  { destruct (Z.le_gt_cases a (b + 52)) as [|Hgt]; [assumption|].
    assert (2 ^ (b + 53) <= 2 ^ a) by (apply Z.pow_le_mono_r; lia).
    rewrite Z.pow_add_r in H0 by lia. rewrite Z.pow_succ_r in Db by lia.
    change (2 ^ 53) with (2 * 2 ^ 52) in H0. nia. }
  assert (Hlow : 2 ^ 51 * d < n * 2 ^ (52 + b - a)).
  { assert (E : 2 ^ (52 + b) = 2 ^ a * 2 ^ (52 + b - a)) by (rewrite <- Z.pow_add_r; [f_equal; lia|lia|lia]).
    rewrite Z.pow_add_r in E by lia. rewrite Z.pow_succ_r in Db by lia.
    change (2 ^ 52) with (2 * 2 ^ 51) in E.
    assert (0 < 2 ^ (52 + b - a)) by (apply Z.pow_pos_nonneg; lia). nia. }
  unfold fl_exp. fold a b. rewrite (scaled_nonpos n d (a - b - 52)) by lia.
  replace (- (a - b - 52)) with (52 + b - a) by lia.
  destruct (Z.ltb_spec (n * 2 ^ (52 + b - a)) (2 ^ 52 * d)) as [Hlt|Hge].
  - rewrite (scaled_nonpos n d (a - b - 52 - 1)) by lia.
    exists (52 + b - a + 1). split; [lia|].
    replace (- (a - b - 52 - 1)) with (52 + b - a + 1) by lia.
    split; [f_equal; lia|].
    rewrite Z.pow_add_r by lia. change (2 ^ 52) with (2 * 2 ^ 51). nia.
  - rewrite (scaled_nonpos n d (a - b - 52)) by lia.
    exists (52 + b - a). split; [lia|].
    replace (- (a - b - 52)) with (52 + b - a) by lia. split; [f_equal; lia|]. lia.
Qed.

(** The score of [m] matches in [t] characters, [0 < 2m <= t], through its
    three roundings. *)
Lemma score_steps m t :
  (0 < m)%nat -> (2 * m <= t)%nat ->
  exists k1 k2, 0 <= k1 /\ 0 <= k2
  /\ 2 ^ 52 * Z.of_nat t <= 2 * Z.of_nat m * 2 ^ k1
  /\ 2 ^ 52 * 2 ^ k1 <= 100 * rne (2 * Z.of_nat m * 2 ^ k1) (Z.of_nat t) * 2 ^ k2
  /\ rne (2 * Z.of_nat m * 2 ^ k1) (Z.of_nat t) <= 2 ^ k1
  /\ Z.of_nat (score_hundredths m t)
     = rne (100 * rne (100 * rne (2 * Z.of_nat m * 2 ^ k1) (Z.of_nat t) * 2 ^ k2) (2 ^ k1)) (2 ^ k2).
Proof.
  intros Hm Ht. unfold score_hundredths.
  destruct (Nat.eqb_spec t 0) as [|Ht0]; [lia|].
  destruct (fl_small (2 * Z.of_nat m) (Z.of_nat t)) as (k1 & Hk1 & E1 & L1); [lia|lia|lia|].
  rewrite E1. rewrite frac_nonpos by lia. rewrite Z.opp_involutive.
  set (m1 := rne (2 * Z.of_nat m * 2 ^ k1) (Z.of_nat t)).
  assert (P1 : 0 < 2 ^ k1) by (apply Z.pow_pos_nonneg; lia).
  assert (Hm1 : m1 <= 2 ^ k1) by (apply rne_le; nia).
  assert (Hm1' : 2 ^ 52 <= m1) by (apply rne_ge; lia).
  destruct (fl_small (100 * m1) (2 ^ k1)) as (k2 & Hk2 & E2 & L2); [lia|lia|nia|].
  rewrite E2. rewrite frac_nonpos by lia. rewrite Z.opp_involutive.
  exists k1, k2. split; [lia|]. split; [lia|]. split; [lia|]. split; [lia|]. split; [lia|].
  rewrite Z2Nat.id; [reflexivity|].
  assert (P2 : 0 < 2 ^ k2) by (apply Z.pow_pos_nonneg; lia).
  apply rne_ge with (c := 0); [exact P2|].
  apply Z.mul_nonneg_nonneg; [lia|]. apply rne_ge with (c := 0); [exact P1|]. nia.
Qed.

(** No match scores 0, or 100 for two empty texts. *)
Lemma score_zero t : score_hundredths 0 t = (if (t =? 0)%nat then 10000 else 0)%nat.
Proof. unfold score_hundredths. destruct (t =? 0)%nat; reflexivity. Qed.

(** A score with [2m <= t] is at most 100. *)
Lemma score_le m t : (2 * m <= t)%nat -> (score_hundredths m t <= 10000)%nat.
Proof.
  intros H. destruct m as [|m].
  - rewrite score_zero. destruct (t =? 0)%nat; lia.
  - destruct (score_steps (S m) t) as (k1 & k2 & Hk1 & Hk2 & L1 & L2 & Hm1 & E); [lia|lia|].
    apply Nat2Z.inj_le. rewrite E.
    replace (Z.of_nat 10000) with 10000 by reflexivity.
    assert (P1 : 0 < 2 ^ k1) by (apply Z.pow_pos_nonneg; lia).
    assert (P2 : 0 < 2 ^ k2) by (apply Z.pow_pos_nonneg; lia).
    apply rne_le; [exact P2|].
    assert (rne (100 * rne (2 * Z.of_nat (S m) * 2 ^ k1) (Z.of_nat t) * 2 ^ k2) (2 ^ k1) <= 100 * 2 ^ k2)
      by (apply rne_le; [exact P1|]; nia).
    lia.
Qed.

(** A text against a text of its length made only of matches scores 100. *)
Lemma score_self n : score_hundredths n (n + n) = 10000%nat.
Proof.
  unfold score_hundredths. destruct (Nat.eqb_spec (n + n) 0) as [|Hn]; [reflexivity|].
  replace (Z.of_nat (n + n)) with (2 * Z.of_nat n) by lia.
  assert (E : fl (2 * Z.of_nat n) (2 * Z.of_nat n) = (2 ^ 52, -52)).
  { unfold fl. destruct (Z.leb_spec (2 * Z.of_nat n) 0); [lia|].
    unfold fl_exp. rewrite Z.sub_diag.
    rewrite (scaled_nonpos _ _ (0 - 52)) by lia. simpl (- (0 - 52)).
    destruct (Z.ltb_spec (2 * Z.of_nat n * 2 ^ 52) (2 ^ 52 * (2 * Z.of_nat n))); [lia|].
    rewrite (scaled_nonpos _ _ (0 - 52)) by lia. simpl (- (0 - 52)). f_equal.
    apply Z.le_antisymm; [apply rne_le|apply rne_ge]; lia. }
  rewrite E. vm_compute. reflexivity.
Qed.

(** Below [2^36] characters the three roundings stay within half a
    hundredth of [2m/t]: the score is a nearest multiple of [0.01]. *)
Lemma score_near m t :
  (2 * m <= t)%nat -> (t <> 0)%nat -> Z.of_nat t < 2 ^ 36 ->
  (2 * (score_hundredths m t * t) <= 2 * (20000 * m) + t
  /\ 2 * (20000 * m) <= 2 * (score_hundredths m t * t) + t)%nat.
Proof.
  intros H Ht Hb. destruct m as [|m].
  - rewrite score_zero. destruct (Nat.eqb_spec t 0); lia.
  - destruct (score_steps (S m) t) as (k1 & k2 & Hk1 & Hk2 & L1 & L2 & Hm1 & E); [lia|lia|].
    assert (P1 : 0 < 2 ^ k1) by (apply Z.pow_pos_nonneg; lia).
    assert (P2 : 0 < 2 ^ k2) by (apply Z.pow_pos_nonneg; lia).
    set (M := Z.of_nat (S m)) in *. set (T := Z.of_nat t) in *.
    set (Q1 := 2 ^ k1) in *. set (Q2 := 2 ^ k2) in *.
    set (m1 := rne (2 * M * Q1) T) in *.
    set (m2 := rne (100 * m1 * Q2) Q1) in *.
    set (k := Z.of_nat (score_hundredths (S m) t)) in *.
    assert (HT : 0 < T) by lia.
    destruct (rne_near (2 * M * Q1) T HT) as [A1 A2]. fold m1 in A1, A2.
    destruct (rne_near (100 * m1 * Q2) Q1 P1) as [B1 B2]. fold m2 in B1, B2.
    destruct (rne_near (100 * m2) Q2 P2) as [C1 C2]. rewrite <- E in C1, C2.
    assert (HQ1 : 2 ^ 52 <= Q1) by nia.
    assert (HQ2 : 2 ^ 52 <= 100 * Q2) by nia.
    set (a := 2 * m1 * T - 4 * M * Q1).
    set (b := 2 * m2 * Q1 - 200 * m1 * Q2).
    set (c := 2 * k * Q2 - 200 * m2).
    assert (Id : (2 * k * T - 40000 * M) * (Q1 * Q2) = c * Q1 * T + 100 * T * b + 10000 * Q2 * a)
      by (unfold a, b, c; ring).
    assert (Ha : - T <= a <= T) by (unfold a; lia).
    assert (Hb' : - Q1 <= b <= Q1) by (unfold b; lia).
    assert (Hc : - Q2 <= c <= Q2) by (unfold c; lia).
    assert (U : c * Q1 * T + 100 * T * b + 10000 * Q2 * a <= Q2 * Q1 * T + 100 * T * Q1 + 10000 * Q2 * T) by nia.
    assert (L : - (Q2 * Q1 * T + 100 * T * Q1 + 10000 * Q2 * T) <= c * Q1 * T + 100 * T * b + 10000 * Q2 * a) by nia.
    assert (S1 : 4 * (100 * T * Q1) < Q1 * Q2) by nia.
    assert (S2 : 4 * (10000 * Q2 * T) < Q1 * Q2) by nia.
    assert (X1 : 2 * k * T - 40000 * M <= T).
    { destruct (Z.le_gt_cases (2 * k * T - 40000 * M) T) as [|G]; [assumption|].
      assert (G' : (T + 1) * (Q1 * Q2) <= (2 * k * T - 40000 * M) * (Q1 * Q2))
        by (apply Z.mul_le_mono_nonneg_r; lia).
      lia. }
    assert (X2 : - T <= 2 * k * T - 40000 * M).
    { destruct (Z.le_gt_cases (- T) (2 * k * T - 40000 * M)) as [|G]; [assumption|].
      assert (G' : (2 * k * T - 40000 * M) * (Q1 * Q2) <= (- T - 1) * (Q1 * Q2))
        by (apply Z.mul_le_mono_nonneg_r; lia).
      lia. }
    unfold k, M, T in X1, X2.
    split; apply Nat2Z.inj_le; rewrite ?Nat2Z.inj_add, ?Nat2Z.inj_mul;
      replace (Z.of_nat 20000) with 20000 by reflexivity; simpl (Z.of_nat 2); lia.
Qed.
End FloatFacts.

(* ===================================================================== *)
(** ** A text against itself: one block covering everything *)
(* ===================================================================== *)

Module SelfMatch.
Import Difflib Props FlmFacts BlockFacts.

Section Diag.
Context {E : Type}.
Variable E_dec : forall x y : E, {x = y} + {x <> y}.
Variable autojunk : bool.
Variable s : list E.

(** Position [i] holds an element that stays in [b2j]. *)
Definition nonpop_at (i : nat) : bool :=
  match nth_error s i with
  | Some c => negb (popular E_dec autojunk s c)
  | None => false
  end.

(** The number of consecutive positions ending at [i] that hold
    non-popular elements. *)
Fixpoint np (i : nat) : nat :=
  match i with
  | 0 => if nonpop_at 0 then 1 else 0
  | S i' => if nonpop_at (S i') then S (np i') else 0
  end.

Definition pnp (i : nat) : nat := match i with 0 => 0 | S i' => np i' end.

Lemma np_eq i : np i = if nonpop_at i then S (pnp i) else 0.
Proof. destruct i; reflexivity. Qed.

Lemma np_le i : np i <= S i.
Proof. induction i as [|i IH]; simpl; [destruct (nonpop_at 0); lia|destruct (nonpop_at (S i)); lia]. Qed.

Lemma at_eqb_self i : i < length s -> at_eqb E_dec s s i i = true.
Proof.
  intros H. unfold at_eqb. destruct (nth_error s i) eqn:Hs.
  - apply elt_eqb_refl.
  - apply nth_error_None in Hs. lia.
Qed.

Lemma prev_len_le l j P :
  (forall j' k, In (j', k) l -> k <= P) -> prev_len l j <= P.
Proof.
  intros H. destruct j as [|j]; simpl; [lia|].
  destruct (j2len_get_cases l j) as [->|Hin]; [lia|]. eapply H; eauto.
Qed.

Lemma prev_len_pnp l j :
  (forall j' k, In (j', k) l -> k <= np j') -> prev_len l j <= pnp j.
Proof.
  intros H. destruct j as [|j]; simpl; [lia|].
  destruct (j2len_get_cases l j) as [->|Hin]; [lia|]. eapply H; eauto.
Qed.

Lemma j2len_get_pos l j v :
  In (j, v) l -> (forall j' v', In (j', v') l -> 1 <= v') -> 1 <= j2len_get l j.
Proof.
  induction l as [|[j' v'] r IH]; simpl; intros Hin Hall; [contradiction|].
  destruct (Nat.eqb_spec j' j).
  - eapply Hall; left; reflexivity.
  - destruct Hin as [Heq|Hin]; [inversion Heq; congruence|].
    apply IH; [exact Hin|]. intros j1 v1 H1. eapply Hall. right. exact H1.
Qed.

Lemma scan_row_entries i js l acc best j v :
  In (j, v) (fst (scan_row i js 0 (length s) l acc best)) ->
  In (j, v) acc \/ (In j js /\ v = S (prev_len l j)).
Proof.
  revert acc best. induction js as [|j0 js IH]; simpl; intros acc best H; auto.
  destruct (length s <=? j0); simpl in H; auto.
  destruct (IH _ _ H) as [[Heq|H1]|[H1 H2]].
  - inversion Heq; subst. right. auto.
  - auto.
  - right. auto.
Qed.

Lemma scan_row_has i js l acc best j :
  Forall (fun j => j < length s) js ->
  (exists v, In (j, v) acc) \/ In j js ->
  exists v, In (j, v) (fst (scan_row i js 0 (length s) l acc best)).
Proof.
  revert acc best. induction js as [|j0 js IH]; simpl; intros acc best Hlt H.
  - destruct H as [H|[]]. exact H.
  - inversion Hlt; subst. destruct (Nat.leb_spec (length s) j0); [lia|].
    apply IH; auto. destruct H as [[v Hv]|[<-|H]].
    + left. exists v. right. exact Hv.
    + left. eexists. left. reflexivity.
    + right. exact H.
Qed.

(** The entries of the row before row [i]. *)
Definition prev_inv (i : nat) (l : list (nat * nat)) : Prop :=
  (forall j k, In (j, k) l -> k <= pnp i /\ k <= np j) /\ prev_len l i = pnp i.

Lemma indices_sorted c r n :
  StronglySorted lt (indices_from E_dec c r n) /\ Forall (fun j => n <= j) (indices_from E_dec c r n).
Proof.
  revert n. induction r as [|x r IH]; simpl; intros n; [split; constructor|].
  destruct (IH (S n)) as [H1 H2].
  destruct (elt_eqb E_dec x c).
  - split.
    + constructor; [exact H1|exact H2].
    + constructor; [lia|]. eapply Forall_impl; [|exact H2]. simpl. intros; lia.
  - split; auto. eapply Forall_impl; [|exact H2]. simpl. intros; lia.
Qed.

Lemma indices_complete c j :
  nth_error s j = Some c -> In j (indices_from E_dec c s 0).
Proof.
  assert (G : forall r n, nth_error r j = Some c -> In (n + j) (indices_from E_dec c r n)).
  { intros r. revert j. induction r as [|x r IH]; intros j n H.
    - destruct j; discriminate.
    - simpl. destruct j as [|j]; simpl in H.
      + inversion H; subst. rewrite elt_eqb_refl. left. lia.
      + replace (n + S j) with (S n + j) by lia.
        destruct (elt_eqb E_dec x c); [right|]; apply IH; exact H. }
  intros H. apply (G s 0 H).
Qed.

Lemma scan_row_best i c js l acc x bs :
  nth_error s i = Some c -> popular E_dec autojunk s c = false ->
  StronglySorted lt js -> (forall j, In j js -> nth_error s j = Some c) ->
  prev_inv i l ->
  (In i js \/ np i <= bs) -> (forall j, j < i -> np j <= bs) -> x + bs <= length s ->
  exists x' bs', snd (scan_row i js 0 (length s) l acc (x, x, bs)) = (x', x', bs')
    /\ (forall j, j <= i -> np j <= bs') /\ x' + bs' <= length s.
Proof.
  intros Hc Hp. revert acc x bs.
  induction js as [|j js IH]; simpl; intros acc x bs Hs Hjs [Hl Hd] Hi Hlt Hx.
  - exists x, bs. split; [reflexivity|]. split; auto.
    intros j Hj. destruct Hi as [[]|Hi]. destruct (Nat.eq_dec j i); subst; auto. apply Hlt. lia.
  - inversion Hs as [|? ? Hs1 Hs2]; subst.
    assert (Hjc : nth_error s j = Some c) by (apply Hjs; left; reflexivity).
    assert (Hjn : j < length s) by (apply nth_error_Some; congruence).
    destruct (Nat.leb_spec (length s) j); [lia|].
    assert (Hnj : nonpop_at j = true) by (unfold nonpop_at; rewrite Hjc, Hp; reflexivity).
    assert (Hni : nonpop_at i = true) by (unfold nonpop_at; rewrite Hc, Hp; reflexivity).
    assert (Kj : S (prev_len l j) <= np j).
    { rewrite (np_eq j), Hnj. pose proof (prev_len_pnp l j) as P.
      assert (prev_len l j <= pnp j) by (apply P; intros; eapply Hl; eauto). lia. }
    assert (Ki : S (prev_len l j) <= np i).
    { rewrite (np_eq i), Hni. pose proof (prev_len_le l j (pnp i)) as P.
      assert (prev_len l j <= pnp i) by (apply P; intros; eapply Hl; eauto). lia. }
    destruct (Nat.ltb_spec bs (S (prev_len l j))) as [Hup|Hno]; simpl.
    + (* an update can only happen on the diagonal *)
      assert (j = i).
      { destruct (Nat.lt_total j i) as [Hji|[Hji|Hji]]; auto.
        - specialize (Hlt j Hji). lia.
        - destruct Hi as [[Hij|Hij]|Hi]; [lia| |lia].
          rewrite Forall_forall in Hs2. specialize (Hs2 i Hij). lia. }
      subst j.
      assert (Hk : S (prev_len l i) = np i) by (rewrite Hd, (np_eq i), Hni; reflexivity).
      rewrite Hk in *.
      apply IH.
      * exact Hs1.
      * intros j Hj. apply Hjs. right. exact Hj.
      * split; assumption.
      * right. lia.
      * intros j Hj. pose proof (Hlt j Hj). lia.
      * pose proof (np_le i). lia.
    + apply IH.
      * exact Hs1.
      * intros j' Hj'. apply Hjs. right. exact Hj'.
      * split; assumption.
      * destruct Hi as [[Hji|Hij]|Hi]; [subst j; right| left; exact Hij| right; exact Hi].
        rewrite (np_eq i), Hni, <- Hd. lia.
      * exact Hlt.
      * exact Hx.
Qed.

Lemma scan_row_prev i c js l acc best :
  nth_error s i = Some c -> popular E_dec autojunk s c = false ->
  (forall j, In j js -> nth_error s j = Some c) -> In i js -> acc = [] ->
  prev_inv i l -> prev_inv (S i) (fst (scan_row i js 0 (length s) l acc best)).
Proof.
  intros Hc Hp Hjs Hin -> [Hl Hd].
  assert (Hlt : Forall (fun j => j < length s) js).
  { apply Forall_forall. intros j Hj. apply nth_error_Some. rewrite (Hjs j Hj). discriminate. }
  assert (Hni : nonpop_at i = true) by (unfold nonpop_at; rewrite Hc, Hp; reflexivity).
  assert (Hent : forall j k, In (j, k) (fst (scan_row i js 0 (length s) l [] best)) ->
                 k <= np i /\ k <= np j /\ 1 <= k /\ (j = i -> k = np i)).
  { intros j k H. destruct (scan_row_entries _ _ _ _ _ _ _ H) as [[]|[H1 ->]].
    assert (Hnj : nonpop_at j = true) by (unfold nonpop_at; rewrite (Hjs j H1), Hp; reflexivity).
    pose proof (prev_len_le l j (pnp i) ltac:(intros; eapply Hl; eauto)).
    pose proof (prev_len_pnp l j ltac:(intros; eapply Hl; eauto)).
    rewrite (np_eq i), (np_eq j), Hni, Hnj. repeat split; try lia.
    intros ->. rewrite Hd. reflexivity. }
  split.
  - intros j k H. simpl. destruct (Hent j k H) as (A1 & A2 & _). auto.
  - simpl. destruct (j2len_get_cases (fst (scan_row i js 0 (length s) l [] best)) i) as [H0|H0].
    + exfalso. destruct (scan_row_has i js l [] best i Hlt (or_intror Hin)) as [v Hv].
      pose proof (j2len_get_pos _ _ _ Hv (fun j' v' H => proj1 (proj2 (proj2 (Hent j' v' H))))).
      lia.
    + destruct (Hent _ _ H0) as (_ & _ & _ & A). apply A. reflexivity.
Qed.

Lemma scan_rows_diag m i l x bs :
  i + m = length s -> prev_inv i l -> (forall j, j < i -> np j <= bs) -> x + bs <= length s ->
  exists x' bs', scan_rows E_dec autojunk s s (seq i m) 0 (length s) l (x, x, bs) = (x', x', bs')
    /\ x' + bs' <= length s.
Proof.
  revert i l x bs. induction m as [|m IH]; intros i l x bs Hm Hp Hlt Hx; simpl.
  - eauto.
  - destruct (nth_error s i) as [c|] eqn:Hc; [|apply nth_error_None in Hc; lia].
    unfold b2j_get. destruct (popular E_dec autojunk s c) eqn:Hpop.
    + simpl. apply IH; auto; [lia| |].
      * split; [intros j k []|]. simpl. rewrite (np_eq i).
        unfold nonpop_at. rewrite Hc, Hpop. reflexivity.
      * intros j Hj. destruct (Nat.eq_dec j i); [subst|apply Hlt; lia].
        rewrite np_eq. unfold nonpop_at. rewrite Hc, Hpop. simpl. lia.
    + destruct (indices_sorted c s 0) as [Hsort _].
      assert (Hjs : forall j, In j (indices_from E_dec c s 0) -> nth_error s j = Some c).
      { intros j Hj. destruct (indices_from_spec E_dec c s 0 j Hj) as [_ H].
        rewrite Nat.sub_0_r in H. exact H. }
      assert (Hin : In i (indices_from E_dec c s 0)) by (apply indices_complete; exact Hc).
      pose proof (scan_row_best i c _ l [] x bs Hc Hpop Hsort Hjs Hp (or_introl Hin) Hlt Hx)
        as (x' & bs' & Hb & Hle & Hx').
      pose proof (scan_row_prev i c _ l [] (x, x, bs) Hc Hpop Hjs Hin eq_refl Hp) as Hp'.
      destruct (scan_row i (indices_from E_dec c s 0) 0 (length s) l [] (x, x, bs)) as [nl bt].
      simpl in Hb, Hp'. subst bt.
      apply IH; auto; [lia|]. intros j Hj. apply Hle. lia.
Qed.

Lemma ext_left_diag f x bs :
  x <= f -> x <= length s -> ext_left E_dec s s f 0 0 x x bs = (0, 0, x + bs).
Proof.
  revert x bs. induction f as [|f IH]; intros x bs Hf Hx; simpl.
  - replace x with 0 by lia. reflexivity.
  - destruct x as [|x]; simpl; [reflexivity|].
    rewrite Nat.sub_0_r, at_eqb_self by lia. simpl.
    rewrite IH by lia. f_equal. lia.
Qed.

Lemma ext_right_diag f bs :
  length s - bs <= f -> bs <= length s -> ext_right E_dec s s f (length s) (length s) 0 0 bs = (0, 0, length s).
Proof.
  revert bs. induction f as [|f IH]; intros bs Hf Hb; simpl.
  - replace bs with (length s) by lia. reflexivity.
  - destruct (Nat.ltb_spec bs (length s)) as [Hlt|Hge]; simpl.
    + rewrite at_eqb_self by lia. apply IH; lia.
    + replace bs with (length s) by lia. reflexivity.
Qed.

Lemma find_longest_match_self :
  find_longest_match E_dec autojunk s s 0 (length s) 0 (length s) = (0, 0, length s).
Proof.
  unfold find_longest_match. rewrite Nat.sub_0_r.
  destruct (scan_rows_diag (length s) 0 [] 0 0 eq_refl) as (x & bs & Hs & Hx).
  - split; [intros j k []|reflexivity].
  - intros j Hj. lia.
  - lia.
  - rewrite Hs. rewrite ext_left_diag by lia. apply ext_right_diag; lia.
Qed.

Lemma get_matching_blocks_self :
  get_matching_blocks E_dec autojunk s s =
  Some ((if length s =? 0 then [] else [(0, 0, length s)]) ++ [(length s, length s, 0)]).
Proof.
  unfold get_matching_blocks. rewrite Nat.add_1_r. simpl gmb_loop.
  rewrite find_longest_match_self.
  destruct (Nat.eqb_spec (length s) 0) as [Hz|Hz].
  - simpl. rewrite Hz. reflexivity.
  - rewrite Nat.ltb_irrefl, Nat.add_0_l, Nat.ltb_irrefl. simpl.
    destruct (length s + (length s + 0)); simpl;
      destruct (Nat.eqb_spec (length s) 0); solve [lia|reflexivity].
Qed.

End Diag.


End SelfMatch.

(* ===================================================================== *)
(** ** The score: rounding, range, and the effect of [autojunk] *)
(* ===================================================================== *)

Module Scores.
Import Py Difflib Props FlmFacts BlockFacts SelfMatch FloatFacts Preprocessing Comparison.

Section Junk.
Context {E : Type}.
Variable E_dec : forall x y : E, {x = y} + {x <> y}.
Variables a b : list E.
Hypothesis Hshort : length b < 200.

Lemma popular_short aj c : popular E_dec aj b c = false.
Proof.
  unfold popular. destruct (Nat.leb_spec 200 (length b)); [lia|].
  rewrite andb_false_r, andb_false_l. reflexivity.
Qed.

Lemma scan_rows_autojunk rows blo bhi l best :
  scan_rows E_dec true a b rows blo bhi l best = scan_rows E_dec false a b rows blo bhi l best.
Proof.
  revert l best. induction rows as [|i rows IH]; intros l best; simpl; auto.
  destruct (nth_error a i); [|apply IH].
  unfold b2j_get. rewrite !popular_short.
  destruct (scan_row i (indices_from E_dec e b 0) blo bhi l [] best). apply IH.
Qed.

Lemma find_longest_match_autojunk alo ahi blo bhi :
  find_longest_match E_dec true a b alo ahi blo bhi = find_longest_match E_dec false a b alo ahi blo bhi.
Proof. unfold find_longest_match. rewrite scan_rows_autojunk. reflexivity. Qed.

Lemma gmb_loop_autojunk fuel q acc :
  gmb_loop E_dec true a b fuel q acc = gmb_loop E_dec false a b fuel q acc.
Proof.
  revert q acc. induction fuel as [|f IH]; intros q acc; simpl; auto.
  destruct q as [|[[[alo ahi] blo] bhi] q]; auto.
  rewrite find_longest_match_autojunk.
  destruct (find_longest_match E_dec false a b alo ahi blo bhi) as [[i j] k].
  destruct (k =? 0); apply IH.
Qed.

(** Below 200 elements in the second text, [autojunk] changes nothing. *)
Lemma get_matching_blocks_autojunk :
  get_matching_blocks E_dec true a b = get_matching_blocks E_dec false a b.
Proof. unfold get_matching_blocks. rewrite gmb_loop_autojunk. reflexivity. Qed.

End Junk.

(** What [compare_pair] returns, in terms of the two texts it read. *)
Lemma compare_pair_inv m p1 p2 r :
  compare_pair m p1 p2 = Some r ->
  exists body,
    fs_read m p1 = Some (r_code1 r) /\ fs_read m p2 = Some (r_code2 r)
    /\ r_file1 r = basename p1 /\ r_file2 r = basename p2
    /\ get_matching_blocks ascii_dec true (r_code1 r) (r_code2 r) = Some (r_blocks r)
    /\ r_blocks r = body ++ [(length (r_code1 r), length (r_code2 r), 0)]
    /\ r_score r = score_hundredths (sum_sizes (r_blocks r)) (length (r_code1 r) + length (r_code2 r))
    /\ StronglySorted before (r_blocks r)
    /\ Forall (found_ok (r_code1 r) (r_code2 r)) body
    /\ sum_sizes body <= length (r_code1 r) /\ sum_sizes body <= length (r_code2 r).
Proof.
  unfold compare_pair. intros H.
  destruct (fs_read m p1) as [c1|] eqn:H1; [|discriminate].
  destruct (fs_read m p2) as [c2|] eqn:H2; [|discriminate].
  destruct (get_matching_blocks_shape ascii_dec true c1 c2) as (body & G & S1 & S2 & S3 & S4).
  unfold match_texts in H. rewrite G in H. inversion H; subst. simpl.
  exists body. repeat split; auto.
Qed.

Lemma compare_pair_some m p1 p2 c1 c2 :
  fs_read m p1 = Some c1 -> fs_read m p2 = Some c2 ->
  exists r, compare_pair m p1 p2 = Some r /\ r_code1 r = c1 /\ r_code2 r = c2.
Proof.
  intros H1 H2. unfold compare_pair. rewrite H1, H2.
  destruct (get_matching_blocks_shape ascii_dec true c1 c2) as (body & G & _).
  unfold match_texts. rewrite G. eexists. split; [reflexivity|]. auto.
Qed.

Lemma sum_sizes_snoc body s : sum_sizes (body ++ [s]) = sum_sizes body + t_size s.
Proof. rewrite sum_sizes_app. simpl. lia. Qed.


(** Real blocks are not empty, so A offsets strictly ascend. *)
Lemma sorted_a_strict body s :
  StronglySorted before (body ++ [s]) -> Forall (fun t => 1 <= t_size t) body ->
  StronglySorted (fun x y => t_a x < t_a y) (body ++ [s]).
Proof.
  induction body as [|x body IH]; intros HS HF; simpl in *.
  - constructor; constructor.
  - inversion HS as [|? ? HS' HF']; subst. inversion HF as [|? ? Hx HF2]; subst.
    constructor; [apply IH; assumption|].
    eapply Forall_impl; [|exact HF']. intros y Hy. unfold before in Hy. lia.
Qed.

(** Every score lies in [0, 100]. *)
Lemma compare_pair_score_le m p q r : compare_pair m p q = Some r -> r_score r <= 10000.
Proof.
  intros H. destruct (compare_pair_inv m p q r H)
    as (body & _ & _ & _ & _ & _ & Hb & Hs & _ & _ & Hl1 & Hl2).
  rewrite Hs. apply score_le. rewrite Hb, sum_sizes_snoc. simpl. lia.
Qed.

(** Two equal texts score 100. *)
Lemma compare_pair_same_score m p q r :
  compare_pair m p q = Some r -> r_code1 r = r_code2 r -> r_score r = 10000.
Proof.
  intros H E. destruct (compare_pair_inv m p q r H) as (_ & _ & _ & _ & _ & Hg & _ & Hs & _).
  rewrite <- E in Hg, Hs. rewrite get_matching_blocks_self in Hg.
  injection Hg as Hg. rewrite Hs, <- Hg.
  replace (sum_sizes _) with (length (r_code1 r)).
  - apply score_self.
  - destruct (length (r_code1 r) =? 0) eqn:E0; simpl.
    + apply Nat.eqb_eq in E0. lia.
    + lia.
Qed.

End Scores.

(* ===================================================================== *)
(** ** The pairs scored by [run_parallel_comparison] *)
(* ===================================================================== *)

Module PairFacts.
Import Py Preprocessing Comparison.

(** The index pairs [(i, j)], [i < j < n], in lexicographic order: the
    documented output order of [itertools.combinations(range(n), 2)]. *)
Definition combination_indices (n : nat) : list (nat * nat) :=
  flat_map (fun i => map (fun j => (i, j)) (seq (S i) (n - S i))) (seq 0 n).

(** [NoDup] as a boolean test on paths. *)
Fixpoint distinct_paths (l : list (list ascii)) : bool :=
  match l with
  | [] => true
  | x :: r => negb (existsb (fun y => if list_eq_dec ascii_dec x y then true else false) r)
              && distinct_paths r
  end.

Lemma distinct_paths_NoDup l : distinct_paths l = true -> NoDup l.
Proof.
  induction l as [|x r IH]; simpl; intros H; constructor.
  - apply andb_true_iff in H as [H _]. intros Hin.
    assert (existsb (fun y => if list_eq_dec ascii_dec x y then true else false) r = true).
    { apply existsb_exists. exists x. split; auto. destruct (list_eq_dec ascii_dec x x); congruence. }
    rewrite H0 in H. discriminate.
  - apply IH. apply andb_true_iff in H as [_ H]. exact H.
Qed.

Section Gen.
Context {A : Type}.

Lemma pairs_length (l : list A) :
  2 * length (generate_file_pairs l) = length l * (length l - 1).
Proof.
  induction l as [|x r IH]; simpl; [reflexivity|].
  rewrite length_app, length_map. rewrite Nat.sub_0_r.
  destruct r as [|y r']; simpl in *; [reflexivity|]. nia.
Qed.

Lemma in_pairs (x y h : A) (r : list A) :
  In (x, y) (generate_file_pairs (h :: r)) <->
  (x = h /\ In y r) \/ In (x, y) (generate_file_pairs r).
Proof.
  simpl. rewrite in_app_iff, in_map_iff. split.
  - intros [(z & Hz & Hin)|H]; [inversion Hz; subst; auto|auto].
  - intros [[-> Hy]|H]; [left; exists y; auto|auto].
Qed.

Lemma pairs_in (l : list A) x y :
  In (x, y) (generate_file_pairs l) ->
  exists l1 l2, l = l1 ++ x :: l2 /\ In y l2.
Proof.
  induction l as [|h r IH]; [intros []|].
  intros H. apply in_pairs in H as [[-> Hy]|H].
  - exists [], r. auto.
  - destruct (IH H) as (l1 & l2 & -> & Hy). exists (h :: l1), l2. auto.
Qed.

Lemma pairs_nodup (l : list A) :
  NoDup l ->
  NoDup (generate_file_pairs l)
  /\ forall x y, In (x, y) (generate_file_pairs l) ->
       x <> y /\ In x l /\ In y l /\ ~ In (y, x) (generate_file_pairs l).
Proof.
  induction l as [|h r IH]; intros Hn; simpl.
  - split; [constructor|intros x y []].
  - inversion Hn as [|? ? Hh Hr]; subst. destruct (IH Hr) as [N1 N2].
    assert (Hfst : forall x y, In (x, y) (generate_file_pairs r) -> In x r).
    { intros x y H. apply N2 in H. tauto. }
    split.
    + apply NoDup_app; auto.
      * apply Finite.Injective_map_NoDup; auto. intros u v E. inversion E. reflexivity.
      * intros [x y] H1 H2. apply in_map_iff in H1 as (z & Hz & _). inversion Hz; subst.
        apply Hfst in H2. contradiction.
    + intros x y H. apply in_app_or in H as [H|H].
      * apply in_map_iff in H as (z & Hz & Hin). inversion Hz; subst.
        split; [intros ->; contradiction|]. split; [left; auto|]. split; [right; auto|].
        intros H'. apply in_app_or in H' as [H'|H'].
        -- apply in_map_iff in H' as (w & Hw & _). inversion Hw; subst. contradiction.
        -- apply N2 in H' as (_ & _ & H' & _). contradiction.
      * destruct (N2 x y H) as (D1 & D2 & D3 & D4).
        split; auto. split; [right; auto|]. split; [right; auto|].
        intros H'. apply in_app_or in H' as [H'|H']; [|contradiction].
        apply in_map_iff in H' as (w & Hw & _). inversion Hw; subst. contradiction.
Qed.

Lemma pairs_complete (l : list A) x y :
  In x l -> In y l -> x <> y ->
  In (x, y) (generate_file_pairs l) \/ In (y, x) (generate_file_pairs l).
Proof.
  induction l as [|h r IH]; [intros []|].
  intros Hx Hy Hxy. rewrite !in_pairs.
  destruct Hx as [<-|Hx], Hy as [<-|Hy].
  - contradiction.
  - left. left. auto.
  - right. left. auto.
  - destruct (IH Hx Hy Hxy); auto.
Qed.

Lemma seq_shift_map a k : map S (seq a k) = seq (S a) k.
Proof. revert a. induction k as [|k IH]; intros a; simpl; [reflexivity|]. rewrite IH. reflexivity. Qed.

Lemma combination_indices_S n :
  combination_indices (S n) =
  map (fun j => (0, j)) (seq 1 n)
  ++ map (fun '(i, j) => (S i, S j)) (combination_indices n).
Proof.
  unfold combination_indices. simpl seq at 1. simpl flat_map. rewrite Nat.sub_0_r. f_equal.
  rewrite <- seq_shift_map. rewrite flat_map_concat_map, map_map.
  rewrite flat_map_concat_map, concat_map, map_map. f_equal. apply map_ext_in.
  intros i Hi. apply in_seq in Hi. rewrite map_map.
  replace (S n - S (S i)) with (n - S i) by lia.
  rewrite <- seq_shift_map, map_map. reflexivity.
Qed.

Lemma map_nth_seq_self (l : list A) d : map (fun j => nth j l d) (seq 0 (length l)) = l.
Proof.
  induction l as [|h r IH]; [reflexivity|]. simpl. f_equal.
  rewrite <- seq_shift_map, map_map. exact IH.
Qed.

(** [generate_file_pairs] lists the pairs in the order of
    [combination_indices]. *)
Lemma pairs_order (l : list A) (d : A) :
  generate_file_pairs l =
  map (fun '(i, j) => (nth i l d, nth j l d)) (combination_indices (length l)).
Proof.
  induction l as [|h r IH]; [reflexivity|].
  simpl length. rewrite combination_indices_S, map_app, map_map, map_map. simpl.
  f_equal.
  - rewrite <- seq_shift_map, map_map. simpl.
    rewrite <- (map_map (fun j => nth j r d) (fun y => (h, y))).
    rewrite map_nth_seq_self. reflexivity.
  - rewrite IH. apply map_ext. intros [i j]. reflexivity.
Qed.

End Gen.

Lemma starmap_total {B : Type} (f : list ascii -> list ascii -> option B) pairs :
  (forall x y, In (x, y) pairs -> exists v, f x y = Some v) ->
  exists vs, starmap f pairs = Some vs
    /\ Forall2 (fun p v => f (fst p) (snd p) = Some v) pairs vs.
Proof.
  induction pairs as [|[x y] r IH]; simpl; intros H.
  - exists []. auto.
  - destruct (H x y (or_introl eq_refl)) as [v Hv].
    destruct IH as (vs & Hvs & Hf); [intros; apply H; auto|].
    rewrite Hv, Hvs. exists (v :: vs). auto.
Qed.

End PairFacts.

(* ===================================================================== *)
(** ** Writing the results table and reading it back *)
(* ===================================================================== *)

Module CsvFacts.
Import Py Preprocessing Comparison Csv.

(** Fields without the special characters of the tokenizer. *)
Definition plain_char (c : ascii) : bool :=
  negb (ascii_eqb c dq || ascii_eqb c comma || ascii_eqb c nl || ascii_eqb c cr).

Lemma ascii_eqb_spec c d : ascii_eqb c d = true <-> c = d.
Proof. unfold ascii_eqb. destruct (ascii_dec c d); split; congruence. Qed.

Lemma ascii_eqb_refl c : ascii_eqb c c = true.
Proof. apply ascii_eqb_spec. reflexivity. Qed.

Lemma fold_plain st fld rcd rcds f :
  (st = StartRecord \/ st = StartField \/ st = InField) ->
  forallb plain_char f = true ->
  fold_left step f (st, (fld, rcd, rcds))
  = (match f with [] => st | _ => InField end, (rev f ++ fld, rcd, rcds)).
Proof.
  revert st fld. induction f as [|c f IH]; intros st fld Hst Hf; [reflexivity|].
  simpl in Hf. apply andb_true_iff in Hf as [Hc Hf].
  unfold plain_char in Hc.
  destruct (ascii_eqb c dq) eqn:E1, (ascii_eqb c comma) eqn:E2,
           (ascii_eqb c nl) eqn:E3, (ascii_eqb c cr) eqn:E4; try discriminate.
  assert (Hs : step (st, (fld, rcd, rcds)) c = (InField, (c :: fld, rcd, rcds))).
  { destruct Hst as [->|[->| ->]]; simpl; unfold step_start_record, step_field;
      rewrite ?E1, ?E2, ?E3, ?E4; reflexivity. }
  cbn [fold_left]. rewrite Hs. rewrite IH by auto. simpl. rewrite <- app_assoc. destruct f; reflexivity.
Qed.

Lemma fold_quoted rcd rcds fld f :
  fold_left step (double_quotes f) (InQuoted, (fld, rcd, rcds))
  = (InQuoted, (rev f ++ fld, rcd, rcds)).
Proof.
  revert fld. induction f as [|c f IH]; intros fld; [reflexivity|].
  cbn [double_quotes]. destruct (ascii_eqb c dq) eqn:E.
  - apply ascii_eqb_spec in E. subst c. cbn [fold_left].
    assert (Hs : step (step (InQuoted, (fld, rcd, rcds)) dq) dq = (InQuoted, (dq :: fld, rcd, rcds)))
      by reflexivity.
    rewrite Hs, IH. simpl. rewrite <- app_assoc. reflexivity.
  - cbn [fold_left].
    assert (Hs : step (InQuoted, (fld, rcd, rcds)) c = (InQuoted, (c :: fld, rcd, rcds)))
      by (simpl; rewrite E; reflexivity).
    rewrite Hs, IH. simpl. rewrite <- app_assoc. reflexivity.
Qed.

(** A field written by [csv_field] is read back whole. *)
Lemma fold_field st rcd rcds f :
  (st = StartRecord \/ st = StartField) -> ~ In cr f ->
  exists st', fold_left step (csv_field f) (st, ([], rcd, rcds)) = (st', (rev f, rcd, rcds))
    /\ (st' = InField \/ st' = QuoteInQuoted \/ st' = st).
Proof.
  intros Hst Hcr. unfold csv_field. destruct (needs_quotes f) eqn:Hq.
  - cbn [fold_left]. assert (H0 : step (st, ([], rcd, rcds)) dq = (InQuoted, ([], rcd, rcds)))
      by (destruct Hst as [->| ->]; reflexivity).
    rewrite H0, fold_left_app, fold_quoted. simpl.
    exists QuoteInQuoted. rewrite app_nil_r. auto.
  - assert (Hp : forallb plain_char f = true).
    { apply forallb_forall. intros c Hc. unfold needs_quotes in Hq.
      assert (Hn : (ascii_eqb c comma || ascii_eqb c dq || ascii_eqb c nl) = false).
      { destruct (ascii_eqb c comma || ascii_eqb c dq || ascii_eqb c nl) eqn:E; [|reflexivity].
        assert (existsb (fun c => ascii_eqb c comma || ascii_eqb c dq || ascii_eqb c nl) f = true)
          by (apply existsb_exists; eauto). congruence. }
      unfold plain_char. destruct (ascii_eqb c cr) eqn:Ec.
      + apply ascii_eqb_spec in Ec. subst. contradiction.
      + destruct (ascii_eqb c dq), (ascii_eqb c comma), (ascii_eqb c nl); simpl in *; congruence. }
    rewrite fold_plain by (auto; destruct Hst; auto).
    rewrite app_nil_r. eexists. split; [reflexivity|]. destruct f; auto.
Qed.

Lemma step_comma st acc :
  (st = InField \/ st = QuoteInQuoted \/ st = StartRecord \/ st = StartField) ->
  @eq (rstate * (list ascii * list (list ascii) * list (list (list ascii))))
    (step (st, acc) comma) (StartField, end_field acc).
Proof. intros [->|[->|[->| ->]]]; reflexivity. Qed.

Lemma step_nl st acc :
  (st = InField \/ st = QuoteInQuoted \/ st = StartField) ->
  step (st, acc) nl = (StartRecord, end_record acc).
Proof. intros [->|[->| ->]]; reflexivity. Qed.

(** One line of three fields is read back as one record. *)
Lemma fold_line f1 f2 f3 rcds :
  ~ In cr f1 -> ~ In cr f2 -> ~ In cr f3 ->
  fold_left step (csv_line [f1; f2; f3]) (StartRecord, ([], [], rcds))
  = (StartRecord, ([], [], [f1; f2; f3] :: rcds)).
Proof.
  intros H1 H2 H3.
  assert (Hl : csv_line [f1; f2; f3] =
               csv_field f1 ++ [comma] ++ csv_field f2 ++ [comma] ++ csv_field f3 ++ [nl]).
  { unfold csv_line. simpl. rewrite app_nil_r, <- !app_assoc. reflexivity. }
  rewrite Hl, !fold_left_app.
  destruct (fold_field StartRecord [] rcds f1 (or_introl eq_refl) H1) as (s1 & -> & Hs1).
  cbn [fold_left]. rewrite step_comma by (destruct Hs1 as [-> | [-> | ->]]; auto).
  simpl end_field. rewrite ?rev_involutive.
  destruct (fold_field StartField [f1] rcds f2 (or_intror eq_refl) H2) as (s2 & -> & Hs2).
  cbn [fold_left]. rewrite step_comma by (destruct Hs2 as [-> | [-> | ->]]; auto).
  simpl end_field. rewrite ?rev_involutive.
  destruct (fold_field StartField [f2; f1] rcds f3 (or_intror eq_refl) H3) as (s3 & -> & Hs3).
  cbn [fold_left]. rewrite step_nl by (destruct Hs3 as [-> | [-> | ->]]; auto).
  unfold end_record, end_field. simpl. rewrite rev_involutive. reflexivity.
Qed.

Lemma fold_lines (ls : list (list (list ascii))) rcds :
  Forall (fun l => exists f1 f2 f3, l = [f1; f2; f3] /\ ~ In cr f1 /\ ~ In cr f2 /\ ~ In cr f3) ls ->
  fold_left step (concat (map csv_line ls)) (StartRecord, ([], [], rcds))
  = (StartRecord, ([], [], rev ls ++ rcds)).
Proof.
  revert rcds. induction ls as [|l ls IH]; intros rcds H; [reflexivity|].
  inversion H as [|? ? (f1 & f2 & f3 & -> & H1 & H2 & H3) Hr]; subst.
  cbn [map concat]. rewrite fold_left_app, fold_line by auto. rewrite IH by auto.
  simpl. rewrite <- app_assoc. reflexivity.
Qed.

(** Numbers. *)
Lemma parse_digits_app acc l1 l2 :
  parse_digits acc (l1 ++ l2) =
  match parse_digits acc l1 with Some v => parse_digits v l2 | None => None end.
Proof.
  revert acc. induction l1 as [|c l1 IH]; intros acc; [reflexivity|].
  simpl. destruct (digit_val c); auto.
Qed.

Lemma digit_val_digit d : d < 10 -> digit_val (ascii_of_nat (48 + d)) = Some d.
Proof.
  intros Hd. unfold digit_val. rewrite nat_ascii_embedding by lia.
  destruct (Nat.leb_spec 48 (48 + d)); [|lia]. destruct (Nat.leb_spec (48 + d) 57); [|lia].
  cbn [andb]. f_equal. lia.
Qed.

Lemma parse_digits_one acc d :
  d < 10 -> parse_digits acc [ascii_of_nat (48 + d)] = Some (10 * acc + d).
Proof. intros Hd. cbn [parse_digits]. rewrite digit_val_digit by exact Hd. reflexivity. Qed.

Lemma parse_digits_fuel f n :
  n < 10 ^ f -> parse_digits 0 (digits_fuel f n) = Some n.
Proof.
  revert n. induction f as [|f IH]; intros n Hn.
  { simpl in Hn. replace n with 0 by lia. reflexivity. }
  rewrite Nat.pow_succ_r' in Hn.
  cbn [digits_fuel]. rewrite parse_digits_app.
  assert (Hm : n mod 10 < 10) by (apply Nat.mod_upper_bound; lia).
  destruct (Nat.ltb_spec n 10).
  - cbv beta iota. change (parse_digits 0 []) with (Some 0). cbv beta iota.
    rewrite parse_digits_one by exact Hm.
    rewrite Nat.mod_small by lia. f_equal.
  - cbv beta iota. rewrite IH.
    + rewrite parse_digits_one by exact Hm.
      f_equal. pose proof (Nat.div_mod_eq n 10). lia.
    + apply Nat.Div0.div_lt_upper_bound. lia.
Qed.

Lemma digits_parse n : parse_digits 0 (digits n) = Some n.
Proof.
  unfold digits. apply parse_digits_fuel.
  apply Nat.lt_trans with (10 ^ n); [apply Nat.pow_gt_lin_r; lia|].
  apply Nat.pow_lt_mono_r; lia.
Qed.

Lemma digits_fuel_chars f n c :
  In c (digits_fuel f n) -> exists d, d < 10 /\ c = ascii_of_nat (48 + d).
Proof.
  revert n. induction f as [|f IH]; intros n H; simpl in H; [contradiction|].
  apply in_app_or in H as [H|[<-|[]]].
  - destruct (n <? 10); [contradiction|]. eapply IH; eauto.
  - exists (n mod 10). split; [apply Nat.mod_upper_bound; lia|reflexivity].
Qed.

Lemma digits_nonempty n : digits n <> [].
Proof. unfold digits. simpl. destruct (n <? 10); simpl; [discriminate|]. intros H. apply app_eq_nil in H as [_ H]. discriminate. Qed.

Lemma dot_not_digit d : d < 10 -> ascii_eqb "."%char (ascii_of_nat (48 + d)) = false.
Proof.
  intros Hd. destruct (ascii_eqb "."%char (ascii_of_nat (48 + d))) eqn:E; [|reflexivity].
  apply ascii_eqb_spec in E. apply (f_equal nat_of_ascii) in E.
  rewrite nat_ascii_embedding in E by lia. change (nat_of_ascii ".") with 46 in E. lia.
Qed.

Lemma rfind_from_none c l n :
  (forall d, In d l -> ascii_eqb c d = false) -> rfind_from c l n = None.
Proof.
  revert n. induction l as [|d l IH]; intros n H; simpl; [reflexivity|].
  rewrite IH; [|intros e He; apply H; right; exact He].
  rewrite (H d (or_introl eq_refl)). reflexivity.
Qed.

Lemma rfind_from_last c l1 l2 n :
  (forall d, In d l2 -> ascii_eqb c d = false) ->
  rfind_from c (l1 ++ c :: l2) n = Some (n + length l1).
Proof.
  revert n. induction l1 as [|d l1 IH]; intros n H; simpl.
  - rewrite rfind_from_none by auto. rewrite ascii_eqb_refl. f_equal. lia.
  - rewrite IH by auto. f_equal. lia.
Qed.

Lemma parse_digits_two d1 d2 :
  d1 < 10 -> d2 < 10 ->
  parse_digits 0 [ascii_of_nat (48 + d1); ascii_of_nat (48 + d2)] = Some (10 * d1 + d2).
Proof.
  intros H1 H2.
  change [ascii_of_nat (48 + d1); ascii_of_nat (48 + d2)]
    with ([ascii_of_nat (48 + d1)] ++ [ascii_of_nat (48 + d2)]).
  rewrite parse_digits_app, parse_digits_one by exact H1.
  rewrite parse_digits_one by exact H2. f_equal; lia.
Qed.

(** The part of [float_repr] after the dot. *)
Definition frac_tail (fr : nat) : list ascii :=
  if fr =? 0 then ["0"%char]
  else if fr mod 10 =? 0 then [ascii_of_nat (48 + fr / 10)]
  else [ascii_of_nat (48 + fr / 10); ascii_of_nat (48 + fr mod 10)].

Lemma float_repr_parts h : float_repr h = digits (h / 100) ++ "."%char :: frac_tail (h mod 100).
Proof. reflexivity. Qed.

Lemma firstn_before {A : Type} (l1 l2 : list A) c : firstn (length l1) (l1 ++ c :: l2) = l1.
Proof. induction l1 as [|x l1 IH]; simpl; [reflexivity|]. rewrite IH. reflexivity. Qed.

Lemma skipn_after {A : Type} (l1 l2 : list A) c : skipn (S (length l1)) (l1 ++ c :: l2) = l2.
Proof. induction l1 as [|x l1 IH]; simpl; [reflexivity|]. exact IH. Qed.

(** [float(repr(round(x, 2)))] gives back the score. *)
Lemma parse_float_repr h : parse_score (float_repr h) = Some h.
Proof.
  rewrite float_repr_parts.
  pose proof (Nat.div_mod_eq h 100) as Hh.
  assert (Hfr : h mod 100 < 100) by (apply Nat.mod_upper_bound; lia).
  revert Hh Hfr. generalize (h mod 100) as fr. generalize (h / 100) as q. intros q fr Hh Hfr.
  assert (Hd1 : fr / 10 < 10) by (apply Nat.Div0.div_lt_upper_bound; lia).
  assert (Hd2 : fr mod 10 < 10) by (apply Nat.mod_upper_bound; lia).
  assert (Ht : forall d, In d (frac_tail fr) -> ascii_eqb "."%char d = false).
  { unfold frac_tail. destruct (fr =? 0); [intros d [<-|[]]; reflexivity|].
    destruct (fr mod 10 =? 0); intros d Hd; simpl in Hd;
      repeat destruct Hd as [<-|Hd]; try contradiction; apply dot_not_digit; auto. }
  unfold parse_score, rfind. rewrite (rfind_from_last "."%char (digits q) (frac_tail fr) 0 Ht).
  rewrite Nat.add_0_l, firstn_before, skipn_after.
  destruct (digits q) as [|c0 cs] eqn:Edq; [exfalso; apply (digits_nonempty q); exact Edq|].
  rewrite <- Edq, digits_parse.
  unfold frac_tail. destruct (Nat.eqb_spec fr 0) as [Hz|Hz].
  - change (parse_digits 0 ["0"%char]) with (Some 0). cbv beta iota. f_equal. lia.
  - destruct (Nat.eqb_spec (fr mod 10) 0) as [Hz2|Hz2].
    + rewrite parse_digits_one by exact Hd1. cbv beta iota. f_equal.
      pose proof (Nat.div_mod_eq fr 10). lia.
    + rewrite parse_digits_two by assumption. cbv beta iota. f_equal.
      pose proof (Nat.div_mod_eq fr 10). lia.
Qed.

(** The names that [run_parallel_preprocessing] can produce are neither
    NA tokens nor numbers. *)
Lemma na_values_not_selected :
  forallb (fun v => negb (driver_selects (chars v))) na_values = true.
Proof. reflexivity. Qed.

Lemma name_cell_selected f : driver_selects f = true -> name_cell f = Some f.
Proof.
  intros H. unfold name_cell. destruct (in_list f na_values) eqn:E; [|reflexivity].
  unfold in_list in E. apply existsb_exists in E as (v & Hv & Hf).
  destruct (list_eq_dec ascii_dec f (chars v)) as [->|]; [|discriminate].
  pose proof na_values_not_selected as N. rewrite forallb_forall in N.
  specialize (N v Hv). rewrite H in N. discriminate.
Qed.

(** The columns that [save_results_to_csv] writes. *)
Definition row_fields (r : result) : list (list ascii) :=
  [r_file1 r; r_file2 r; float_repr (r_score r)].

Lemma float_repr_chars h c :
  In c (float_repr h) -> c = "."%char \/ exists d, d < 10 /\ c = ascii_of_nat (48 + d).
Proof.
  rewrite float_repr_parts. intros H. apply in_app_or in H as [H|[H|H]].
  - right. unfold digits in H. eapply digits_fuel_chars; eauto.
  - left. auto.
  - right. unfold frac_tail in H.
    assert (Hd1 : (h mod 100) / 10 < 10)
      by (apply Nat.Div0.div_lt_upper_bound; pose proof (Nat.mod_upper_bound h 100); lia).
    assert (Hd2 : (h mod 100) mod 10 < 10) by (apply Nat.mod_upper_bound; lia).
    destruct (h mod 100 =? 0).
    + destruct H as [<-|[]]. exists 0. split; [lia|reflexivity].
    + destruct (h mod 100 mod 10 =? 0).
      * destruct H as [<-|[]]. eexists. split; [exact Hd1|reflexivity].
      * destruct H as [<-|[<-|[]]].
        -- exists (h mod 100 / 10). split; [exact Hd1|reflexivity].
        -- exists ((h mod 100) mod 10). split; [exact Hd2|reflexivity].
Qed.

Lemma float_repr_no_cr h : ~ In cr (float_repr h).
Proof.
  intros H. apply float_repr_chars in H as [H|(d & Hd & H)];
    apply (f_equal nat_of_ascii) in H; change (nat_of_ascii cr) with 13 in H.
  - change (nat_of_ascii ".") with 46 in H. discriminate.
  - rewrite nat_ascii_embedding in H by lia. lia.
Qed.

Lemma header_no_cr : Forall (fun f => ~ In cr f) header.
Proof.
  repeat constructor; intros H; vm_compute in H; repeat (destruct H as [H|H]; [discriminate|]); exact H.
Qed.

Lemma save_as_lines rs :
  save_results_to_csv rs = concat (map csv_line (header :: map row_fields rs)).
Proof. unfold save_results_to_csv. cbn [map concat]. rewrite map_map. reflexivity. Qed.

(** Reading back a table whose names hold no carriage return and end in
    an extension of the driver gives the header and each row's triple. *)
Lemma read_saved rs :
  Forall (fun r => ~ In cr (r_file1 r) /\ ~ In cr (r_file2 r)
                   /\ driver_selects (r_file1 r) = true /\ driver_selects (r_file2 r) = true) rs ->
  read_csv (save_results_to_csv rs)
  = (header, map (fun r => Some (r_file1 r, r_file2 r, r_score r)) rs).
Proof.
  intros H. unfold read_csv, tokenize. rewrite save_as_lines, fold_lines.
  - rewrite app_nil_r, rev_involutive. cbn [map]. f_equal.
    rewrite map_map. apply map_ext_in. intros r Hr.
    rewrite Forall_forall in H. destruct (H r Hr) as (_ & _ & S1 & S2).
    unfold row_of, row_fields. rewrite !name_cell_selected, parse_float_repr by assumption.
    reflexivity.
  - constructor.
    + exists (chars "File 1"), (chars "File 2"), (chars "Similarity %").
      pose proof header_no_cr as Hh. inversion Hh as [|? ? H1 Hr1]; subst.
      inversion Hr1 as [|? ? H2 Hr2]; subst. inversion Hr2 as [|? ? H3 _]; subst.
      auto.
    + apply Forall_map. eapply Forall_impl; [|exact H].
      intros r (N1 & N2 & _ & _). exists (r_file1 r), (r_file2 r), (float_repr (r_score r)).
      split; [reflexivity|]. split; [exact N1|]. split; [exact N2|]. apply float_repr_no_cr.
Qed.

(** What is written depends on the three columns only. *)
Lemma save_row_fields rs rs' :
  map row_fields rs = map row_fields rs' -> save_results_to_csv rs = save_results_to_csv rs'.
Proof. intros H. rewrite !save_as_lines, H. reflexivity. Qed.

End CsvFacts.

(* ===================================================================== *)
(** ** The properties of the pipeline *)
(* ===================================================================== *)

Module Claims.
Import Py Difflib Props BlockFacts Preprocessing Comparison Csv Main FloatFacts Scores PairFacts CsvFacts.
Local Open Scope string_scope.
Local Open Scope list_scope.
Local Open Scope nat_scope.

(** Fixtures: two preprocessed files and their contents. *)
Definition path_a : list ascii := chars "data/preprocessed/a.py".
Definition path_b : list ascii := chars "data/preprocessed/b.py".
Definition path_c : list ascii := chars "data/preprocessed/c.py".
Definition two_files (c1 c2 : list ascii) : fs := [(path_a, c1); (path_b, c2)].

(** A text of 200 characters or more, where [autojunk] applies. *)
Definition junk_a : list ascii := chars "y" ++ repeat "x"%char 10.
Definition junk_b : list ascii := repeat "x"%char 200 ++ chars "y".

Definition word_a : list ascii := chars "tide".
Definition word_b : list ascii := chars "diet".

(** A second text of 200 characters made of one popular character. *)
Definition gap_a : list ascii := chars "zx".
Definition gap_b : list ascii := repeat "x"%char 200.

Definition swap_a : list ascii := chars "ab".
Definition swap_b : list ascii := chars "ba".

(** A result whose first name holds a carriage return. *)
Definition cr_result : result :=
  mk_result (chars "a" ++ [cr] ++ chars "b.py") (chars "c.py") 10000 [] [] [].

(** The upload directory of the example of the specification. *)
Definition upload_a : list ascii := chars "data/uploads/a.py".
Definition upload_b : list ascii := chars "data/uploads/b.py".
Definition uploads_fs : fs :=
  [(upload_a, chars "import os" ++ [nl] ++ chars "#hi" ++ [nl] ++ chars "print(1)");
   (upload_b, chars "print(1)")].

(** A run where everything but the comparison succeeds. *)
Definition env_compare_fails : env :=
  mk_env true (Some [chars "a.py"; chars "b.py"]) (fun _ => true) false (fun _ => true) true false.

(** A run whose only upload has the valid extension [.cc]. *)
Definition env_cc : env :=
  mk_env true (Some [chars "a.cc"]) (fun _ => true) false (fun _ => true) false false.

(** C1: for distinct paths, [generate_file_pairs] has n(n-1)/2 pairs, in
    the order of the 2-combinations of the indices, without duplicates,
    self-pairs or a pair listed both ways, and covers every unordered pair;
    for n <= 1 the comparison returns no results and no error, and when
    every file reads, [run_parallel_comparison] returns one result per pair,
    in that order. *)
Theorem run_parallel_comparison_pairs (m : fs) (paths : list (list ascii)) (Hd : NoDup paths) :
  2 * length (generate_file_pairs paths) = length paths * (length paths - 1)
  /\ generate_file_pairs paths
     = map (fun '(i, j) => (nth i paths [], nth j paths [])) (combination_indices (length paths))
  /\ NoDup (generate_file_pairs paths)
  /\ (forall x y, In (x, y) (generate_file_pairs paths) ->
        x <> y /\ In x paths /\ In y paths /\ ~ In (y, x) (generate_file_pairs paths))
  /\ (forall x y, In x paths -> In y paths -> x <> y ->
        In (x, y) (generate_file_pairs paths) \/ In (y, x) (generate_file_pairs paths))
  /\ (length paths <= 1 -> run_parallel_comparison m paths = Some [])
  /\ ((forall p, In p paths -> exists c, fs_read m p = Some c) ->
      exists rs, run_parallel_comparison m paths = Some rs
        /\ 2 * length rs = length paths * (length paths - 1)
        /\ Forall2 (fun pq r => compare_pair m (fst pq) (snd pq) = Some r)
                   (generate_file_pairs paths) rs).
Proof.
  destruct (pairs_nodup paths Hd) as [N1 N2].
  split; [apply pairs_length|]. split; [apply pairs_order|].
  split; [exact N1|]. split; [exact N2|]. split; [apply pairs_complete|].
  split.
  - intros Hn. destruct paths as [|x [|y l]]; [reflexivity|reflexivity|simpl in Hn; lia].
  - intros Hr. destruct (starmap_total (compare_pair m) (generate_file_pairs paths)) as (rs & Hs & HF).
    + intros x y Hxy. destruct (N2 x y Hxy) as (_ & Hx & Hy & _).
      destruct (Hr x Hx) as (c1 & Hc1). destruct (Hr y Hy) as (c2 & Hc2).
      destruct (compare_pair_some m x y c1 c2 Hc1 Hc2) as (r & Hc & _). exists r. exact Hc.
    + exists rs. split; [exact Hs|]. split; [|exact HF].
      rewrite <- (Forall2_length HF). apply pairs_length.
Qed.

Lemma run_parallel_comparison_pairs_witness :
  NoDup [path_a; path_b; path_c]
  /\ 2 * length (generate_file_pairs [path_a; path_b; path_c]) = 3 * 2.
Proof.
  assert (Hd : NoDup [path_a; path_b; path_c]) by (apply distinct_paths_NoDup; vm_compute; reflexivity).
  split; [exact Hd|].
  destruct (run_parallel_comparison_pairs (two_files [] []) _ Hd) as (Hl & _). exact Hl.
Defined.

(** C2 (code bug): [SequenceMatcher] keeps its default [autojunk=True]:
    in a second text of 201 characters, [x] (200 occurrences) is popular
    and never seeds a match, so "y" followed by ten [x] against 200 [x]
    followed by "y" reports the single block of "y" and the score 0.94,
    while junk-free matching finds the ten [x] and gives 9.43. *)
Lemma compare_pair_autojunk_counterexample :
  option_map r_blocks (compare_pair (two_files junk_a junk_b) path_a path_b) = Some [(0, 200, 1); (11, 201, 0)]
  /\ option_map r_score (compare_pair (two_files junk_a junk_b) path_a path_b) = Some 94
  /\ get_matching_blocks ascii_dec false junk_a junk_b = Some [(1, 0, 10); (11, 201, 0)]
  /\ score_hundredths 10 (length junk_a + length junk_b) = 943.
Proof. split; [|split; [|split]]; vm_compute; reflexivity. Qed.

(** X15: the score is [round(2.0*M/T*100, 2)] in CPython's float
    arithmetic, with M the total size of the blocks of
    [get_matching_blocks] with [autojunk] on and T the total length, so
    [2M <= T]; it lies in [0, 100], is 100 for two empty texts, and below
    2^36 characters it is a nearest multiple of 0.01 to [2M/T] as a
    percentage; when the second text has fewer than 200 characters the
    blocks are those of junk-free matching. *)
Theorem compare_pair_ratio m p q r (H : compare_pair m p q = Some r) :
  r_score r = score_hundredths (sum_sizes (r_blocks r)) (length (r_code1 r) + length (r_code2 r))
  /\ 2 * sum_sizes (r_blocks r) <= length (r_code1 r) + length (r_code2 r)
  /\ r_score r <= 10000
  /\ (length (r_code1 r) + length (r_code2 r) = 0 -> r_score r = 10000)
  /\ (length (r_code1 r) + length (r_code2 r) <> 0 ->
      (Z.of_nat (length (r_code1 r) + length (r_code2 r)) < 2 ^ 36)%Z ->
        2 * (r_score r * (length (r_code1 r) + length (r_code2 r)))
          <= 2 * (20000 * sum_sizes (r_blocks r)) + (length (r_code1 r) + length (r_code2 r))
        /\ 2 * (20000 * sum_sizes (r_blocks r))
          <= 2 * (r_score r * (length (r_code1 r) + length (r_code2 r))) + (length (r_code1 r) + length (r_code2 r)))
  /\ get_matching_blocks ascii_dec true (r_code1 r) (r_code2 r) = Some (r_blocks r)
  /\ (length (r_code2 r) < 200 ->
        get_matching_blocks ascii_dec false (r_code1 r) (r_code2 r) = Some (r_blocks r)).
Proof.
  destruct (compare_pair_inv m p q r H)
    as (body & _ & _ & _ & _ & Hg & Hb & Hs & _ & _ & Hl1 & Hl2).
  assert (HM : 2 * sum_sizes (r_blocks r) <= length (r_code1 r) + length (r_code2 r)).
  { rewrite Hb, sum_sizes_snoc. simpl. lia. }
  split; [exact Hs|]. split; [exact HM|].
  split; [rewrite Hs; apply score_le; exact HM|].
  split; [intros H0; rewrite Hs, H0; reflexivity|].
  split; [intros H0 Hbig; rewrite Hs; apply score_near; assumption|].
  split; [exact Hg|].
  intros Hshort. rewrite <- (get_matching_blocks_autojunk ascii_dec (r_code1 r) (r_code2 r) Hshort).
  exact Hg.
Qed.

Lemma compare_pair_ratio_witness :
  exists r, compare_pair (two_files (chars "abc") (chars "abd")) path_a path_b = Some r
  /\ r_score r <= 10000.
Proof.
  destruct (compare_pair (two_files (chars "abc") (chars "abd")) path_a path_b) as [r|] eqn:H;
    [|vm_compute in H; discriminate].
  exists r. split; [reflexivity|].
  destruct (compare_pair_ratio _ _ _ r H) as (_ & _ & Hle & _). exact Hle.
Defined.

(** C3: two files with the same content score 100.00. *)
Theorem compare_pair_identical m p1 p2 c
  (H1 : fs_read m p1 = Some c) (H2 : fs_read m p2 = Some c) :
  exists r, compare_pair m p1 p2 = Some r /\ r_score r = 10000.
Proof.
  destruct (compare_pair_some m p1 p2 c c H1 H2) as (r & Hr & E1 & E2).
  exists r. split; [exact Hr|]. apply (compare_pair_same_score m p1 p2 r Hr). congruence.
Qed.

Lemma compare_pair_identical_witness :
  fs_read (two_files (chars "abc") (chars "abc")) path_a = Some (chars "abc")
  /\ fs_read (two_files (chars "abc") (chars "abc")) path_b = Some (chars "abc")
  /\ exists r, compare_pair (two_files (chars "abc") (chars "abc")) path_a path_b = Some r /\ r_score r = 10000.
Proof.
  assert (H1 : fs_read (two_files (chars "abc") (chars "abc")) path_a = Some (chars "abc")) by (vm_compute; reflexivity).
  assert (H2 : fs_read (two_files (chars "abc") (chars "abc")) path_b = Some (chars "abc")) by (vm_compute; reflexivity).
  split; [exact H1|]. split; [exact H2|].
  exact (compare_pair_identical _ _ _ _ H1 H2).
Defined.

(** C4 (counterexample): "tide" against "diet" scores 25.0, and 50.0 the
    other way round. *)
Lemma compare_pair_asymmetric :
  option_map r_score (compare_pair (two_files word_a word_b) path_a path_b) = Some 2500
  /\ option_map r_score (compare_pair (two_files word_a word_b) path_b path_a) = Some 5000.
Proof. split; vm_compute; reflexivity. Qed.

(** C4: comparing in both orders succeeds and swaps the name and text
    columns; both scores lie in [0, 100], and both are 100 when the
    contents are equal. *)
Theorem compare_pair_swap m p q c1 c2
  (H1 : fs_read m p = Some c1) (H2 : fs_read m q = Some c2) :
  exists r1 r2, compare_pair m p q = Some r1 /\ compare_pair m q p = Some r2
  /\ r_file1 r1 = r_file2 r2 /\ r_file2 r1 = r_file1 r2
  /\ r_code1 r1 = r_code2 r2 /\ r_code2 r1 = r_code1 r2
  /\ r_score r1 <= 10000 /\ r_score r2 <= 10000
  /\ (c1 = c2 -> r_score r1 = 10000 /\ r_score r2 = 10000).
Proof.
  destruct (compare_pair_some m p q c1 c2 H1 H2) as (r1 & Hr1 & E11 & E12).
  destruct (compare_pair_some m q p c2 c1 H2 H1) as (r2 & Hr2 & E21 & E22).
  exists r1, r2. split; [exact Hr1|]. split; [exact Hr2|].
  destruct (compare_pair_inv m p q r1 Hr1) as (_ & _ & _ & F11 & F12 & _).
  destruct (compare_pair_inv m q p r2 Hr2) as (_ & _ & _ & F21 & F22 & _).
  split; [congruence|]. split; [congruence|]. split; [congruence|]. split; [congruence|].
  split; [exact (compare_pair_score_le m p q r1 Hr1)|].
  split; [exact (compare_pair_score_le m q p r2 Hr2)|].
  intros E. split.
  - apply (compare_pair_same_score m p q r1 Hr1). congruence.
  - apply (compare_pair_same_score m q p r2 Hr2). congruence.
Qed.

Lemma compare_pair_swap_witness :
  fs_read (two_files word_a word_b) path_a = Some word_a
  /\ fs_read (two_files word_a word_b) path_b = Some word_b
  /\ exists r1 r2, compare_pair (two_files word_a word_b) path_a path_b = Some r1
     /\ compare_pair (two_files word_a word_b) path_b path_a = Some r2
     /\ r_file1 r1 = r_file2 r2.
Proof.
  assert (H1 : fs_read (two_files word_a word_b) path_a = Some word_a) by (vm_compute; reflexivity).
  assert (H2 : fs_read (two_files word_a word_b) path_b = Some word_b) by (vm_compute; reflexivity).
  split; [exact H1|]. split; [exact H2|].
  destruct (compare_pair_swap _ _ _ _ _ H1 H2) as (r1 & r2 & A1 & A2 & A3 & _).
  exists r1, r2. split; [exact A1|]. split; [exact A2|]. exact A3.
Defined.

(** C5 (code bug): with the default [autojunk=True], "zx" against 200
    [x] gives only the sentinel block, although a[1] = b[0] = [x]: the
    popular [x] never seeds a match, and a match is left in the gap before
    the sentinel. Junk-free matching returns the block (1, 0, 1). *)
Lemma compare_pair_gap_counterexample :
  option_map r_blocks (compare_pair (two_files gap_a gap_b) path_a path_b) = Some [(2, 200, 0)]
  /\ option_map r_score (compare_pair (two_files gap_a gap_b) path_a path_b) = Some 0
  /\ matches gap_a gap_b 1 0 1
  /\ get_matching_blocks ascii_dec false gap_a gap_b = Some [(1, 0, 1); (2, 200, 0)].
Proof.
  split; [vm_compute; reflexivity|]. split; [vm_compute; reflexivity|]. split.
  - intros t Ht. replace t with 0 by lia. exists "x"%char. split; reflexivity.
  - vm_compute. reflexivity.
Qed.

(** X16: the blocks end with the sentinel; they do not overlap (each ends,
    in both texts, before the next starts); their A offsets strictly
    ascend; every block but the sentinel is a non-empty common substring;
    and the score is computed from the sum of their sizes. *)
Theorem compare_pair_blocks m p q r (H : compare_pair m p q = Some r) :
  exists body, r_blocks r = body ++ [(length (r_code1 r), length (r_code2 r), 0)]
  /\ StronglySorted before (r_blocks r)
  /\ StronglySorted (fun x y => t_a x < t_a y) (r_blocks r)
  /\ Forall (fun t => 1 <= t_size t /\ block_ok (r_code1 r) (r_code2 r) t) body
  /\ r_score r = score_hundredths (sum_sizes (r_blocks r)) (length (r_code1 r) + length (r_code2 r)).
Proof.
  destruct (compare_pair_inv m p q r H)
    as (body & _ & _ & _ & _ & _ & Hb & Hs & HS & HF & _).
  exists body. split; [exact Hb|]. split; [exact HS|]. split.
  - rewrite Hb in *. apply sorted_a_strict; [exact HS|].
    eapply Forall_impl; [|exact HF]. intros t [Ht _]. exact Ht.
  - split; [exact HF | exact Hs].
Qed.

Lemma compare_pair_blocks_witness :
  exists r, compare_pair (two_files swap_a swap_b) path_a path_b = Some r
  /\ StronglySorted before (r_blocks r).
Proof.
  destruct (compare_pair (two_files swap_a swap_b) path_a path_b) as [r|] eqn:H;
    [|vm_compute in H; discriminate].
  exists r. split; [reflexivity|].
  destruct (compare_pair_blocks _ _ _ r H) as (body & _ & HS & _). exact HS.
Defined.

(** C6 (counterexample): a name with a carriage return is written
    unquoted and read back as two rows. *)
Lemma carriage_return_name_splits_row :
  driver_selects (r_file1 cr_result) = true
  /\ read_csv (save_results_to_csv [cr_result])
     = (header, [None; Some (chars "b.py", chars "c.py", 10000)]).
Proof. split; vm_compute; reflexivity. Qed.

(** C6: the header is File 1, File 2, Similarity %; the table written
    depends only on the names and scores; when the names hold no carriage
    return and end in an extension of the driver, reading it back gives
    each result's triple, in order. *)
Theorem save_results_round_trip (rs : list result)
  (Hrs : Forall (fun r => ~ In cr (r_file1 r) /\ ~ In cr (r_file2 r)
                          /\ driver_selects (r_file1 r) = true /\ driver_selects (r_file2 r) = true
                          /\ r_score r <= 10000) rs) :
  header = [chars "File 1"; chars "File 2"; chars "Similarity %"]
  /\ read_csv (save_results_to_csv rs)
     = (header, map (fun r => Some (r_file1 r, r_file2 r, r_score r)) rs)
  /\ (forall rs', map (fun r => (r_file1 r, r_file2 r, r_score r)) rs'
                  = map (fun r => (r_file1 r, r_file2 r, r_score r)) rs ->
        save_results_to_csv rs' = save_results_to_csv rs).
Proof.
  split; [reflexivity|]. split.
  - apply read_saved. eapply Forall_impl; [|exact Hrs]. intros r (A & B & C & D & _). auto.
  - intros rs' E. apply save_row_fields.
    replace (map row_fields rs') with
      (map (fun t => let '(f1, f2, s) := t in [f1; f2; float_repr s])
           (map (fun r => (r_file1 r, r_file2 r, r_score r)) rs'))
      by (rewrite map_map; reflexivity).
    rewrite E, map_map. reflexivity.
Qed.

Lemma save_results_round_trip_witness :
  read_csv (save_results_to_csv [mk_result (chars "a.py") (chars "b.py") 5000 [] [] []])
  = (header, [Some (chars "a.py", chars "b.py", 5000)]).
Proof.
  assert (Hrs : Forall (fun r => ~ In cr (r_file1 r) /\ ~ In cr (r_file2 r)
                          /\ driver_selects (r_file1 r) = true /\ driver_selects (r_file2 r) = true
                          /\ r_score r <= 10000) [mk_result (chars "a.py") (chars "b.py") 5000 [] [] []]).
  { constructor; [|constructor]. cbn [r_file1 r_file2 r_score].
    split; [|split; [|split; [|split]]].
    - intros Hc; vm_compute in Hc; repeat (destruct Hc as [Hc|Hc]; [discriminate|]); exact Hc.
    - intros Hc; vm_compute in Hc; repeat (destruct Hc as [Hc|Hc]; [discriminate|]); exact Hc.
    - vm_compute; reflexivity.
    - vm_compute; reflexivity.
    - apply Nat.leb_le; vm_compute; reflexivity. }
  destruct (save_results_round_trip _ Hrs) as (_ & Hr & _). exact Hr.
Defined.

(** C7 (counterexample): when the comparison raises, [main] returns
    without writing the table and the process exits with 0, although the
    upload directory exists, preprocessing yields files and saving would
    not fail. *)
Lemma main_comparison_failure_exits_zero :
  main env_compare_fails = Returned false "error"
  /\ exit_status (main env_compare_fails) = 0
  /\ uploads env_compare_fails <> None
  /\ filter (preprocess_ok env_compare_fails)
       (run_parallel_preprocessing_files [chars "a.py"; chars "b.py"]) = [upload_a; upload_b]
  /\ save_raises env_compare_fails = false.
Proof. split; [|split; [|split; [|split]]]; try discriminate; vm_compute; reflexivity. Qed.

(** C7: the process exits non-zero exactly when the directories are
    created and the upload directory is absent; the table is written
    exactly when every step succeeds; every other run returns with the
    stage "error" and exits with 0. *)
Theorem main_outcomes (e : env) :
  (exit_status (main e) <> 0 <-> makedirs_ok e = true /\ uploads e = None)
  /\ (main e = Returned true "completed" <->
      makedirs_ok e = true
      /\ exists listing, uploads e = Some listing
         /\ filter (fun f => is_file e f && main_selects f) listing <> []
         /\ preprocessing_raises e = false
         /\ filter (preprocess_ok e) (run_parallel_preprocessing_files listing) <> []
         /\ comparison_raises e = false /\ save_raises e = false)
  /\ (main e = Raised \/ main e = Returned true "completed" \/ main e = Returned false "error").
Proof.
  destruct e as [mk up isf pr pok cr sv]. unfold main.
  cbn [makedirs_ok uploads is_file preprocessing_raises preprocess_ok comparison_raises save_raises].
  destruct mk; cbn [negb].
  2:{ split; [|split]; [split; [intros H; exfalso; apply H; reflexivity | intros [H _]; discriminate]
      | split; [intros H; discriminate | intros [H _]; discriminate] | right; right; reflexivity]. }
  destruct up as [l|].
  2:{ split; [|split]; [split; [intros _; split; reflexivity | intros _; discriminate]
      | split; [intros H; discriminate | intros (_ & l & H & _); discriminate] | left; reflexivity]. }
  destruct (filter (fun f => isf f && main_selects f) l) as [|f1 r1] eqn:E1.
  { split; [|split]; [split; [intros H; exfalso; apply H; reflexivity | intros [_ H]; discriminate]
      | split; [intros H; discriminate | intros (_ & l' & H & H1 & _); injection H as <-; contradiction]
      | right; right; reflexivity]. }
  destruct pr.
  { split; [|split]; [split; [intros H; exfalso; apply H; reflexivity | intros [_ H]; discriminate]
      | split; [intros H; discriminate | intros (_ & l' & H & _ & H2 & _); discriminate]
      | right; right; reflexivity]. }
  destruct (filter pok (run_parallel_preprocessing_files l)) as [|f2 r2] eqn:E2.
  { split; [|split]; [split; [intros H; exfalso; apply H; reflexivity | intros [_ H]; discriminate]
      | split; [intros H; discriminate | intros (_ & l' & H & _ & _ & H3 & _); injection H as <-; contradiction]
      | right; right; reflexivity]. }
  destruct cr; [|destruct sv].
  - split; [|split]; [split; [intros H; exfalso; apply H; reflexivity | intros [_ H]; discriminate]
      | split; [intros H; discriminate | intros (_ & l' & _ & _ & _ & _ & H & _); discriminate]
      | right; right; reflexivity].
  - split; [|split]; [split; [intros H; exfalso; apply H; reflexivity | intros [_ H]; discriminate]
      | split; [intros H; discriminate | intros (_ & l' & _ & _ & _ & _ & _ & H); discriminate]
      | right; right; reflexivity].
  - split; [|split]; [split; [intros H; exfalso; apply H; reflexivity | intros [_ H]; discriminate]
      | split; [intros _; split; [reflexivity|]; exists l; rewrite E1, E2;
                repeat split; discriminate | reflexivity]
      | right; left; reflexivity].
Qed.

(** C8: [main] and [VALID_EXTENSIONS] accept [.cc], [.cxx] and
    upper-case extensions, but the driver of the preprocessing selects by
    the case-sensitive suffixes .py, .cpp, .java, .h, so it drops them; a
    run of [.cc] files only ends with the stage "error". *)
Theorem driver_skips_cc_cxx :
  main_selects (chars "a.cc") = true /\ main_selects (chars "b.cxx") = true
  /\ main_selects (chars "C.PY") = true
  /\ in_list (chars ".cc") VALID_EXTENSIONS = true /\ in_list (chars ".cxx") VALID_EXTENSIONS = true
  /\ run_parallel_preprocessing_files [chars "a.cc"; chars "b.cxx"; chars "C.PY"] = []
  /\ main env_cc = Returned false "error".
Proof. repeat split; vm_compute; reflexivity. Qed.

(** C9: a.py holding "import os\n#hi\nprint(1)" and b.py holding
    "print(1)" are both preprocessed to "print(1)", and their pair scores
    100.00. *)
Theorem example_a_b :
  remove_python_boilerplate (chars "import os" ++ [nl] ++ chars "#hi" ++ [nl] ++ chars "print(1)")
    = chars "print(1)"
  /\ snd (run_parallel_preprocessing uploads_fs [chars "a.py"; chars "b.py"])
     = [(upload_a, Some path_a); (upload_b, Some path_b)]
  /\ fs_read (fst (run_parallel_preprocessing uploads_fs [chars "a.py"; chars "b.py"])) path_a
     = Some (chars "print(1)")
  /\ fs_read (fst (run_parallel_preprocessing uploads_fs [chars "a.py"; chars "b.py"])) path_b
     = Some (chars "print(1)")
  /\ option_map (map r_score)
       (run_parallel_comparison (fst (run_parallel_preprocessing uploads_fs [chars "a.py"; chars "b.py"]))
          [path_a; path_b])
     = Some [10000].
Proof. split; [|split; [|split; [|split]]]; vm_compute; reflexivity. Qed.

(** C10: the blocks of [compare_pair] are never empty and end with
    (len(code1), len(code2), 0); with no common content they are that
    sentinel alone. *)
Theorem compare_pair_sentinel m p q r (H : compare_pair m p q = Some r) :
  r_blocks r <> []
  /\ last (r_blocks r) (0, 0, 0) = (length (r_code1 r), length (r_code2 r), 0)
  /\ (sum_sizes (r_blocks r) = 0 -> r_blocks r = [(length (r_code1 r), length (r_code2 r), 0)]).
Proof.
  destruct (compare_pair_inv m p q r H)
    as (body & _ & _ & _ & _ & _ & Hb & _ & _ & HF & _).
  rewrite Hb. split; [|split].
  - intros E. destruct body; discriminate.
  - apply last_last.
  - rewrite sum_sizes_snoc. intros E. destruct body as [|t body]; [reflexivity|].
    inversion HF as [|? ? [Ht _] _]; subst. simpl in E. lia.
Qed.

Lemma compare_pair_sentinel_witness :
  exists r, compare_pair (two_files (chars "abc") (chars "xyz")) path_a path_b = Some r
  /\ r_blocks r <> [].
Proof.
  destruct (compare_pair (two_files (chars "abc") (chars "xyz")) path_a path_b) as [r|] eqn:H;
    [|vm_compute in H; discriminate].
  exists r. split; [reflexivity|].
  destruct (compare_pair_sentinel _ _ _ r H) as (Hn & _). exact Hn.
Defined.

End Claims.

(* ===================================================================== *)
(** ** The normal form of the preprocessed text *)
(* ===================================================================== *)

Module NormFacts.
Import Py Preprocessing.
Local Open Scope list_scope.
Local Open Scope nat_scope.

Lemma is_space_sp : is_space " "%char = true.
Proof. reflexivity. Qed.

Lemma lower_char_not_upper c : ~ (65 <= nat_of_ascii (lower_char c) <= 90).
Proof.
  unfold lower_char. destruct ((65 <=? nat_of_ascii c) && (nat_of_ascii c <=? 90)) eqn:E.
  - apply andb_true_iff in E as [E1 E2]. apply Nat.leb_le in E1, E2.
    rewrite nat_ascii_embedding by lia. lia.
  - intros [H1 H2]. apply Nat.leb_le in H1. apply Nat.leb_le in H2. rewrite H1, H2 in E. discriminate.
Qed.

Lemma lower_char_id c : ~ (65 <= nat_of_ascii c <= 90) -> lower_char c = c.
Proof.
  intros H. unfold lower_char.
  destruct ((65 <=? nat_of_ascii c) && (nat_of_ascii c <=? 90)) eqn:E; [|reflexivity].
  apply andb_true_iff in E as [E1 E2]. apply Nat.leb_le in E1, E2. lia.
Qed.

Lemma upper_not_space c : 65 <= nat_of_ascii c <= 90 -> is_space c = false.
Proof.
  intros H. unfold is_space.
  destruct (Nat.leb_spec 9 (nat_of_ascii c)), (Nat.leb_spec (nat_of_ascii c) 13),
    (Nat.leb_spec 28 (nat_of_ascii c)), (Nat.leb_spec (nat_of_ascii c) 32); simpl; lia.
Qed.

Lemma space_eq c : is_space c = true -> c = " "%char \/ c <> " "%char.
Proof. intros _. destruct (ascii_dec c " "); auto. Qed.

(** [span_spaces] drops a run of whitespace. *)
Lemma span_spaces_split s :
  exists pre, s = pre ++ span_spaces s /\ Forall (fun c => is_space c = true) pre
  /\ (forall c r, span_spaces s = c :: r -> is_space c = false).
Proof.
  induction s as [|c r IH]; simpl.
  - exists []. split; [reflexivity|]. split; [constructor|]. intros ? ? H; discriminate.
  - destruct (is_space c) eqn:E.
    + destruct IH as (pre & H1 & H2 & H3). exists (c :: pre). simpl. rewrite <- H1.
      split; [reflexivity|]. split; [constructor; auto|exact H3].
    + exists []. split; [reflexivity|]. split; [constructor|]. intros c' r' H; injection H as <- <-. exact E.
Qed.

Lemma strip_split s :
  exists pre suf, s = pre ++ strip s ++ suf
  /\ (forall c r, strip s = c :: r -> is_space c = false)
  /\ (forall c r, strip s = r ++ [c] -> is_space c = false).
Proof.
  destruct (span_spaces_split s) as (p1 & E1 & _ & H1).
  destruct (span_spaces_split (rev (span_spaces s))) as (p2 & E2 & _ & H2).
  unfold strip. exists p1, (rev p2). split; [|split].
  - rewrite E1 at 1. f_equal. rewrite <- rev_involutive at 1. rewrite E2 at 1.
    rewrite rev_app_distr. reflexivity.
  - intros c r H.
    assert (Hv : span_spaces s = rev (span_spaces (rev (span_spaces s))) ++ rev p2).
    { rewrite <- (rev_involutive (span_spaces s)) at 1. rewrite E2 at 1. apply rev_app_distr. }
    rewrite H in Hv. exact (H1 _ _ Hv).
  - intros c r H. apply (f_equal (@rev ascii)) in H. rewrite rev_involutive, rev_app_distr in H.
    simpl in H. exact (H2 _ _ H).
Qed.

Lemma collapse_chars b s c :
  In c (collapse_spaces b s) -> c = " "%char \/ (In c s /\ is_space c = false).
Proof.
  revert b. induction s as [|d r IH]; intros b H; simpl in H; [contradiction|].
  assert (IH' : In c (collapse_spaces true r) \/ In c (collapse_spaces false r) ->
                c = " "%char \/ (In c (d :: r) /\ is_space c = false)).
  { intros [Hi|Hi]; destruct (IH _ Hi) as [?|[? ?]]; simpl; auto. }
  destruct (is_space d) eqn:E; [destruct b|].
  - auto.
  - destruct H as [<-|H]; auto.
  - destruct H as [<-|H]; [right; split; [left|]; auto|auto].
Qed.

Lemma collapse_head s r : collapse_spaces true s <> " "%char :: r.
Proof.
  induction s as [|d s IH]; simpl; [discriminate|].
  destruct (is_space d) eqn:E; [exact IH|].
  intros H. injection H as H _. subst d. discriminate.
Qed.

Lemma collapse_no_double b s l1 l2 :
  collapse_spaces b s <> l1 ++ " "%char :: " "%char :: l2.
Proof.
  revert b l1. induction s as [|d s IH]; intros b l1; simpl.
  - destruct l1; discriminate.
  - destruct (is_space d) eqn:E.
    + destruct b; [apply IH|].
      destruct l1 as [|x l1]; simpl; intros H; injection H; intros H2.
      * exact (collapse_head s _ H2).
      * intros _. exact (IH _ _ H2).
    + destruct l1 as [|x l1]; simpl; intros H; injection H; intros H2 H1.
      * subst d. discriminate.
      * exact (IH _ _ H2).
Qed.

(** An ASCII upper-case letter, [A] to [Z]: on the ASCII text of this
    model, the upper-case letters. *)
Definition ascii_upper (c : ascii) : Prop := 65 <= nat_of_ascii c <= 90.

Lemma normalize_chars s c :
  In c (normalize_code s) -> c = " "%char \/ (exists d, In d s /\ lower_char d = c /\ is_space c = false).
Proof.
  unfold normalize_code. destruct (strip_split (collapse_spaces false (map lower_char s))) as (p & q & E & _).
  intros H. assert (H' : In c (collapse_spaces false (map lower_char s))).
  { rewrite E. apply in_or_app. right. apply in_or_app. left. exact H. }
  destruct (collapse_chars _ _ _ H') as [?|[Hin Hs]]; [auto|].
  apply in_map_iff in Hin as (d & Hd & Hin). right. exists d. auto.
Qed.

(** The shape of [normalize_code]'s result. *)
Lemma normalize_form s :
  (forall c, In c (normalize_code s) -> ~ ascii_upper c /\ (is_space c = true -> c = " "%char))
  /\ (forall l1 l2, normalize_code s <> l1 ++ " "%char :: " "%char :: l2)
  /\ (forall r, normalize_code s <> " "%char :: r)
  /\ (forall r, normalize_code s <> r ++ [" "%char]).
Proof.
  unfold normalize_code.
  destruct (strip_split (collapse_spaces false (map lower_char s))) as (p & q & E & Hh & Ht).
  split; [|split; [|split]].
  - intros c Hc. pose proof (normalize_chars s c Hc) as [->|(d & _ & <- & Hs)].
    + split; [unfold ascii_upper; change (nat_of_ascii " "%char) with 32; lia|auto].
    + split; [apply lower_char_not_upper|]. intros H; rewrite H in Hs; discriminate.
  - intros l1 l2 H. rewrite H in E. apply (collapse_no_double false (map lower_char s) (p ++ l1) (l2 ++ q)).
    rewrite E, <- !app_assoc. reflexivity.
  - intros r H. specialize (Hh _ _ H). discriminate.
  - intros r H. specialize (Ht _ _ H). discriminate.
Qed.

Lemma collapse_fixed b t :
  (forall c, In c t -> is_space c = true -> c = " "%char) ->
  (forall l1 l2, t <> l1 ++ " "%char :: " "%char :: l2) ->
  (b = true -> forall r, t <> " "%char :: r) ->
  collapse_spaces b t = t.
Proof.
  revert b. induction t as [|c t IH]; intros b Hc Hd Hb; simpl; [reflexivity|].
  destruct (is_space c) eqn:E.
  - assert (c = " "%char) as -> by (apply Hc; [left|]; auto).
    destruct b; [exfalso; exact (Hb eq_refl t eq_refl)|].
    f_equal. apply IH.
    + intros d Hd' Hs. apply Hc; [right|]; auto.
    + intros l1 l2 H. apply (Hd (" "%char :: l1) l2). rewrite H. reflexivity.
    + intros _ r H. apply (Hd [] r). rewrite H. reflexivity.
  - f_equal. apply IH.
    + intros d Hd' Hs. apply Hc; [right|]; auto.
    + intros l1 l2 H. apply (Hd (c :: l1) l2). rewrite H. reflexivity.
    + intros H. discriminate.
Qed.

Lemma span_spaces_fixed t : (forall r, t <> " "%char :: r) ->
  (forall c, In c t -> is_space c = true -> c = " "%char) -> span_spaces t = t.
Proof.
  destruct t as [|c t]; intros H1 H2; simpl; [reflexivity|].
  destruct (is_space c) eqn:E; [|reflexivity].
  exfalso. apply (H1 t). f_equal. apply H2; [left|]; auto.
Qed.

(** [normalize_code] leaves its own output unchanged. *)
Lemma normalize_idem s : normalize_code (normalize_code s) = normalize_code s.
Proof.
  destruct (normalize_form s) as (Hc & Hd & Hh & Ht).
  set (t := normalize_code s) in *.
  assert (Hl : map lower_char t = t).
  { clear Hd Hh Ht. induction t as [|c t IH]; simpl; [reflexivity|].
    rewrite lower_char_id by (apply Hc; left; auto). f_equal. apply IH. intros d Hd'. apply Hc. right. auto. }
  assert (Hsp : forall c, In c t -> is_space c = true -> c = " "%char) by (intros c Hin; apply (Hc c Hin)).
  unfold normalize_code at 1. rewrite Hl, collapse_fixed by (auto || (intros; discriminate)).
  unfold strip. rewrite (span_spaces_fixed t Hh Hsp).
  rewrite span_spaces_fixed.
  - apply rev_involutive.
  - intros r H. apply (Ht (rev r)). rewrite <- (rev_involutive t), H. reflexivity.
  - intros c Hin. apply Hsp. apply in_rev. exact Hin.
Qed.

Lemma ascii_eqb_refl' c : ascii_eqb c c = true.
Proof. unfold ascii_eqb. destruct (ascii_dec c c); congruence. Qed.

Lemma ascii_eqb_true c d : ascii_eqb c d = true -> c = d.
Proof. unfold ascii_eqb. destruct (ascii_dec c d); congruence. Qed.

Lemma drop_line_suffix s : exists p, s = p ++ drop_line s.
Proof.
  induction s as [|c r IH]; simpl; [exists []; reflexivity|].
  destruct (ascii_eqb c nl); [exists []; reflexivity|].
  destruct IH as [p Hp]. exists (c :: p). simpl. f_equal. exact Hp.
Qed.

Lemma span_spaces_suffix s : exists p, s = p ++ span_spaces s.
Proof. destruct (span_spaces_split s) as (p & H & _). exists p. exact H. Qed.

Lemma suffix_length {A} (p s : list A) : length s <= length (p ++ s).
Proof. rewrite length_app. lia. Qed.

Lemma starts_with_hash s : starts_with (chars "#") s = true -> exists r, s = "#"%char :: r.
Proof.
  destruct s as [|c r]; simpl; [discriminate|].
  rewrite andb_true_r. intros H. apply ascii_eqb_true in H. subst. eauto.
Qed.

Lemma sub_to_eol_hash fuel s : length s <= fuel -> ~ In "#"%char (sub_to_eol (chars "#") fuel s).
Proof.
  revert s. induction fuel as [|f IH]; intros s Hl.
  - destruct s; simpl in *; [auto|lia].
  - destruct s as [|c r]; [simpl; auto|]. cbn [sub_to_eol].
    destruct (starts_with (chars "#") (c :: r)) eqn:E.
    + apply IH. change (skipn (length (chars "#")) (c :: r)) with r. destruct (drop_line_suffix r) as [p Hp]. simpl in Hl.
      assert (length (drop_line r) <= length r) by (rewrite Hp at 2; rewrite length_app; lia).
      simpl. lia.
    + intros [H|H].
      * subst c. vm_compute in E. discriminate.
      * simpl in Hl. exact (IH r ltac:(lia) H).
Qed.

Definition suffix_matcher (m : list ascii -> option (list ascii)) : Prop :=
  forall s r, m s = Some r -> exists p, s = p ++ r.

Lemma sub_line_start_chars m fuel bol s c :
  suffix_matcher m -> In c (sub_line_start m fuel bol s) -> In c s.
Proof.
  intros Hm. revert bol s. induction fuel as [|f IH]; intros bol s H; [exact H|].
  destruct s as [|d r]; [exact H|]. cbn [sub_line_start] in H.
  destruct (if bol then m (d :: r) else None) eqn:E.
  - destruct bol; [|discriminate]. destruct (Hm _ _ E) as [p Hp].
    rewrite Hp. apply in_or_app. right. exact (IH _ _ H).
  - destruct H as [<-|H]; [left; reflexivity|right; exact (IH _ _ H)].
Qed.

Lemma m_kw_line_suffix kw : suffix_matcher (m_kw_line kw).
Proof.
  intros s r H. unfold m_kw_line in H.
  destruct (starts_with (chars kw) (span_spaces s)); [|discriminate].
  injection H as <-. destruct (span_spaces_suffix s) as [p1 H1].
  destruct (drop_line_suffix (span_spaces s)) as [p2 H2].
  exists (p1 ++ p2). rewrite <- app_assoc, <- H2. exact H1.
Qed.

Lemma m_from_import_suffix : suffix_matcher m_from_import.
Proof.
  intros s r H. unfold m_from_import in H.
  destruct (_ && _); [|discriminate].
  injection H as <-. destruct (span_spaces_suffix s) as [p1 H1].
  destruct (drop_line_suffix (span_spaces s)) as [p2 H2].
  exists (p1 ++ p2). rewrite <- app_assoc, <- H2. exact H1.
Qed.

Lemma lower_char_hash d : lower_char d = "#"%char -> d = "#"%char.
Proof.
  unfold lower_char. destruct ((65 <=? nat_of_ascii d) && (nat_of_ascii d <=? 90)) eqn:E; [|auto].
  apply andb_true_iff in E as [E1 E2]. apply Nat.leb_le in E1, E2. intros H.
  apply (f_equal nat_of_ascii) in H. rewrite nat_ascii_embedding in H by lia.
  change (nat_of_ascii "#"%char) with 35 in H. lia.
Qed.

Lemma remove_python_no_hash s : ~ In "#"%char (remove_python_boilerplate s).
Proof.
  unfold remove_python_boilerplate. intros H.
  destruct (normalize_chars _ _ H) as [E|(d & Hd & Hl & _)]; [discriminate|].
  apply lower_char_hash in Hl. subst d.
  apply (sub_line_start_chars _ _ _ _ _ m_from_import_suffix) in Hd.
  apply (sub_line_start_chars _ _ _ _ _ (m_kw_line_suffix _)) in Hd.
  exact (sub_to_eol_hash _ _ (le_n _) Hd).
Qed.
End NormFacts.

(* ===================================================================== *)
(** ** Texts with no character in common *)
(* ===================================================================== *)

Module CompareFacts.
Import Py Difflib Props BlockFacts Preprocessing Comparison FloatFacts Scores.

(** Two texts with no character in common have no real block. *)
Lemma compare_pair_disjoint m p q c1 c2 :
  fs_read m p = Some c1 -> fs_read m q = Some c2 ->
  (forall c, In c c1 -> ~ In c c2) ->
  compare_pair m p q =
    Some (mk_result (basename p) (basename q)
            (if length c1 + length c2 =? 0 then 10000 else 0)
            c1 c2 [(length c1, length c2, 0)]).
Proof.
  intros H1 H2 Hd. destruct (compare_pair_some m p q c1 c2 H1 H2) as (r & Hr & E1 & E2).
  rewrite Hr. destruct (compare_pair_inv m p q r Hr)
    as (body & _ & _ & F1 & F2 & _ & Hb & Hs & _ & HF & _).
  subst c1 c2.
  assert (body = []) as ->.
  { destruct body as [|t body]; [reflexivity|exfalso].
    inversion HF as [|? ? [Hk Hok] _]; subst.
    destruct (Hok 0 ltac:(lia)) as (c & C1 & C2).
    apply (Hd c); eapply nth_error_In; eassumption. }
  simpl in Hb. rewrite Hb in Hs. simpl in Hs. destruct r; simpl in *. subst.
  rewrite score_zero. reflexivity.
Qed.
End CompareFacts.

(* ===================================================================== *)
(** ** The preprocessing run, file by file *)
(* ===================================================================== *)

Module PrepFacts.
Import Py Difflib Props BlockFacts Preprocessing Comparison Scores CsvFacts.
Local Open Scope list_scope.

Definition out_path (f : list ascii) : list ascii := chars "data/preprocessed/" ++ basename f.

Lemma fs_read_write m p q c :
  fs_read (fs_write m p c) q = if list_eq_dec ascii_dec q p then Some c else fs_read m q.
Proof. reflexivity. Qed.

Lemma preprocess_file_frame m g p :
  p <> out_path g -> fs_read (fst (preprocess_file m g)) p = fs_read m p.
Proof.
  intros H. unfold preprocess_file. destruct (fs_read m g); [|reflexivity].
  simpl. destruct (list_eq_dec ascii_dec p _); [contradiction|reflexivity].
Qed.

Lemma preprocess_file_snd m m' f :
  fs_read m f = fs_read m' f -> snd (preprocess_file m f) = snd (preprocess_file m' f).
Proof. intros H. unfold preprocess_file. rewrite H. destruct (fs_read m' f); reflexivity. Qed.

Lemma preprocess_file_out m m' f :
  fs_read m f = fs_read m' f -> fs_read m (out_path f) = fs_read m' (out_path f) ->
  fs_read (fst (preprocess_file m f)) (out_path f) = fs_read (fst (preprocess_file m' f)) (out_path f).
Proof.
  intros H1 H2. unfold preprocess_file. rewrite H1. destruct (fs_read m' f); [|exact H2].
  cbv zeta. cbn [fst fs_write fs_read]. unfold out_path. destruct (list_eq_dec _ _ _) as [e|n]; [reflexivity|].
  exfalso. apply n. reflexivity.
Qed.

Lemma preprocess_all_frame m files p :
  ~ In p (map out_path files) -> fs_read (fst (preprocess_all m files)) p = fs_read m p.
Proof.
  revert m. induction files as [|g r IH]; intros m H; [reflexivity|].
  simpl in H. simpl. destruct (preprocess_file m g) as [m1 res] eqn:E.
  destruct (preprocess_all m1 r) as [m2 ress] eqn:E2. simpl.
  change m2 with (fst (m2, ress)). rewrite <- E2, IH by tauto.
  change m1 with (fst (m1, res)). rewrite <- E. apply preprocess_file_frame. intros ->. tauto.
Qed.

Lemma preprocess_all_snd m files :
  (forall f g, In f files -> In g files -> f <> out_path g) ->
  snd (preprocess_all m files) = map (fun f => snd (preprocess_file m f)) files.
Proof.
  revert m. induction files as [|g r IH]; intros m H; [reflexivity|].
  simpl. destruct (preprocess_file m g) as [m1 res] eqn:E.
  destruct (preprocess_all m1 r) as [m2 ress] eqn:E2. simpl. f_equal.
  change ress with (snd (m2, ress)). rewrite <- E2, IH by (intros; apply H; right; auto).
  apply map_ext_in. intros f Hf. apply preprocess_file_snd.
  change m1 with (fst (m1, res)). rewrite <- E. apply preprocess_file_frame.
  apply H; [right|left]; auto.
Qed.

Lemma preprocess_all_out m files f :
  NoDup (map out_path files) ->
  (forall f g, In f files -> In g files -> f <> out_path g) -> In f files ->
  fs_read (fst (preprocess_all m files)) (out_path f)
  = fs_read (fst (preprocess_file m f)) (out_path f).
Proof.
  revert m. induction files as [|g r IH]; intros m Hn H Hf; [destruct Hf|].
  simpl. destruct (preprocess_file m g) as [m1 res] eqn:E.
  destruct (preprocess_all m1 r) as [m2 ress] eqn:E2. simpl.
  change m2 with (fst (m2, ress)). rewrite <- E2. simpl in Hn. inversion Hn as [|? ? Hni Hnr]; subst.
  destruct (list_eq_dec ascii_dec (out_path f) (out_path g)) as [Eo|Eo].
  - rewrite Eo, preprocess_all_frame by exact Hni.
    change m1 with (fst (m1, res)). rewrite <- E.
    destruct Hf as [<-|Hf]; [reflexivity|].
    exfalso. apply Hni. rewrite <- Eo. apply in_map. exact Hf.
  - destruct Hf as [<-|Hf]; [congruence|].
    rewrite IH by (auto; intros; apply H; right; auto).
    apply preprocess_file_out.
    + change m1 with (fst (m1, res)). rewrite <- E. apply preprocess_file_frame.
      apply H; [right|left]; auto.
    + change m1 with (fst (m1, res)). rewrite <- E. apply preprocess_file_frame. exact Eo.
Qed.

Lemma upload_not_out x y : chars "data/uploads/" ++ x <> chars "data/preprocessed/" ++ y.
Proof. simpl. discriminate. Qed.

Lemma basename_upload f : ~ In "/"%char f -> basename (chars "data/uploads/" ++ f) = f.
Proof.
  intros H. unfold basename, rfind.
  change (chars "data/uploads/" ++ f) with (chars "data/uploads" ++ "/"%char :: f).
  rewrite rfind_from_last.
  - simpl. reflexivity.
  - intros d Hd. destruct (ascii_eqb "/"%char d) eqn:E; [|reflexivity].
    apply ascii_eqb_spec in E. subst. contradiction.
Qed.


Lemma out_paths_listing listing :
  Forall (fun f => ~ In "/"%char f) listing ->
  map out_path (run_parallel_preprocessing_files listing)
  = map (fun f => chars "data/preprocessed/" ++ f) (filter driver_selects listing).
Proof.
  intros H. unfold run_parallel_preprocessing_files. rewrite map_map. apply map_ext_in.
  intros f Hf. apply filter_In in Hf as [Hf _]. unfold out_path. f_equal.
  apply basename_upload. rewrite Forall_forall in H. auto.
Qed.

Lemma files_not_out listing f g :
  In f (run_parallel_preprocessing_files listing) -> In g (run_parallel_preprocessing_files listing) ->
  f <> out_path g.
Proof.
  unfold run_parallel_preprocessing_files. intros Hf _.
  apply in_map_iff in Hf as (x & <- & _). apply upload_not_out.
Qed.

Lemma run_parallel_preprocessing_per_file m listing :
  NoDup listing -> Forall (fun f => ~ In "/"%char f) listing ->
  snd (run_parallel_preprocessing m listing)
    = map (fun p => snd (preprocess_file m p)) (run_parallel_preprocessing_files listing)
  /\ (forall f, In f listing -> driver_selects f = true ->
        fs_read (fst (run_parallel_preprocessing m listing)) (chars "data/preprocessed/" ++ f)
        = fs_read (fst (preprocess_file m (chars "data/uploads/" ++ f))) (chars "data/preprocessed/" ++ f))
  /\ (forall p, (forall f, In f listing -> driver_selects f = true -> p <> chars "data/preprocessed/" ++ f) ->
        fs_read (fst (run_parallel_preprocessing m listing)) p = fs_read m p).
Proof.
  intros Hn Hs. unfold run_parallel_preprocessing. split; [|split].
  - apply preprocess_all_snd. intros f g. apply files_not_out.
  - intros f Hf Hd. rewrite Forall_forall in Hs.
    replace (chars "data/preprocessed/" ++ f) with (out_path (chars "data/uploads/" ++ f))
      by (unfold out_path; rewrite basename_upload by auto; reflexivity).
    apply preprocess_all_out.
    + rewrite out_paths_listing by (apply Forall_forall; exact Hs).
      apply Finite.Injective_map_NoDup; [intros x y; apply app_inv_head|].
      apply NoDup_filter. exact Hn.
    + intros f' g. apply files_not_out.
    + unfold run_parallel_preprocessing_files. apply in_map. apply filter_In. auto.
  - intros p Hp. apply preprocess_all_frame.
    rewrite out_paths_listing by exact Hs. intros Hin.
    apply in_map_iff in Hin as (f & E & Hin). apply filter_In in Hin as [Hin Hd].
    exact (Hp f Hin Hd (eq_sym E)).
Qed.
End PrepFacts.

Module PrepNorm.
Import Py Preprocessing NormFacts.
Local Open Scope string_scope.
Local Open Scope list_scope.

Lemma cleaned_normalized ext code :
  exists s, (if in_list ext [".py"] then remove_python_boilerplate code
             else if in_list ext [".cpp"; ".h"; ".cc"; ".cxx"] then remove_cpp_boilerplate code
             else if in_list ext [".java"] then remove_java_boilerplate code
             else normalize_code code) = normalize_code s.
Proof.
  destruct (in_list ext [".py"]); [eexists; reflexivity|].
  destruct (in_list ext _); [eexists; reflexivity|].
  destruct (in_list ext _); eexists; reflexivity.
Qed.

Lemma preprocess_file_io_ok m f : preprocess_file m f = preprocess_file_io (fun _ => true) m f.
Proof. unfold preprocess_file, preprocess_file_io. destruct (fs_read m f); reflexivity. Qed.
End PrepNorm.

(* ===================================================================== *)
(** ** The cache of [@st.cache_data] *)
(* ===================================================================== *)

Module CacheFacts.
Import StCache.

Section Cache.
Context {K V : Type}.
Variable K_dec : forall x y : K, {x = y} + {x <> y}.

Lemma cached_miss (c : list (K * V)) k v : cache_lookup K_dec c k = None -> cached K_dec c k v = ((k, v) :: c, v).
Proof. intros H. unfold cached. rewrite H. reflexivity. Qed.

Lemma cached_hit (c : list (K * V)) k v w : cache_lookup K_dec c k = Some w -> cached K_dec c k v = (c, w).
Proof. intros H. unfold cached. rewrite H. reflexivity. Qed.

End Cache.

End CacheFacts.

(* ===================================================================== *)
(** ** The highlighted views *)
(* ===================================================================== *)

Module HighlightFacts.
Import Py Difflib Props BlockFacts Preprocessing Comparison Scores Highlight.
Local Open Scope list_scope.

(** A piece of the output: marked ([true]) or plain text. *)
Definition render (seg : bool * list ascii) : list ascii :=
  if fst seg then span_open ++ snd seg ++ span_close else snd seg.

Lemma firstn_add {A} (n k : nat) (l : list A) :
  firstn (n + k) l = firstn n l ++ firstn k (skipn n l).
Proof.
  revert l. induction n as [|n IH]; intros l; [reflexivity|].
  destruct l as [|x l]; simpl; [destruct k; reflexivity|]. f_equal. apply IH.
Qed.

Lemma slice_app s i j k : i <= j -> j <= k -> slice s i j ++ slice s j k = slice s i k.
Proof.
  intros H1 H2. unfold slice. replace (k - i) with ((j - i) + (k - j)) by lia.
  rewrite firstn_add, skipn_skipn. f_equal. f_equal. f_equal. lia.
Qed.

Lemma slice_nil s i : slice s i i = [].
Proof. unfold slice. rewrite Nat.sub_diag. reflexivity. Qed.

Lemma slice_length s i j : i <= j -> j <= length s -> length (slice s i j) = j - i.
Proof. intros H1 H2. unfold slice. rewrite firstn_length_le; [lia|]. rewrite length_skipn. lia. Qed.

Lemma slice_matches c1 c2 i j k :
  matches c1 c2 i j k -> slice c1 i (i + k) = slice c2 j (j + k).
Proof.
  intros H. unfold slice. replace (i + k - i) with k by lia. replace (j + k - j) with k by lia.
  apply nth_error_ext. intros t. rewrite !nth_error_firstn, !nth_error_skipn.
  destruct (Nat.ltb_spec t k) as [Ht|Ht]; [|reflexivity].
  destruct (H t Ht) as (c & C1 & C2). congruence.
Qed.

Definition in_bounds (c1 c2 : list ascii) (t : triple) : Prop :=
  t_a t + t_size t <= length c1 /\ t_b t + t_size t <= length c2.

Definition nonempty (seg : bool * list ascii) : Prop := snd seg <> [].

Lemma highlight_loop_ok c1 c2 bl pos1 pos2 h1 h2 :
  StronglySorted before bl -> Forall (block_ok c1 c2) bl -> Forall (in_bounds c1 c2) bl ->
  Forall (fun t => pos1 <= t_a t /\ pos2 <= t_b t) bl ->
  exists segs1 segs2 p1 p2,
    highlight_loop c1 c2 bl pos1 pos2 h1 h2 = (h1 ++ map render segs1, h2 ++ map render segs2, p1, p2)
    /\ pos1 <= p1 /\ pos2 <= p2
    /\ concat (map snd segs1) = slice c1 pos1 p1 /\ concat (map snd segs2) = slice c2 pos2 p2
    /\ map snd (filter fst segs1) = map snd (filter fst segs2)
    /\ length (concat (map snd (filter fst segs1))) = sum_sizes bl
    /\ Forall nonempty segs1 /\ Forall nonempty segs2.
Proof.
  revert pos1 pos2 h1 h2. induction bl as [|[[a b] size] r IH]; intros pos1 pos2 h1 h2 HS Hok Hin Hpos.
  - exists [], [], pos1, pos2. simpl. rewrite !app_nil_r, !slice_nil. repeat split; auto; constructor.
  - inversion HS as [|? ? HS' Hbef]; subst. inversion Hok as [|? ? Hm Hok']; subst.
    inversion Hin as [|? ? Hb Hin']; subst. inversion Hpos as [|? ? Hp _]; subst.
    destruct Hb as [Hb1 Hb2]. destruct Hp as [Hp1 Hp2].
    simpl in Hm, Hb1, Hb2, Hp1, Hp2.
    set (g1 := if pos1 <? a then [(false, slice c1 pos1 a)] else []).
    set (g2 := if pos2 <? b then [(false, slice c2 pos2 b)] else []).
    set (k1 := if 0 <? size then [(true, slice c1 a (a + size))] else []).
    set (k2 := if 0 <? size then [(true, slice c2 b (b + size))] else []).
    assert (Hpos' : Forall (fun t => a + size <= t_a t /\ b + size <= t_b t) r).
    { eapply Forall_impl; [|exact Hbef]. intros t Ht. unfold before in Ht. simpl in Ht. lia. }
    destruct (IH (a + size) (b + size) (h1 ++ map render (g1 ++ k1)) (h2 ++ map render (g2 ++ k2))
      HS' Hok' Hin' Hpos')
      as (s1 & s2 & p1 & p2 & E & L1 & L2 & C1 & C2 & M & Ln & N1 & N2).
    exists (g1 ++ k1 ++ s1), (g2 ++ k2 ++ s2), p1, p2.
    assert (Ek : k1 <> [] -> 0 < size) by (unfold k1; destruct (Nat.ltb_spec 0 size); congruence).
    assert (Hsl : slice c1 a (a + size) = slice c2 b (b + size)) by (apply slice_matches; exact Hm).
    split; [|split; [lia|split; [lia|split; [|split; [|split; [|split; [|split]]]]]]].
    + assert (Eu : highlight_loop c1 c2 ((a, b, size) :: r) pos1 pos2 h1 h2
                   = highlight_loop c1 c2 r (a + size) (b + size)
                       (h1 ++ map render (g1 ++ k1)) (h2 ++ map render (g2 ++ k2))).
      { unfold g1, g2, k1, k2. cbn [highlight_loop].
        destruct (pos1 <? a), (pos2 <? b), (0 <? size); cbn [map app render fst snd];
          rewrite ?app_nil_r, <- ?app_assoc; reflexivity. }
      rewrite E in Eu. etransitivity; [exact Eu|]. rewrite !map_app, !app_assoc. reflexivity.
    + rewrite !map_app, !concat_app, C1.
      assert (G : concat (map snd g1) = slice c1 pos1 a).
      { unfold g1. destruct (Nat.ltb_spec pos1 a); simpl; [apply app_nil_r|].
        replace a with pos1 by lia. symmetry. apply slice_nil. }
      assert (K : concat (map snd k1) = slice c1 a (a + size)).
      { unfold k1. destruct (Nat.ltb_spec 0 size); simpl; [apply app_nil_r|].
        replace size with 0 by lia. rewrite Nat.add_0_r. symmetry. apply slice_nil. }
      rewrite G, K, (slice_app c1 a (a + size) p1), slice_app by lia. reflexivity.
    + rewrite !map_app, !concat_app, C2.
      assert (G : concat (map snd g2) = slice c2 pos2 b).
      { unfold g2. destruct (Nat.ltb_spec pos2 b); simpl; [apply app_nil_r|].
        replace b with pos2 by lia. symmetry. apply slice_nil. }
      assert (K : concat (map snd k2) = slice c2 b (b + size)).
      { unfold k2. destruct (Nat.ltb_spec 0 size); simpl; [apply app_nil_r|].
        replace size with 0 by lia. rewrite Nat.add_0_r. symmetry. apply slice_nil. }
      rewrite G, K, (slice_app c2 b (b + size) p2), slice_app by lia. reflexivity.
    + rewrite !filter_app, !map_app. unfold g1, g2, k1, k2.
      destruct (pos1 <? a), (pos2 <? b), (0 <? size); simpl; rewrite ?Hsl, ?M; reflexivity.
    + rewrite filter_app, map_app, concat_app, length_app, filter_app, map_app, concat_app, length_app, Ln.
      unfold g1, k1. simpl.
      destruct (Nat.ltb_spec pos1 a), (Nat.ltb_spec 0 size); simpl; rewrite ?app_nil_r;
        rewrite ?slice_length by lia; lia.
    + apply Forall_app. split; [|apply Forall_app; split; [|exact N1]].
      * unfold g1. destruct (Nat.ltb_spec pos1 a); constructor; [|constructor].
        unfold nonempty. simpl. intros Hne. apply (f_equal (@length ascii)) in Hne.
        rewrite slice_length in Hne by lia. simpl in Hne. lia.
      * unfold k1. destruct (Nat.ltb_spec 0 size); constructor; [|constructor].
        unfold nonempty. simpl. intros Hne. apply (f_equal (@length ascii)) in Hne.
        rewrite slice_length in Hne by lia. simpl in Hne. lia.
    + apply Forall_app. split; [|apply Forall_app; split; [|exact N2]].
      * unfold g2. destruct (Nat.ltb_spec pos2 b); constructor; [|constructor].
        unfold nonempty. simpl. intros Hne. apply (f_equal (@length ascii)) in Hne.
        rewrite slice_length in Hne by lia. simpl in Hne. lia.
      * unfold k2. destruct (Nat.ltb_spec 0 size); constructor; [|constructor].
        unfold nonempty. simpl. intros Hne. apply (f_equal (@length ascii)) in Hne.
        rewrite slice_length in Hne by lia. simpl in Hne. lia.
Qed.

Lemma tail_seg c p :
  concat (map snd (if p <? length c then [(false, skipn p c)] else [])) = skipn p c
  /\ Forall nonempty (if p <? length c then [(false, skipn p c)] else []).
Proof.
  destruct (Nat.ltb_spec p (length c)).
  - simpl. rewrite app_nil_r. split; [reflexivity|]. constructor; [|constructor].
    unfold nonempty. simpl. intros Hne. apply (f_equal (@length ascii)) in Hne.
    rewrite length_skipn in Hne. simpl in Hne. lia.
  - simpl. rewrite skipn_all2 by lia. split; [reflexivity|constructor].
Qed.

Lemma highlight_spec m n1 n2 err :
  match fs_read m (preprocessed_path n1), fs_read m (preprocessed_path n2) with
  | Some c1, Some c2 =>
      exists segs1 segs2,
        highlight_matching_text m n1 n2 err = (concat (map render segs1), concat (map render segs2))
        /\ concat (map snd segs1) = c1 /\ concat (map snd segs2) = c2
        /\ map snd (filter fst segs1) = map snd (filter fst segs2)
        /\ Forall nonempty segs1 /\ Forall nonempty segs2
        /\ (forall r, compare_pair m (preprocessed_path n1) (preprocessed_path n2) = Some r ->
              r_score r = score_hundredths (length (concat (map snd (filter fst segs1))))
                                           (length c1 + length c2))
  | _, _ =>
      highlight_matching_text m n1 n2 err
      = (chars "Error comparing files: " ++ err, chars "Error comparing files: " ++ err)
  end.
Proof.
  destruct (fs_read m (preprocessed_path n1)) as [c1|] eqn:H1;
    [|unfold highlight_matching_text, compare_pair; rewrite H1; reflexivity].
  destruct (fs_read m (preprocessed_path n2)) as [c2|] eqn:H2;
    [|unfold highlight_matching_text, compare_pair; rewrite H1, H2; reflexivity].
  destruct (compare_pair_some _ _ _ _ _ H1 H2) as (r & Hr & E1 & E2).
  destruct (compare_pair_inv _ _ _ _ Hr) as (body & _ & _ & _ & _ & _ & Hb & Hs & HSS & HF & _).
  rewrite E1, E2 in *.
  assert (Hok : Forall (block_ok c1 c2) (r_blocks r)).
  { rewrite Hb. apply Forall_app. split.
    - eapply Forall_impl; [|exact HF]. intros t [_ Ht]. exact Ht.
    - constructor; [|constructor]. intros t Ht. simpl in Ht. lia. }
  assert (Hin : Forall (in_bounds c1 c2) (r_blocks r)).
  { rewrite Hb. apply Forall_app. split.
    - eapply Forall_impl; [|exact HF]. intros t [Hk Ht]. unfold in_bounds.
      destruct (matches_bound _ _ _ _ _ Ht Hk). lia.
    - constructor; [|constructor]. unfold in_bounds. simpl. lia. }
  assert (Hpos : Forall (fun t => 0 <= t_a t /\ 0 <= t_b t) (r_blocks r)).
  { apply Forall_forall. intros. lia. }
  destruct (highlight_loop_ok c1 c2 (r_blocks r) 0 0 [] [] HSS Hok Hin Hpos)
    as (s1 & s2 & p1 & p2 & E & _ & _ & C1 & C2 & M & Ln & N1 & N2).
  destruct (tail_seg c1 p1) as [T1 F1]. destruct (tail_seg c2 p2) as [T2 F2].
  exists (s1 ++ if p1 <? length c1 then [(false, skipn p1 c1)] else []),
         (s2 ++ if p2 <? length c2 then [(false, skipn p2 c2)] else []).
  split; [|split; [|split; [|split; [|split; [|split]]]]].
  - unfold highlight_matching_text. rewrite Hr, E1, E2, E. simpl.
    destruct (p1 <? length c1), (p2 <? length c2); rewrite ?map_app; cbn [map render fst snd]; rewrite ?app_nil_r; reflexivity.
  - rewrite map_app, concat_app, C1, T1. unfold slice. rewrite Nat.sub_0_r. apply firstn_skipn.
  - rewrite map_app, concat_app, C2, T2. unfold slice. rewrite Nat.sub_0_r. apply firstn_skipn.
  - rewrite !filter_app, !map_app, M.
    destruct (p1 <? length c1), (p2 <? length c2); reflexivity.
  - apply Forall_app. auto.
  - apply Forall_app. auto.
  - intros r' Hr'. rewrite Hr in Hr'. injection Hr' as <-. rewrite Hs, filter_app, map_app, concat_app, length_app, Ln.
    destruct (p1 <? length c1); simpl; f_equal; lia.
Qed.
End HighlightFacts.

(* ===================================================================== *)
(** ** The report views on the table of a run *)
(* ===================================================================== *)

Module ReportFacts.
Import Py Preprocessing Comparison Csv Scores PairFacts CsvFacts Report.
Local Open Scope list_scope.

Lemma basename_dir d f : ~ In "/"%char f -> basename (d ++ "/"%char :: f) = f.
Proof.
  intros H. unfold basename, rfind. rewrite rfind_from_last.
  - rewrite skipn_app. replace (S (0 + length d) - length d) with 1 by lia.
    rewrite skipn_all2 by lia. reflexivity.
  - intros c Hc. destruct (ascii_eqb "/"%char c) eqn:E; [|reflexivity].
    apply ascii_eqb_spec in E. subst. contradiction.
Qed.

Lemma pairs_map {A B} (g : A -> B) (l : list A) :
  generate_file_pairs (map g l) = map (fun p => (g (fst p), g (snd p))) (generate_file_pairs l).
Proof.
  induction l as [|x r IH]; [reflexivity|]. simpl.
  rewrite map_app, IH, !map_map. reflexivity.
Qed.

Lemma starmap_some {B} (f : list ascii -> list ascii -> option B) pairs vs :
  starmap f pairs = Some vs -> Forall2 (fun p v => f (fst p) (snd p) = Some v) pairs vs.
Proof.
  revert vs. induction pairs as [|[x y] r IH]; intros vs H; simpl in H.
  - injection H as <-. constructor.
  - destruct (f x y) as [v|] eqn:E1; [|discriminate].
    destruct (starmap f r) as [ws|] eqn:E2; [|discriminate].
    injection H as <-. constructor; [exact E1|]. apply IH. reflexivity.
Qed.

Lemma pairs_mem {A} (l : list A) x y : In (x, y) (generate_file_pairs l) -> In x l /\ In y l.
Proof.
  intros H. destruct (pairs_in l x y H) as (l1 & l2 & -> & Hy).
  split; apply in_or_app; right; [left; reflexivity|right; exact Hy].
Qed.

Definition result_row (r : result) : row := (r_file1 r, r_file2 r, r_score r).

Definition pre_path (f : list ascii) : list ascii := chars "data/preprocessed/" ++ f.

Lemma basename_pre f : ~ In "/"%char f -> basename (pre_path f) = f.
Proof.
  intros H. unfold pre_path.
  change (chars "data/preprocessed/") with (chars "data/preprocessed" ++ ["/"%char]).
  rewrite <- app_assoc. apply basename_dir. exact H.
Qed.

Lemma rows_of_pairs m P vs :
  Forall2 (fun p v => compare_pair m (fst p) (snd p) = Some v)
    (map (fun p => (pre_path (fst p), pre_path (snd p))) P) vs ->
  (forall p, In p P -> ~ In "/"%char (fst p) /\ ~ In "/"%char (snd p)) ->
  map (fun r => (row_file1 (result_row r), row_file2 (result_row r))) vs = P.
Proof.
  revert vs. induction P as [|p P IH]; intros vs H Hp; inversion H as [|? v ? vs' Hv HF]; subst;
    [reflexivity|].
  cbn [map]. rewrite (IH vs') by (auto; intros; apply Hp; right; auto).
  apply compare_pair_inv in Hv as (_ & _ & _ & F1 & F2 & _).
  destruct (Hp p (or_introl eq_refl)) as [S1 S2]. simpl in F1, F2.
  unfold result_row; cbn [row_file1 row_file2]. rewrite F1, F2, !basename_pre by assumption. destruct p; reflexivity.
Qed.

(** The table of a run over the preprocessed files of [names]. *)
Lemma run_rows m names results :
  Forall (fun f => ~ In "/"%char f) names ->
  run_parallel_comparison m (map pre_path names) = Some results ->
  map (fun r => (row_file1 (result_row r), row_file2 (result_row r))) results = generate_file_pairs names
  /\ Forall (fun r => row_score (result_row r) <= 10000) results.
Proof.
  intros Hs H. unfold run_parallel_comparison in H. apply starmap_some in H.
  rewrite pairs_map in H. split.
  - apply (rows_of_pairs m). exact H.
    intros [x y] Hin. apply pairs_mem in Hin. rewrite Forall_forall in Hs. simpl. split; apply Hs; tauto.
  - induction H as [|p v P' vs Hv HF IH]; constructor; [|exact IH].
    apply compare_pair_score_le in Hv. exact Hv.
Qed.

Lemma pairs_names_in (names : list (list ascii)) x :
  NoDup names -> 2 <= length names ->
  In x (map fst (generate_file_pairs names) ++ map snd (generate_file_pairs names)) <-> In x names.
Proof.
  intros Hn Hl. split.
  - intros H. apply in_app_or in H as [H|H]; apply in_map_iff in H as ([u v] & <- & Hin);
      apply pairs_mem in Hin; tauto.
  - intros Hx. assert (Hy : exists y, In y names /\ y <> x).
    { destruct names as [|a [|b r]]; simpl in Hl; [lia|lia|].
      inversion Hn as [|? ? Hab _]; subst.
      destruct (list_eq_dec ascii_dec a x) as [<-|Ne].
      - exists b. split; [right; left; reflexivity|]. intros ->. apply Hab. left. reflexivity.
      - exists a. split; [left; reflexivity|exact Ne]. }
    destruct Hy as (y & Hy & Ne).
    destruct (pairs_complete names x y Hx Hy (not_eq_sym Ne)) as [H|H]; apply in_or_app;
      [left|right]; apply in_map_iff; [exists (x, y)|exists (y, x)]; auto.
Qed.

Lemma pairs_short {A} (l : list A) : length l <= 1 -> generate_file_pairs l = [].
Proof. destruct l as [|a [|b r]]; simpl; intros H; [reflexivity|reflexivity|lia]. Qed.

Lemma file_set_rows results :
  file_set (map result_row results)
  = nodup (list_eq_dec ascii_dec)
      (map fst (map (fun r => (row_file1 (result_row r), row_file2 (result_row r))) results)
       ++ map snd (map (fun r => (row_file1 (result_row r), row_file2 (result_row r))) results)).
Proof. unfold file_set. rewrite !map_map. reflexivity. Qed.

Lemma file_set_run m names results :
  NoDup names -> Forall (fun f => ~ In "/"%char f) names ->
  run_parallel_comparison m (map pre_path names) = Some results ->
  NoDup (file_set (map result_row results))
  /\ (forall x, In x (file_set (map result_row results)) <-> (2 <= length names /\ In x names)).
Proof.
  intros Hn Hs H. destruct (run_rows m names results Hs H) as [E _].
  rewrite file_set_rows, E. split; [apply NoDup_nodup|]. intros x. rewrite nodup_In.
  destruct (Nat.le_gt_cases 2 (length names)) as [Hl|Hl].
  - rewrite pairs_names_in by assumption. tauto.
  - rewrite pairs_short by lia. simpl. lia.
Qed.

Lemma fold_max_le l x b : x <= b -> Forall (fun y => y <= b) l -> fold_left Nat.max l x <= b.
Proof.
  revert x. induction l as [|y l IH]; intros x Hx Hl; simpl; [exact Hx|].
  inversion Hl; subst. apply IH; [lia|assumption].
Qed.

Lemma display_summary_run m names results :
  NoDup names -> Forall (fun f => ~ In "/"%char f) names ->
  run_parallel_comparison m (map pre_path names) = Some results ->
  let s := display_summary (map result_row results) in
  total_files s = (if length names <=? 1 then 0 else length names)
  /\ 2 * total_pairs s = length names * (length names - 1)
  /\ match max_similarity s with
     | None => length names <= 1
     | Some x => 2 <= length names /\ x <= 10000
     end
  /\ high_similarity_pairs s <= total_pairs s.
Proof.
  intros Hn Hs H. destruct (run_rows m names results Hs H) as [E Hsc].
  destruct (file_set_run m names results Hn Hs H) as [N F].
  assert (Hlen : length results = length (generate_file_pairs names))
    by (rewrite <- E, length_map; reflexivity).
  pose proof (pairs_length names) as Hpl.
  cbn zeta. unfold display_summary. cbn [total_files total_pairs max_similarity high_similarity_pairs].
  split; [|split; [|split]].
  - destruct (Nat.leb_spec (length names) 1) as [Hl|Hl].
    + destruct (file_set (map result_row results)) as [|x r] eqn:Es; [reflexivity|].
      exfalso. assert (Hx : In x (x :: r)) by (left; reflexivity). apply F in Hx. lia.
    + apply Nat.le_antisymm.
      * apply NoDup_incl_length; [exact N|]. intros x Hx. apply F in Hx. tauto.
      * apply NoDup_incl_length; [exact Hn|]. intros x Hx. apply F. split; [lia|exact Hx].
  - rewrite length_map, Hlen. exact Hpl.
  - destruct results as [|r rs]; cbn [map series_max].
    + simpl in Hlen. destruct (Nat.le_gt_cases (length names) 1); [assumption|]. nia.
    + simpl in Hlen. inversion Hsc as [|? ? H1 H2]; subst. split.
      * destruct (Nat.le_gt_cases 2 (length names)); [assumption|].
        rewrite pairs_short in Hlen by lia. discriminate.
      * apply fold_max_le; [exact H1|]. rewrite !Forall_map. exact H2.
  - apply filter_length_le.
Qed.

Lemma insert_str_perm x l : Permutation (insert_str x l) (x :: l).
Proof.
  induction l as [|y l IH]; simpl; [reflexivity|].
  destruct (str_ltb y x); [|reflexivity].
  rewrite IH. apply perm_swap.
Qed.

Lemma sorted_strs_perm l : Permutation (sorted_strs l) l.
Proof.
  induction l as [|x l IH]; simpl; [reflexivity|].
  rewrite insert_str_perm, IH. reflexivity.
Qed.

Lemma str_eqb_spec s t : str_eqb s t = true <-> s = t.
Proof. unfold str_eqb. destruct (list_eq_dec ascii_dec s t); split; congruence. Qed.

Lemma filter_map_length {A B} (p : B -> bool) (g : A -> B) l :
  length (filter p (map g l)) = length (filter (fun x => p (g x)) l).
Proof. induction l as [|x l IH]; simpl; [reflexivity|]. destruct (p (g x)); simpl; auto. Qed.

Lemma filter_none {A} (p : A -> bool) l : (forall x, In x l -> p x = false) -> filter p l = [].
Proof.
  induction l as [|x l IH]; intros H; simpl; [reflexivity|].
  rewrite (H x (or_introl eq_refl)). apply IH. intros; apply H; right; auto.
Qed.

Lemma filter_all {A} (p : A -> bool) l : (forall x, In x l -> p x = true) -> filter p l = l.
Proof.
  induction l as [|x l IH]; intros H; simpl; [reflexivity|].
  rewrite (H x (or_introl eq_refl)). f_equal. apply IH. intros; apply H; right; auto.
Qed.

Lemma count_name_in (r : list (list ascii)) f :
  NoDup r -> In f r -> length (filter (fun y => str_eqb y f) r) = 1.
Proof.
  induction r as [|y r IH]; intros Hn Hf; [destruct Hf|]. inversion Hn as [|? ? Hy Hr]; subst. simpl.
  destruct (str_eqb y f) eqn:E.
  - apply str_eqb_spec in E. subst y. simpl. f_equal.
    rewrite filter_none; [reflexivity|].
    intros z Hz. destruct (str_eqb z f) eqn:Ez; [|reflexivity].
    apply str_eqb_spec in Ez. subst. contradiction.
  - destruct Hf as [->|Hf]; [rewrite (proj2 (str_eqb_spec f f) eq_refl) in E; discriminate|]. auto.
Qed.

Definition mentions (f : list ascii) (p : list ascii * list ascii) : bool :=
  str_eqb (fst p) f || str_eqb (snd p) f.

Lemma pairs_mentions_out (l : list (list ascii)) f :
  ~ In f l -> filter (mentions f) (generate_file_pairs l) = [].
Proof.
  intros Hf. apply filter_none. intros [x y] Hin. apply pairs_mem in Hin as [Hx Hy].
  unfold mentions. simpl.
  destruct (str_eqb x f) eqn:E1; [apply str_eqb_spec in E1; subst; contradiction|].
  destruct (str_eqb y f) eqn:E2; [apply str_eqb_spec in E2; subst; contradiction|]. reflexivity.
Qed.

Lemma pairs_mentions_in (l : list (list ascii)) f :
  NoDup l -> In f l -> length (filter (mentions f) (generate_file_pairs l)) = length l - 1.
Proof.
  induction l as [|h r IH]; intros Hn Hf; [destruct Hf|]. inversion Hn as [|? ? Hh Hr]; subst.
  simpl generate_file_pairs. rewrite filter_app, length_app, filter_map_length.
  destruct (list_eq_dec ascii_dec h f) as [<-|Ne].
  - rewrite pairs_mentions_out by exact Hh. rewrite filter_all; [simpl; lia|].
    intros y _. unfold mentions. simpl. rewrite (proj2 (str_eqb_spec h h) eq_refl). reflexivity.
  - destruct Hf as [->|Hf]; [contradiction|].
    rewrite IH by assumption. unfold mentions. simpl.
    destruct (str_eqb h f) eqn:E; [apply str_eqb_spec in E; contradiction|]. simpl.
    rewrite count_name_in by assumption. destruct r; [destruct Hf|]. simpl. lia.
Qed.

Lemma file_similarities_run m names results :
  NoDup names -> Forall (fun f => ~ In "/"%char f) names -> 2 <= length names ->
  run_parallel_comparison m (map pre_path names) = Some results ->
  Permutation (file_list (map result_row results)) names
  /\ (forall f, In f names -> length (file_subset (map result_row results) f) = length names - 1)
  /\ (forall f, ~ In f names -> file_subset (map result_row results) f = []).
Proof.
  intros Hn Hs Hl H. destruct (run_rows m names results Hs H) as [E _].
  destruct (file_set_run m names results Hn Hs H) as [N F].
  assert (Hsub : forall f, length (file_subset (map result_row results) f)
                 = length (filter (mentions f) (generate_file_pairs names))).
  { intros f. unfold file_subset. rewrite <- E, !filter_map_length. reflexivity. }
  split; [|split].
  - unfold file_list. rewrite sorted_strs_perm. apply NoDup_Permutation; [exact N|exact Hn|].
    intros x. rewrite F. tauto.
  - intros f Hf. rewrite Hsub. apply pairs_mentions_in; assumption.
  - intros f Hf. apply length_zero_iff_nil. rewrite Hsub, pairs_mentions_out by exact Hf. reflexivity.
Qed.

Lemma cut_index_six e0 e1 e2 e3 e4 e5 x :
  e0 < e1 -> e1 < e2 -> e2 < e3 -> e3 < e4 -> e4 < e5 -> e0 <= x -> x <= e5 ->
  exists i, i < 5 /\ cut_index [e0; e1; e2; e3; e4; e5] x = Some i.
Proof.
  intros H1 H2 H3 H4 H5 Hl Hh. unfold cut_index. cbn [hd length filter].
  destruct (Nat.eqb_spec x e0) as [->|H0].
  - exists 0. split; [lia|reflexivity].
  - destruct (Nat.ltb_spec e0 x); [|lia].
    destruct (Nat.ltb_spec e1 x); [|exists 0; split; [lia|]; destruct (Nat.ltb_spec e2 x), (Nat.ltb_spec e3 x), (Nat.ltb_spec e4 x), (Nat.ltb_spec e5 x); try lia; reflexivity].
    destruct (Nat.ltb_spec e2 x); [|exists 1; split; [lia|]; destruct (Nat.ltb_spec e3 x), (Nat.ltb_spec e4 x), (Nat.ltb_spec e5 x); try lia; reflexivity].
    destruct (Nat.ltb_spec e3 x); [|exists 2; split; [lia|]; destruct (Nat.ltb_spec e4 x), (Nat.ltb_spec e5 x); try lia; reflexivity].
    destruct (Nat.ltb_spec e4 x); [|exists 3; split; [lia|]; destruct (Nat.ltb_spec e5 x); try lia; reflexivity].
    destruct (Nat.ltb_spec e5 x); [lia|exists 4; split; [lia|reflexivity]].
Qed.

Lemma cut_index_pie x : x <= 10000 -> exists i, i < 5 /\ cut_index pie_bins x = Some i.
Proof.
  intros Hx. apply cut_index_six; try (apply Nat.ltb_lt; reflexivity); lia.
Qed.

Lemma indicator_sum (x : option nat) j a k :
  x = Some j ->
  list_sum (map (fun i => match x with Some j' => if j' =? i then 1 else 0 | None => 0 end) (seq a k))
  = if (a <=? j) && (j <? a + k) then 1 else 0.
Proof.
  intros ->. revert a. induction k as [|k IH]; intros a; simpl.
  - destruct (Nat.leb_spec a j), (Nat.ltb_spec j (a + 0)); simpl; lia.
  - rewrite IH. destruct (Nat.eqb_spec j a) as [->|Ne].
    + rewrite Nat.leb_refl. replace (S a <=? a) with false by (symmetry; apply Nat.leb_gt; lia).
      replace (a <? a + S k) with true by (symmetry; apply Nat.ltb_lt; lia). reflexivity.
    + destruct (Nat.leb_spec (S a) j), (Nat.ltb_spec j (S a + k)), (Nat.leb_spec a j), (Nat.ltb_spec j (a + S k));
        simpl; lia.
Qed.

Lemma range_counts_sum bins labels df :
  (forall r, In r df -> exists i, i < length labels /\ cut_index bins (row_score r) = Some i) ->
  list_sum (range_counts bins labels df) = length df.
Proof.
  unfold range_counts. induction df as [|r df IH]; intros H; simpl.
  - induction (seq 0 (length labels)); simpl; auto.
  - destruct (H r (or_introl eq_refl)) as (j & Hj & Ej).
    rewrite <- IH by (intros; apply H; right; auto).
    transitivity (list_sum (map (fun i => match cut_index bins (row_score r) with
                                         | Some j' => if j' =? i then 1 else 0 | None => 0 end)
                                (seq 0 (length labels)))
                  + list_sum (map (fun i => length (filter (fun c => match c with Some j => j =? i | None => false end)
                                                   (map (fun r => cut_index bins (row_score r)) df)))
                                (seq 0 (length labels)))).
    + generalize (seq 0 (length labels)). intros l. induction l as [|i l IHl]; simpl; [reflexivity|].
      rewrite IHl. rewrite Ej. destruct (j =? i); simpl; lia.
    + rewrite (indicator_sum _ j) by exact Ej.
      destruct (Nat.leb_spec 0 j), (Nat.ltb_spec j (0 + length labels)); simpl; lia.
Qed.

Lemma run_scores m paths results :
  run_parallel_comparison m paths = Some results ->
  Forall (fun r => r_score r <= 10000) results.
Proof.
  intros H. apply starmap_some in H.
  induction H as [|p v P' vs Hv HF IH]; constructor; [|exact IH].
  exact (compare_pair_score_le _ _ _ _ Hv).
Qed.

Lemma pie_counts df :
  Forall (fun r => row_score r <= 10000) df ->
  length (fst (prepare_pie_chart_data df pie_bins pie_labels)) = 5
  /\ list_sum (fst (prepare_pie_chart_data df pie_bins pie_labels)) = length df.
Proof.
  intros Hs. split.
  - unfold prepare_pie_chart_data, range_counts. cbn [fst]. rewrite length_map, length_seq. reflexivity.
  - unfold prepare_pie_chart_data. cbn [fst]. rewrite range_counts_sum; [reflexivity|].
    intros r Hr. rewrite Forall_forall in Hs. apply cut_index_pie. exact (Hs r Hr).
Qed.

Lemma pie_run m paths results :
  run_parallel_comparison m paths = Some results ->
  length (fst (prepare_pie_chart_data (map result_row results) pie_bins pie_labels)) = 5
  /\ list_sum (fst (prepare_pie_chart_data (map result_row results) pie_bins pie_labels)) = length results.
Proof.
  intros H. pose proof (run_scores m paths results H) as Hs. split.
  - unfold prepare_pie_chart_data, range_counts. cbn [fst]. rewrite length_map, length_seq. reflexivity.
  - unfold prepare_pie_chart_data. cbn [fst]. rewrite range_counts_sum, length_map; [reflexivity|].
    intros r Hr. apply in_map_iff in Hr as (x & <- & Hx). rewrite Forall_forall in Hs.
    apply cut_index_pie. exact (Hs x Hx).
Qed.
End ReportFacts.

(* ===================================================================== *)
(** ** The upload path *)
(* ===================================================================== *)

Module UploadFacts.
Import Py Preprocessing Comparison Csv CsvFacts Upload.
Local Open Scope list_scope.

Lemma remove_dotdot_keeps s c : In c s -> c <> "."%char -> In c (remove_dotdot s).
Proof.
  intros Hin Hc. assert (G : forall n s, length s = n -> In c s -> In c (remove_dotdot s)).
  2:{ exact (G _ s eq_refl Hin). }
  clear s Hin. intros n.
  induction n as [n IH] using lt_wf_ind. intros s En Hin.
  destruct s as [|x [|y r]]; [destruct Hin| exact Hin|].
  assert (Eq : remove_dotdot (x :: y :: r) = if ascii_eqb x "."%char && ascii_eqb y "."%char
    then remove_dotdot r else x :: remove_dotdot (y :: r)) by reflexivity.
  rewrite Eq. destruct (ascii_eqb x "."%char && ascii_eqb y "."%char) eqn:E.
  - apply andb_true_iff in E as [E1 E2]. apply ascii_eqb_spec in E1, E2. subst x y.
    destruct Hin as [<-|[<-|Hin]]; [contradiction|contradiction|].
    apply (IH (length r)); [simpl in En |- *; lia|reflexivity|exact Hin].
  - destruct Hin as [<-|Hin]; [left; reflexivity|right].
    apply (IH (length (y :: r))); [simpl in En |- *; lia|reflexivity|exact Hin].
Qed.

Lemma remove_char_keeps ch s c : In c s -> c <> ch -> In c (remove_char ch s).
Proof.
  intros Hin Hc. unfold remove_char. apply filter_In. split; [exact Hin|].
  destruct (ascii_eqb c ch) eqn:E; [apply ascii_eqb_spec in E; contradiction|reflexivity].
Qed.

Lemma remove_char_drops ch s : ~ In ch (remove_char ch s).
Proof.
  unfold remove_char. intros H. apply filter_In in H as [_ H].
  rewrite ascii_eqb_refl in H. discriminate.
Qed.

Lemma remove_char_sub ch s c : In c (remove_char ch s) -> In c s.
Proof. unfold remove_char. intros H. apply filter_In in H. tauto. Qed.

Lemma path_suffix_sub nm c : In c (path_suffix nm) -> In c nm.
Proof.
  unfold path_suffix. destruct (rfind "."%char nm); [|intros []].
  destruct (_ && _); [|intros []]. intros H.
  rewrite <- (firstn_skipn n nm). apply in_or_app. right. exact H.
Qed.

(** A type that passes the check has a letter after its dot. *)
Lemma valid_suffix_letter sfx :
  in_list (map lower_char sfx) VALID_EXTENSIONS = true ->
  exists x d r, sfx = x :: d :: r /\ d <> "."%char /\ d <> "/"%char /\ d <> backslash.
Proof.
  intros H. unfold in_list in H. apply existsb_exists in H as (v & Hv & Hf).
  destruct (list_eq_dec ascii_dec _ _) as [E|]; [clear Hf|discriminate].
  destruct sfx as [|x [|d r]];
    (simpl in Hv; repeat destruct Hv as [<-|Hv]; [..|destruct Hv]; simpl in E; try discriminate E).
  all: exists x, d, r; split; [reflexivity|].
  all: injection E; intros _ Ed _.
  all: repeat split; intros ->; vm_compute in Ed; discriminate Ed.
Qed.

(** The name a validated upload is stored under. *)
Lemma safe_name_plain n :
  in_list (map lower_char (path_suffix (path_name n))) VALID_EXTENSIONS = true ->
  ~ In "/"%char (safe_name n) /\ ~ In backslash (safe_name n)
  /\ safe_name n <> [] /\ safe_name n <> ["."%char] /\ safe_name n <> ["."%char; "."%char].
Proof.
  intros H. destruct (valid_suffix_letter _ H) as (x & d & r & E & D1 & D2 & D3).
  assert (Hd : In d (safe_name n)).
  { unfold safe_name. apply remove_char_keeps; [|exact D3]. apply remove_char_keeps; [|exact D2].
    apply remove_dotdot_keeps; [|exact D1]. apply path_suffix_sub. rewrite E. right. left. reflexivity. }
  split; [|split].
  - intros Hs. unfold safe_name in Hs. apply remove_char_sub in Hs. apply remove_char_drops in Hs. exact Hs.
  - apply remove_char_drops.
  - split; [|split]; intros Hs; rewrite Hs in Hd; simpl in Hd; intuition congruence.
Qed.

Lemma split_on_no_sep sep w : (forall c, In c w -> c <> sep) -> split_on sep w = [w].
Proof.
  induction w as [|c w IH]; intros H; [reflexivity|].
  cbn [split_on]. rewrite IH by (intros x Hx; apply H; right; exact Hx).
  destruct (ascii_eqb c sep) eqn:E; [|reflexivity].
  apply ascii_eqb_spec in E. exfalso. apply (H c); [left; reflexivity|exact E].
Qed.

Lemma path_name_plain w :
  (forall c, In c w -> c <> "/"%char) -> w <> [] -> w <> ["."%char] -> path_name w = w.
Proof.
  intros H H1 H2. unfold path_name. rewrite split_on_no_sep by exact H.
  cbn [filter]. destruct (list_eq_dec ascii_dec w []) as [|_]; [contradiction|].
  destruct (list_eq_dec ascii_dec w ["."%char]) as [|_]; [contradiction|].
  reflexivity.
Qed.

Lemma remove_dotdot_app_nodot stem t :
  (forall c, In c stem -> c <> "."%char) -> remove_dotdot (stem ++ t) = stem ++ remove_dotdot t.
Proof.
  induction stem as [|c stem IH]; intros H; [reflexivity|].
  rewrite <- app_comm_cons.
  assert (Hc : ascii_eqb c "."%char = false).
  { destruct (ascii_eqb c "."%char) eqn:E; [|reflexivity].
    apply ascii_eqb_spec in E. exfalso. apply (H c); [left; reflexivity|exact E]. }
  destruct (stem ++ t) as [|d r] eqn:Est.
  - apply app_eq_nil in Est as [-> ->]. reflexivity.
  - assert (Eq : remove_dotdot (c :: d :: r) = if ascii_eqb c "."%char && ascii_eqb d "."%char
      then remove_dotdot r else c :: remove_dotdot (d :: r)) by reflexivity.
    rewrite Eq, Hc. cbn [andb]. rewrite IH by (intros x Hx; apply H; right; exact Hx).
    reflexivity.
Qed.

Lemma remove_char_absent ch s : (forall c, In c s -> c <> ch) -> remove_char ch s = s.
Proof.
  intros H. unfold remove_char. induction s as [|c s IH]; [reflexivity|].
  cbn [filter]. rewrite IH by (intros x Hx; apply H; right; exact Hx).
  destruct (ascii_eqb c ch) eqn:E; [|reflexivity].
  apply ascii_eqb_spec in E. exfalso. apply (H c); [left; reflexivity|exact E].
Qed.

Lemma starts_with_dot_rev stem :
  (forall c, In c stem -> c <> "."%char) -> starts_with ["."%char] (rev stem) = false.
Proof.
  intros H. destruct (rev stem) as [|c r] eqn:E; [reflexivity|].
  assert (Hc : In c stem) by (apply in_rev; rewrite E; left; reflexivity).
  cbn [starts_with]. rewrite andb_true_r.
  destruct (ascii_eqb "."%char c) eqn:Ec; [|reflexivity].
  apply ascii_eqb_spec in Ec. exfalso. apply (H c Hc). symmetry. exact Ec.
Qed.

(** An upload named [stem ++ ".." ++ e] has the type [.e], and is
    stored under [stem ++ e], a name the driver does not select. *)
Lemma dotdot_name_facts stem e :
  In e [chars "py"; chars "cpp"; chars "h"; chars "java"] ->
  (forall c, In c stem -> c <> "."%char /\ c <> "/"%char /\ c <> backslash) ->
  in_list (map lower_char (path_suffix (path_name (stem ++ "."%char :: "."%char :: e)))) VALID_EXTENSIONS = true
  /\ safe_name (stem ++ "."%char :: "."%char :: e) = stem ++ e
  /\ driver_selects (stem ++ e) = false.
Proof.
  intros He Hs.
  assert (Hd : forall c, In c stem -> c <> "."%char) by (intros c Hc; apply (Hs c Hc)).
  assert (He' : forall c, In c e -> c <> "."%char /\ c <> "/"%char /\ c <> backslash).
  { intros c Hc. simpl in He. repeat destruct He as [<-|He]; [..|destruct He];
      simpl in Hc; repeat destruct Hc as [<-|Hc]; try destruct Hc; repeat split; discriminate. }
  assert (Hne : e <> []) by (intros ->; simpl in He; intuition discriminate).
  assert (Hpn : path_name (stem ++ "."%char :: "."%char :: e) = stem ++ "."%char :: "."%char :: e).
  { apply path_name_plain.
    - intros c Hc. apply in_app_or in Hc as [Hc|[<-|[<-|Hc]]];
        [apply (proj1 (proj2 (Hs c Hc)))|discriminate|discriminate|apply (proj1 (proj2 (He' c Hc)))].
    - destruct stem; discriminate.
    - destruct stem as [|x [|y r]]; [destruct e; [contradiction|discriminate]|discriminate|discriminate]. }
  rewrite Hpn. split; [|split].
  - unfold path_suffix, rfind.
    assert (Ef : stem ++ "."%char :: "."%char :: e = (stem ++ ["."%char]) ++ "."%char :: e)
      by (rewrite <- app_assoc; reflexivity).
    rewrite Ef, rfind_from_last.
    2:{ intros c Hc. destruct (ascii_eqb "."%char c) eqn:E; [|reflexivity].
        apply ascii_eqb_spec in E. exfalso. apply (proj1 (He' c Hc)). symmetry. exact E. }
    rewrite Nat.add_0_l. destruct ((0 <? _) && _) eqn:Ec.
    2:{ exfalso. apply andb_false_iff in Ec as [Ec|Ec]; apply Nat.ltb_ge in Ec;
        rewrite ?length_app in Ec; destruct e; [contradiction| |contradiction|]; simpl in Ec; lia. }
    rewrite skipn_app, skipn_all, Nat.sub_diag. cbn [app skipn].
    simpl in He. repeat destruct He as [<-|He]; [..|destruct He]; reflexivity.
  - unfold safe_name. rewrite Hpn, remove_dotdot_app_nodot by exact Hd.
    assert (Ed : remove_dotdot ("."%char :: "."%char :: e) = e).
    { simpl in He. repeat destruct He as [<-|He]; [..|destruct He]; reflexivity. }
    rewrite Ed. rewrite (remove_char_absent "/"%char (stem ++ e)), remove_char_absent; [reflexivity| |].
    + intros c Hc. apply in_app_or in Hc as [Hc|Hc]; [apply (proj2 (proj2 (Hs c Hc)))|apply (proj2 (proj2 (He' c Hc)))].
    + intros c Hc. apply in_app_or in Hc as [Hc|Hc]; [apply (proj1 (proj2 (Hs c Hc)))|apply (proj1 (proj2 (He' c Hc)))].
  - unfold driver_selects, ends_with. cbn [existsb]. rewrite !rev_app_distr.
    pose proof (starts_with_dot_rev stem Hd) as Hr. cbn in Hr.
    simpl in He. repeat destruct He as [<-|He]; [..|destruct He]; cbn;
      rewrite ?Hr; reflexivity.
Qed.

(** The state [m'] is [m] with entries added at paths satisfying [P]. *)
Definition only_writes (P : list ascii -> Prop) (m m' : fs) : Prop :=
  exists w, m' = w ++ m /\ Forall (fun pc => P (fst pc)) w.

Lemma only_writes_refl P m : only_writes P m m.
Proof. exists []. split; [reflexivity|constructor]. Qed.

Lemma only_writes_write P m m' p c : only_writes P m m' -> P p -> only_writes P m (fs_write m' p c).
Proof.
  intros (w & -> & Hw) Hp. exists ((p, c) :: w). split; [reflexivity|]. constructor; assumption.
Qed.

Lemma only_writes_trans P m1 m2 m3 : only_writes P m1 m2 -> only_writes P m2 m3 -> only_writes P m1 m3.
Proof.
  intros (w1 & -> & H1) (w2 & -> & H2). exists (w2 ++ w1). split; [apply app_assoc|].
  apply Forall_app. split; assumption.
Qed.

Lemma only_writes_mono (P Q : list ascii -> Prop) m m' :
  (forall p, P p -> Q p) -> only_writes P m m' -> only_writes Q m m'.
Proof.
  intros H (w & -> & Hw). exists w. split; [reflexivity|].
  eapply Forall_impl; [|exact Hw]. intros a. apply H.
Qed.

Definition plain_name (s : list ascii) : Prop :=
  ~ In "/"%char s /\ ~ In backslash s /\ s <> [] /\ s <> ["."%char] /\ s <> ["."%char; "."%char].

(** The paths [process_uploaded_files] writes to. *)
Definition upload_area (p : list ascii) : Prop :=
  (exists s, p = chars "data/uploads/" ++ s /\ plain_name s)
  \/ (exists s, p = chars "data/preprocessed/" ++ s)
  \/ p = PROGRESS_FILE \/ p = RESULTS_CSV.

Lemma validate_types files :
  validate files = true ->
  Forall (fun f => in_list (map lower_char (path_suffix (path_name (up_name f)))) VALID_EXTENSIONS = true) files.
Proof.
  induction files as [|f r IH]; intros H; constructor.
  - cbn [validate] in H. destruct (in_list _ _); [reflexivity|]. discriminate.
  - apply IH. cbn [validate] in H. destruct (in_list _ _); cbn [negb] in H; [|discriminate].
    destruct (_ <? _)%N; [discriminate|exact H].
Qed.

Lemma write_uploads_area m files :
  validate files = true -> only_writes upload_area m (write_uploads m files).
Proof.
  intros H. apply validate_types in H. unfold write_uploads.
  assert (G : forall m0, only_writes upload_area m m0 ->
            only_writes upload_area m (fold_left (fun m file =>
               fs_write m (chars "data/uploads/" ++ safe_name (up_name file)) (up_data file)) files m0)).
  { induction H as [|f r Hf Hr IH]; intros m0 H0; [exact H0|].
    cbn [fold_left]. apply IH. apply only_writes_write; [exact H0|].
    left. exists (safe_name (up_name f)). split; [reflexivity|]. apply safe_name_plain, Hf. }
  apply G, only_writes_refl.
Qed.

Lemma update_progress_area m m' c t st :
  only_writes upload_area m m' -> only_writes upload_area m (update_progress m' c t st).
Proof. intros H. apply only_writes_write; [exact H|]. right; right; left; reflexivity. Qed.

Lemma preprocess_all_area m files :
  only_writes upload_area m (fst (preprocess_all m files)).
Proof.
  revert m. induction files as [|f r IH]; intros m; [apply only_writes_refl|].
  cbn [preprocess_all]. destruct (preprocess_file m f) as [m1 res] eqn:E.
  destruct (preprocess_all m1 r) as [m2 ress] eqn:E2. cbn [fst].
  apply only_writes_trans with m1.
  - replace m1 with (fst (preprocess_file m f)) by (rewrite E; reflexivity).
    unfold preprocess_file. destruct (fs_read m f); cbn [fst]; [|apply only_writes_refl].
    apply only_writes_write; [apply only_writes_refl|]. right; left. eexists. reflexivity.
  - specialize (IH m1). rewrite E2 in IH. exact IH.
Qed.

Lemma process_uploaded_files_area e m files :
  only_writes upload_area m (fst (process_uploaded_files e m files)).
Proof.
  unfold process_uploaded_files. destruct files as [|f0 fr]; [apply only_writes_refl|].
  destruct (validate (f0 :: fr)) eqn:Hv; cbn [negb]; [|apply only_writes_refl].
  set (files := f0 :: fr) in *.
  pose proof (update_progress_area _ _ 0 (length files) "preprocessing" (write_uploads_area m files Hv)) as H1.
  set (m1 := update_progress (write_uploads m files) 0 (length files) "preprocessing") in *.
  pose proof (preprocess_all_area m1 (run_parallel_preprocessing_files (e_listdir e m1))) as H2.
  unfold run_parallel_preprocessing.
  destruct (preprocess_all m1 (run_parallel_preprocessing_files (e_listdir e m1))) as [m2 res].
  cbn [fst] in H2. pose proof (only_writes_trans _ _ _ _ H1 H2) as H3. clear H1 H2.
  set (m3 := if length (out_paths res) <? length files
             then update_progress m2 (length (out_paths res)) (length files) "preprocessing" else m2).
  assert (H4 : only_writes upload_area m m3)
    by (unfold m3; destruct (_ <? _); [apply update_progress_area|]; exact H3).
  clearbody m3. destruct (out_paths res) as [|p0 pr]; [apply update_progress_area, H4|].
  apply (update_progress_area _ _ 0 ((length (p0 :: pr) * (length (p0 :: pr) - 1)) / 2) "comparison") in H4.
  destruct (run_parallel_comparison _ _) as [results|]; [|apply update_progress_area, H4].
  destruct (_ <? _); [apply (update_progress_area _ _ (length results) ((length (p0 :: pr) * (length (p0 :: pr) - 1)) / 2) "comparison") in H4|];
  (destruct (e_save_ok e); cbn [fst]; apply update_progress_area;
   [apply only_writes_write; [|right; right; right; reflexivity]|]; apply update_progress_area; exact H4).
Qed.

(** One upload failing the type or size check fails the whole batch. *)
Lemma validate_false files :
  (exists u, In u files
     /\ (in_list (map lower_char (path_suffix (path_name (up_name u)))) VALID_EXTENSIONS = false
         \/ (MAX_FILE_SIZE_MB * 1024 * 1024 < up_size u)%N)) ->
  validate files = false.
Proof.
  induction files as [|f files IH]; intros (u & Hin & Hu); [destruct Hin|].
  cbn [validate]. destruct Hin as [<-|Hin].
  - destruct Hu as [Hu|Hu]; [rewrite Hu; reflexivity|].
    destruct (negb _); [reflexivity|]. apply N.ltb_lt in Hu. rewrite Hu. reflexivity.
  - destruct (negb _); [reflexivity|]. destruct (_ <? _)%N; [reflexivity|].
    apply IH. exists u. split; assumption.
Qed.

Lemma process_uploaded_files_rejects e m files :
  files = [] \/ validate files = false -> process_uploaded_files e m files = (m, false).
Proof.
  intros [->|H]; [reflexivity|]. unfold process_uploaded_files.
  destruct files; [reflexivity|]. rewrite H. reflexivity.
Qed.
End UploadFacts.

(* ===================================================================== *)
(** ** Further properties of the code *)
(* ===================================================================== *)

Module Extras.
Import Py StCache Difflib Preprocessing Comparison Csv Highlight Report Upload CacheFacts.
Import NormFacts CompareFacts PrepFacts HighlightFacts ReportFacts UploadFacts PrepNorm.
Local Open Scope list_scope.
Local Open Scope nat_scope.

(** X1: on ASCII text, [normalize_code] returns text with no upper-case
    letter ([A]-[Z]), no whitespace character other than the space, no two
    spaces in a row, and no space at either end. *)
Theorem normalize_code_normal_form s :
  (forall c, In c (normalize_code s) -> ~ ascii_upper c /\ (is_space c = true -> c = " "%char))
  /\ (forall l1 l2, normalize_code s <> l1 ++ " "%char :: " "%char :: l2)
  /\ (forall r, normalize_code s <> " "%char :: r)
  /\ (forall r, normalize_code s <> r ++ [" "%char]).
Proof. exact (normalize_form s). Qed.

(** X2: [normalize_code] is idempotent. *)
Theorem normalize_code_idempotent s : normalize_code (normalize_code s) = normalize_code s.
Proof. exact (normalize_idem s). Qed.

(** X3: the output of [remove_python_boilerplate] holds no ['#']. *)
Theorem remove_python_boilerplate_no_hash s : ~ In "#"%char (remove_python_boilerplate s).
Proof. exact (remove_python_no_hash s). Qed.

(** X4: [preprocess_file], when the read or the write of the artifact
    fails, writes nothing and returns [(file_path, None)]; when both
    succeed, it writes one artifact under [data/preprocessed/] named by
    the file's basename and returns its path, and the text written is in
    the normal form of [normalize_code] on ASCII text (as in X1) and a
    fixed point of it. *)
Theorem preprocess_file_artifact_normal write_ok m f :
  ((fs_read m f = None \/ write_ok (chars "data/preprocessed/" ++ basename f) = false) ->
     preprocess_file_io write_ok m f = (m, (f, None)))
  /\ (forall code, fs_read m f = Some code -> write_ok (chars "data/preprocessed/" ++ basename f) = true ->
      exists cleaned,
        preprocess_file_io write_ok m f
          = (fs_write m (chars "data/preprocessed/" ++ basename f) cleaned,
             (f, Some (chars "data/preprocessed/" ++ basename f)))
        /\ normalize_code cleaned = cleaned
        /\ (forall c, In c cleaned -> ~ ascii_upper c /\ (is_space c = true -> c = " "%char))
        /\ (forall l1 l2, cleaned <> l1 ++ " "%char :: " "%char :: l2)
        /\ (forall r, cleaned <> " "%char :: r)
        /\ (forall r, cleaned <> r ++ [" "%char])).
Proof.
  split.
  - intros [H|H]; unfold preprocess_file_io.
    + rewrite H. reflexivity.
    + destruct (fs_read m f); [|reflexivity]. cbv zeta. rewrite H. reflexivity.
  - intros code H Hw. unfold preprocess_file_io. rewrite H. cbv zeta. rewrite Hw.
    destruct (cleaned_normalized (splitext_ext f) code) as [s Es].
    eexists. split; [reflexivity|]. rewrite Es.
    split; [apply normalize_idem|apply normalize_form].
Qed.

(** A file whose artifact cannot be written, and one whose artifact is. *)
Definition w_prep_fs : fs :=
  [(chars "data/uploads/a.py", chars "import os" ++ [ascii_of_nat 10] ++ chars "X  =  1 # note")].

Definition w_write_ok (p : list ascii) : bool :=
  if list_eq_dec ascii_dec p (chars "data/preprocessed/a.py") then true else false.

Lemma preprocess_file_artifact_normal_witness :
  preprocess_file_io (fun _ => false) w_prep_fs (chars "data/uploads/a.py")
    = (w_prep_fs, (chars "data/uploads/a.py", None))
  /\ exists cleaned,
    preprocess_file_io w_write_ok w_prep_fs (chars "data/uploads/a.py")
      = (fs_write w_prep_fs (chars "data/preprocessed/a.py") cleaned,
         (chars "data/uploads/a.py", Some (chars "data/preprocessed/a.py")))
    /\ normalize_code cleaned = cleaned.
Proof.
  split.
  - apply (proj1 (preprocess_file_artifact_normal (fun _ => false) w_prep_fs (chars "data/uploads/a.py"))).
    right. reflexivity.
  - destruct (proj2 (preprocess_file_artifact_normal w_write_ok w_prep_fs (chars "data/uploads/a.py"))
                (chars "import os" ++ [ascii_of_nat 10] ++ chars "X  =  1 # note") eq_refl eq_refl)
      as (cleaned & E & N & _).
    exists cleaned. split; [exact E|exact N].
Defined.

(** X5: [run_parallel_preprocessing] over a listing of plain, distinct
    names gives, for each selected file, the result and the artifact that
    [preprocess_file] gives for that file alone, and leaves every other
    path as it was. *)
Theorem run_parallel_preprocessing_independent m listing :
  NoDup listing -> Forall (fun f => ~ In "/"%char f) listing ->
  snd (run_parallel_preprocessing m listing)
    = map (fun p => snd (preprocess_file m p)) (run_parallel_preprocessing_files listing)
  /\ (forall f, In f listing -> driver_selects f = true ->
        fs_read (fst (run_parallel_preprocessing m listing)) (chars "data/preprocessed/" ++ f)
        = fs_read (fst (preprocess_file m (chars "data/uploads/" ++ f))) (chars "data/preprocessed/" ++ f))
  /\ (forall p, (forall f, In f listing -> driver_selects f = true -> p <> chars "data/preprocessed/" ++ f) ->
        fs_read (fst (run_parallel_preprocessing m listing)) p = fs_read m p).
Proof. exact (run_parallel_preprocessing_per_file m listing). Qed.

Definition w_uploads : fs :=
  [(chars "data/uploads/a.py", chars "x = 1");
   (chars "data/uploads/b.java", chars "import java.util.List; int y;");
   (chars "data/uploads/notes.txt", chars "hello")].

Definition w_listing : list (list ascii) := [chars "a.py"; chars "b.java"; chars "notes.txt"].

Lemma run_parallel_preprocessing_independent_witness :
  NoDup w_listing /\ Forall (fun f => ~ In "/"%char f) w_listing
  /\ snd (run_parallel_preprocessing w_uploads w_listing)
      = map (fun p => snd (preprocess_file w_uploads p)) (run_parallel_preprocessing_files w_listing).
Proof.
  assert (H1 : NoDup w_listing) by (repeat constructor; simpl; intuition discriminate).
  assert (H2 : Forall (fun f => ~ In "/"%char f) w_listing) by (repeat constructor; simpl; intuition discriminate).
  split; [exact H1|split; [exact H2|]].
  exact (proj1 (run_parallel_preprocessing_independent w_uploads w_listing H1 H2)).
Defined.

(** X6: [compare_pair] on two texts with no character in common finds no
    real block: the score is 0 (100.00 for two empty texts) and the
    blocks are the sentinel alone. *)
Theorem compare_pair_no_common_char m p q c1 c2 :
  fs_read m p = Some c1 -> fs_read m q = Some c2 ->
  (forall c, In c c1 -> ~ In c c2) ->
  compare_pair m p q =
    Some (mk_result (basename p) (basename q)
            (if length c1 + length c2 =? 0 then 10000 else 0)
            c1 c2 [(length c1, length c2, 0)]).
Proof. exact (compare_pair_disjoint m p q c1 c2). Qed.

Definition w_pair_fs : fs := [(chars "p/abc", chars "abc"); (chars "q/xyz", chars "xyz")].

Lemma compare_pair_no_common_char_witness :
  compare_pair w_pair_fs (chars "p/abc") (chars "q/xyz")
  = Some (mk_result (chars "abc") (chars "xyz") 0 (chars "abc") (chars "xyz") [(3, 3, 0)]).
Proof.
  apply (compare_pair_no_common_char w_pair_fs (chars "p/abc") (chars "q/xyz") (chars "abc") (chars "xyz"));
    [reflexivity|reflexivity|].
  intros c Hc Hd. simpl in Hc, Hd. intuition congruence.
Defined.

(** X7: [highlight_matching_text] is cached on the pair of names: the
    first call with a pair runs the body and stores its value, and every
    later call with that pair returns the stored value, whatever the files
    hold by then. The body, on two readable files, cuts each text into
    non-empty segments, some of them wrapped in the highlight span; the
    segments put back together give the texts, the highlighted ones are
    the same strings on both sides, and their total length gives the score
    [compare_pair] reports. When a file cannot be read, both sides are
    the error message. *)
Theorem highlight_matching_text_segments c m n1 n2 err :
  (cache_lookup names_dec c (n1, n2) = None ->
     highlight_matching_text_cached c m n1 n2 err
     = (((n1, n2), highlight_matching_text m n1 n2 err) :: c, highlight_matching_text m n1 n2 err))
  /\ (forall v, cache_lookup names_dec c (n1, n2) = Some v ->
        highlight_matching_text_cached c m n1 n2 err = (c, v))
  /\ match fs_read m (preprocessed_path n1), fs_read m (preprocessed_path n2) with
     | Some c1, Some c2 =>
         exists segs1 segs2,
           highlight_matching_text m n1 n2 err = (concat (map render segs1), concat (map render segs2))
           /\ concat (map snd segs1) = c1 /\ concat (map snd segs2) = c2
           /\ map snd (filter fst segs1) = map snd (filter fst segs2)
           /\ Forall nonempty segs1 /\ Forall nonempty segs2
           /\ (forall r, compare_pair m (preprocessed_path n1) (preprocessed_path n2) = Some r ->
                 r_score r = score_hundredths (length (concat (map snd (filter fst segs1))))
                                              (length c1 + length c2))
     | _, _ =>
         highlight_matching_text m n1 n2 err
         = (chars "Error comparing files: " ++ err, chars "Error comparing files: " ++ err)
     end.
Proof.
  split; [apply cached_miss|]. split; [intros v; apply cached_hit|].
  exact (highlight_spec m n1 n2 err).
Qed.

Definition w_names : list (list ascii) := [chars "a.py"; chars "b.py"; chars "c.py"].

Definition w_pre_fs : fs :=
  [(pre_path (chars "a.py"), chars "x = 1");
   (pre_path (chars "b.py"), chars "x = 2");
   (pre_path (chars "c.py"), chars "print(x)")].

Definition w_results : list result :=
  match run_parallel_comparison w_pre_fs (map pre_path w_names) with Some r => r | None => [] end.

Lemma w_names_nodup : NoDup w_names.
Proof. repeat constructor; simpl; intuition discriminate. Qed.

Lemma w_names_plain : Forall (fun f => ~ In "/"%char f) w_names.
Proof. repeat constructor; simpl; intuition discriminate. Qed.

Lemma w_run : run_parallel_comparison w_pre_fs (map pre_path w_names) = Some w_results.
Proof. vm_compute. reflexivity. Qed.

(** X8: [display_summary] of the table of a run over [n] distinct plain
    names counts [n] files (0 when [n <= 1], the table being empty),
    [n(n-1)/2] pairs, a highest similarity that exists exactly when
    [n >= 2] and is at most 100.00, and at most as many high-similarity
    pairs as pairs. *)
Theorem display_summary_of_run m names results :
  NoDup names -> Forall (fun f => ~ In "/"%char f) names ->
  run_parallel_comparison m (map pre_path names) = Some results ->
  let s := display_summary (map result_row results) in
  total_files s = (if length names <=? 1 then 0 else length names)
  /\ 2 * total_pairs s = length names * (length names - 1)
  /\ match max_similarity s with
     | None => length names <= 1
     | Some x => 2 <= length names /\ x <= 10000
     end
  /\ high_similarity_pairs s <= total_pairs s.
Proof. exact (display_summary_run m names results). Qed.

Lemma display_summary_of_run_witness :
  total_files (display_summary (map result_row w_results)) = 3
  /\ 2 * total_pairs (display_summary (map result_row w_results)) = 6.
Proof.
  destruct (display_summary_of_run w_pre_fs w_names w_results w_names_nodup w_names_plain w_run)
    as (H1 & H2 & _).
  split; [exact H1|exact H2].
Defined.

(** X9: for the table of a run over at least two distinct plain names,
    the file list of [display_file_similarities] is the names sorted
    (a permutation of them), each listed file has [n-1] rows in its
    subset, and any other name has none. *)
Theorem file_similarities_of_run m names results :
  NoDup names -> Forall (fun f => ~ In "/"%char f) names -> 2 <= length names ->
  run_parallel_comparison m (map pre_path names) = Some results ->
  Permutation (file_list (map result_row results)) names
  /\ (forall f, In f names -> length (file_subset (map result_row results) f) = length names - 1)
  /\ (forall f, ~ In f names -> file_subset (map result_row results) f = []).
Proof. exact (file_similarities_run m names results). Qed.

Lemma file_similarities_of_run_witness :
  Permutation (file_list (map result_row w_results)) w_names
  /\ length (file_subset (map result_row w_results) (chars "a.py")) = 2.
Proof.
  assert (H3 : 2 <= length w_names) by (simpl; lia).
  destruct (file_similarities_of_run w_pre_fs w_names w_results w_names_nodup w_names_plain H3 w_run)
    as (H1 & H2 & _).
  split; [exact H1|]. apply H2. left. reflexivity.
Defined.

(** X10: [prepare_pie_chart_data] is cached on [(bins, labels)] only.
    On the first call with the five ranges used by the views, on a table
    whose scores lie in [0, 100], it stores and returns five counts that
    add up to the number of rows: every row falls in exactly one range.
    Every later call with the same bins and labels returns those stored
    counts, whatever table it is given. *)
Theorem pie_chart_counts_cached c df :
  (Forall (fun r => row_score r <= 10000) df ->
   cache_lookup pie_key_dec c (pie_bins, pie_labels) = None ->
     fst (prepare_pie_chart_data_cached c df pie_bins pie_labels)
       = ((pie_bins, pie_labels), prepare_pie_chart_data df pie_bins pie_labels) :: c
     /\ length (fst (snd (prepare_pie_chart_data_cached c df pie_bins pie_labels))) = 5
     /\ list_sum (fst (snd (prepare_pie_chart_data_cached c df pie_bins pie_labels))) = length df)
  /\ (forall v, cache_lookup pie_key_dec c (pie_bins, pie_labels) = Some v ->
        prepare_pie_chart_data_cached c df pie_bins pie_labels = (c, v)).
Proof.
  split.
  - intros Hs Hc. unfold prepare_pie_chart_data_cached. rewrite (cached_miss _ _ _ _ Hc). cbn [fst snd].
    split; [reflexivity|]. exact (pie_counts df Hs).
  - intros v Hc. unfold prepare_pie_chart_data_cached. exact (cached_hit _ _ _ _ _ Hc).
Qed.

(** A second table, with one row. *)
Definition w_df2 : list row := [(chars "d.py", chars "e.py", 10000)].

(** The first call counts the three pairs of a run; a second call on
    another table returns the same counts. *)
Lemma pie_chart_counts_cached_witness :
  list_sum (fst (snd (prepare_pie_chart_data_cached [] (map result_row w_results) pie_bins pie_labels))) = 3
  /\ snd (prepare_pie_chart_data_cached
          (fst (prepare_pie_chart_data_cached [] (map result_row w_results) pie_bins pie_labels))
          w_df2 pie_bins pie_labels)
     = snd (prepare_pie_chart_data_cached [] (map result_row w_results) pie_bins pie_labels).
Proof.
  assert (Hs : Forall (fun r => row_score r <= 10000) (map result_row w_results)).
  { apply Forall_forall. intros r Hr. apply Nat.leb_le. revert r Hr. apply forallb_forall.
    vm_compute. reflexivity. }
  split.
  - exact (proj2 (proj2 (proj1 (pie_chart_counts_cached [] (map result_row w_results)) Hs eq_refl))).
  - rewrite (proj2 (pie_chart_counts_cached
                      (fst (prepare_pie_chart_data_cached [] (map result_row w_results) pie_bins pie_labels))
                      w_df2)
                   (snd (prepare_pie_chart_data_cached [] (map result_row w_results) pie_bins pie_labels))).
    + reflexivity.
    + vm_compute. reflexivity.
Defined.

(** X11: an upload whose type passes the check of
    [process_uploaded_files] is stored under a name with no ['/'] and no
    backslash that is neither empty, ['.'] nor ['..']: it stays inside
    [data/uploads]. *)
Theorem safe_name_stays_in_uploads n :
  in_list (map lower_char (path_suffix (path_name n))) VALID_EXTENSIONS = true ->
  ~ In "/"%char (safe_name n) /\ ~ In backslash (safe_name n)
  /\ safe_name n <> [] /\ safe_name n <> ["."%char] /\ safe_name n <> ["."%char; "."%char].
Proof. exact (safe_name_plain n). Qed.

Lemma safe_name_stays_in_uploads_witness :
  safe_name (chars "../../etc/x.PY") = chars "x.PY"
  /\ ~ In "/"%char (safe_name (chars "../../etc/x.PY")).
Proof.
  split; [reflexivity|].
  apply (safe_name_stays_in_uploads (chars "../../etc/x.PY")). reflexivity.
Defined.

(** X12: an upload named [stem ++ ".." ++ e], with [e] one of [py],
    [cpp], [h], [java] and [stem] free of ['.'], ['/'] and backslash,
    passes the type check, is stored as [stem ++ e], and that stored name
    is not selected by [run_parallel_preprocessing]: the file is never
    compared. *)
Theorem dotdot_upload_not_preprocessed stem e :
  In e [chars "py"; chars "cpp"; chars "h"; chars "java"] ->
  (forall c, In c stem -> c <> "."%char /\ c <> "/"%char /\ c <> backslash) ->
  in_list (map lower_char (path_suffix (path_name (stem ++ "."%char :: "."%char :: e)))) VALID_EXTENSIONS = true
  /\ safe_name (stem ++ "."%char :: "."%char :: e) = stem ++ e
  /\ driver_selects (stem ++ e) = false.
Proof. exact (dotdot_name_facts stem e). Qed.

Lemma dotdot_upload_not_preprocessed_witness :
  safe_name (chars "report..py") = chars "reportpy" /\ driver_selects (chars "reportpy") = false.
Proof.
  destruct (dotdot_upload_not_preprocessed (chars "report") (chars "py")) as (_ & H2 & H3).
  - left. reflexivity.
  - intros c Hc. simpl in Hc. repeat destruct Hc as [<-|Hc]; try destruct Hc; repeat split; discriminate.
  - split; [exact H2|exact H3].
Defined.

(** X13: [process_uploaded_files] only adds files: the state after it is
    the state before with entries added under [data/uploads/] (with a
    plain name), under [data/preprocessed/], at [PROGRESS_FILE] or at
    [RESULTS_CSV]; no other path is written. *)
Theorem process_uploaded_files_write_paths e m files :
  exists w, fst (process_uploaded_files e m files) = w ++ m
  /\ Forall (fun pc => upload_area (fst pc)) w.
Proof. exact (process_uploaded_files_area e m files). Qed.

(** X14: [process_uploaded_files] with no upload, or with some upload
    failing the type check or the size check, wherever it is in the list,
    returns [False] without writing anything. *)
Theorem process_uploaded_files_rejects_batch e m files :
  files = []
  \/ (exists u, In u files
        /\ (in_list (map lower_char (path_suffix (path_name (up_name u)))) VALID_EXTENSIONS = false
            \/ (MAX_FILE_SIZE_MB * 1024 * 1024 < up_size u)%N)) ->
  process_uploaded_files e m files = (m, false).
Proof.
  intros H. apply process_uploaded_files_rejects.
  destruct H as [H|H]; [left; exact H|right; exact (validate_false files H)].
Qed.

Definition w_env : upload_env := mk_upload_env (fun _ => []) true.

Lemma process_uploaded_files_rejects_batch_witness :
  process_uploaded_files w_env []
    [mk_upload (chars "a.py") 5 (chars "x = 1"); mk_upload (chars "notes.txt") 5 (chars "hello")]
  = ([], false).
Proof.
  apply process_uploaded_files_rejects_batch. right.
  exists (mk_upload (chars "notes.txt") 5 (chars "hello")). split.
  - right. left. reflexivity.
  - left. reflexivity.
Defined.
End Extras.
